(** * The LLO reporting plugin (llo/plugin.go): model and properties

    A shallow embedding of the pure decision core of the plugin:
    [IsReportable], the observation validator, the observation built by
    [Observation], the outcome transition [Outcome], and the reports that
    [Reports] makes of an outcome.

    Conventions of the embedding.
    - Go's [int], [int64], [uint32] and [uint64] values are [Z]; channel
      and stream ids are never used in arithmetic, time stamps are.
    - A Go [map] that the code tests against [nil] is an [option (gmap _ _)]
      with [None] for the nil map; a map that is only read is a [gmap].
    - A [*big.Int] is an [option Z] with [None] for the nil pointer.
    - A function that can return an error or panic returns a [Result].
    - [range] over a Go map visits the keys in an unspecified order.  Where
      the loop body commutes the model folds in the map's own order; where
      it does not, the visiting order is an explicit argument. *)

From Stdlib Require Import ZArith Lia.
From Stdlib Require Strings.Byte.
From stdpp Require Import base option list strings gmap fin_maps fin_sets sorting.

Local Open Scope Z_scope.

(** ** Results of fallible calls *)

Inductive Result (A : Type) : Type :=
| Ok (a : A)          (* returned with a nil error *)
| Err (msg : string)  (* returned a non-nil error *)
| Panic.              (* run-time panic (nil dereference) *)
Arguments Ok {A} a.
Arguments Err {A} msg.
Arguments Panic {A}.

(** Sequencing: an error or a panic ends the call. *)
#[global] Instance Result_bind : MBind Result := λ A B k r,
  match r with
  | Ok a => k a
  | Err msg => Err msg
  | Panic => Panic
  end.

(** ** Data model *)

Abbreviation bytes := (list Byte.byte).
Abbreviation bigInt := (option Z) (only parsing).
(** A Go map that may be nil. *)
Abbreviation gomap V := (option (gmap Z V)) (only parsing).

(** Reading a nil map behaves like reading an empty one. *)
Definition index {V} (m : gomap V) (k : Z) : option V :=
  match m with
  | Some m => m !! k
  | None => None
  end.

(** [range m] and [len(m)] on a possibly nil map. *)
Definition entries {V} (m : gomap V) : gmap Z V := default ∅ m.

(** commontypes.ChannelDefinition *)
Record ChannelDefinition : Type := {
  ReportFormat : string;
  ChainSelector : Z;       (* uint64 *)
  StreamIDs : list Z;      (* []StreamID, uint32 *)
}.

Record ChannelDefinitionWithID : Type := {
  Definition_ : ChannelDefinition;   (* the embedded ChannelDefinition *)
  ChannelID : Z;                     (* uint32 *)
}.

(** ObsResult[*big.Int] *)
Record ObsResult : Type := {
  Val : bigInt;
  Valid : bool;
}.

Definition LifeCycleStageStaging : string := "staging".
Definition LifeCycleStageProduction : string := "production".
Definition LifeCycleStageRetired : string := "retired".

Module RetirementReport.
Record t : Type := {
  ValidAfterSeconds : gomap Z;
}.
End RetirementReport.

Module Observation.
Record t : Type := {
  AttestedPredecessorRetirement : bytes;
  ShouldRetire : bool;
  UnixTimestampNanoseconds : Z;
  RemoveChannelIDs : gset Z;
  AddChannelDefinitions : gmap Z ChannelDefinition;
  StreamValues : gmap Z ObsResult;
}.
(** The zero value, which [json.Unmarshal] starts from. *)
Definition zero : t :=
  {| AttestedPredecessorRetirement := [];
     ShouldRetire := false;
     UnixTimestampNanoseconds := 0;
     RemoveChannelIDs := ∅;
     AddChannelDefinitions := ∅;
     StreamValues := ∅ |}.
End Observation.

Module Outcome.
Record t : Type := {
  LifeCycleStage : string;
  ObservationsTimestampNanoseconds : Z;
  ChannelDefinitions : gomap ChannelDefinition;
  ValidAfterSeconds : gomap Z;
  StreamMedians : gomap bigInt;
}.
End Outcome.

(** types.AttributedObservation *)
Record AttributedObservation : Type := {
  ao_Observation : bytes;
  ao_Observer : Z;
}.

(** The part of ocr3types.OutcomeContext the plugin reads. *)
Record OutcomeContext : Type := {
  SeqNr : Z;
  PreviousOutcome : bytes;
}.

(** ** Imported packages

    Functions of packages outside the repository, taken as given:
    crypto/sha256, chain-selectors and the JSON coding of the two wire
    structures.  [Sum256] reads the 32 digest bytes as a big-endian
    number. *)
Class Imports : Type := {
  Sum256 : bytes → Z;
  ChainIdFromSelector : Z → option Z;
  decodeOutcome : bytes → option Outcome.t;
  decodeObservation : bytes → option Observation.t;
  encodeOutcome : Outcome.t → bytes;
}.

(** [json.Unmarshal] rejects the empty input ("unexpected end of JSON
    input") before it looks at the target. *)
Definition json_Unmarshal {A} (dec : bytes → option A) (data : bytes) : option A :=
  match data with
  | [] => None
  | _ => dec data
  end.

Section IsReportable.
Context `{Imports}.

(** [time.Unix(0, nsec).Unix()]: the seconds after normalising [nsec]
    into [0, 1e9). Go's [/] truncates, hence the correction. *)
Definition time_Unix_seconds (nsec : Z) : Z :=
  if bool_decide (nsec < 0 ∨ 1000000000 ≤ nsec) then
    let n := nsec ÷ 1000000000 in
    let nsec' := nsec - n * 1000000000 in
    if bool_decide (nsec' < 0) then n - 1 else n
  else 0.

Definition uint32 (z : Z) : Z := z `mod` 2 ^ 32.

Definition ObservationsTimestampSeconds (out : Outcome.t) : Result Z :=
  let result := time_Unix_seconds (Outcome.ObservationsTimestampNanoseconds out) in
  if bool_decide (uint32 result ≠ result) then
    Err "timestamp doesn't fit into uint32"
  else Ok (uint32 result).

(** The loop over [channelDefinition.StreamIDs]; an absent key and a nil
    pointer both read as nil. *)
Fixpoint mediansPresent (medians : gomap bigInt) (streamIDs : list Z) : Result unit :=
  match streamIDs with
  | [] => Ok tt
  | streamID :: rest =>
      match index medians streamID with
      | Some (Some _) => mediansPresent medians rest
      | _ => Err "IsReportable=false; median was nil"
      end
  end.

Definition IsReportable (out : Outcome.t) (channelID : Z) : Result unit :=
  if bool_decide (Outcome.LifeCycleStage out = LifeCycleStageRetired) then
    Err "IsReportable=false; retired channel"
  else
    match ObservationsTimestampSeconds out with
    | Panic => Panic
    | Err _ => Err "IsReportable=false; invalid observations timestamp"
    | Ok observationsTimestampSeconds =>
        match index (Outcome.ChannelDefinitions out) channelID with
        | None => Err "IsReportable=false; no channel definition with ID"
        | Some channelDefinition =>
            match ChainIdFromSelector (ChainSelector channelDefinition) with
            | None => Err "IsReportable=false; invalid chain selector"
            | Some _ =>
                _ ← mediansPresent (Outcome.StreamMedians out) (StreamIDs channelDefinition);
                match index (Outcome.ValidAfterSeconds out) channelID with
                | None => Err "IsReportable=false; no validAfterSeconds entry yet, this must be a new channel"
                | Some validAfterSeconds =>
                    if bool_decide (observationsTimestampSeconds ≤ validAfterSeconds) then
                      Err "IsReportable=false; not valid yet"
                    else Ok tt
                end
            end
        end
    end.
End IsReportable.

(** ** Constants *)

Definition MAX_OBSERVATION_REMOVE_CHANNEL_IDS_LENGTH : Z := 5.
Definition MAX_OBSERVATION_ADD_CHANNEL_DEFINITIONS_LENGTH : Z := 5.
Definition MAX_OBSERVATION_STREAM_VALUES_LENGTH : Z := 1000.
Definition MAX_OUTCOME_CHANNEL_DEFINITIONS_LENGTH : Z := 500.

(** Go's [int] on a 64-bit platform. *)
Definition int (z : Z) : Z := (z + 2 ^ 63) `mod` 2 ^ 64 - 2 ^ 63.

(** [len] of a slice or map as a Go [int]. *)
Definition len {A} (l : list A) : Z := Z.of_nat (length l).

(** ** The plugin *)

Record LLOPlugin : Type := {
  PredecessorConfigDigest : option bytes;     (* *types.ConfigDigest, nil as None *)
  ConfigDigest : bytes;
  (** PredecessorRetirementReportCache.CheckAttestedRetirementReport;
      [None] stands for a returned error. *)
  CheckAttestedRetirementReport : bytes → bytes → option RetirementReport.t;
  F : Z;
}.

(** The state of the loop over the attributed observations in [Outcome]. *)
Record Accumulators : Type := {
  validPredecessorRetirementReport : option RetirementReport.t;
  shouldRetireVotes : Z;
  timestampsNanoseconds : list Z;
  removeChannelVotesByID : gmap Z Z;
  addChannelVotesByHash : gmap Z Z;
  addChannelDefinitionsByHash : gmap Z ChannelDefinitionWithID;
  streamObservations : gmap Z (list bigInt);
}.

Definition noVotes : Accumulators :=
  {| validPredecessorRetirementReport := None;
     shouldRetireVotes := 0;
     timestampsNanoseconds := [];
     removeChannelVotesByID := ∅;
     addChannelVotesByHash := ∅;
     addChannelDefinitionsByHash := ∅;
     streamObservations := ∅ |}.

Definition byChannelID (a b : ChannelDefinitionWithID) : Prop :=
  ChannelID a ≤ ChannelID b.

#[global] Instance byChannelID_dec a b : Decision (byChannelID a b).
Proof. unfold byChannelID. apply _. Defined.

(** [x.Cmp(y) < 0] on [*big.Int]: [Cmp] returns at once when the two
    pointers are equal and reads through both otherwise. *)
Definition lessBigInt (x y : bigInt) : Result bool :=
  match x, y with
  | Some a, Some b => Ok (bool_decide (a < b))
  | None, None => Ok false
  | _, _ => Panic
  end.

(** [sort.Slice] with [lessBigInt].  A slice that mixes nil and non-nil
    pointers makes some comparison panic; a slice of nil pointers is left
    as it is; otherwise the values end up in ascending order. *)
Definition sortBigInts (observations : list bigInt) : Result (list bigInt) :=
  match mapM id observations with
  | Some values => Ok (Some <$> merge_sort Z.le values)
  | None =>
      if forallb (λ x : bigInt, bool_decide (x = None)) observations
      then Ok observations
      else Panic
  end.

(** A loop over a map that writes at most one entry of a fresh map per
    key, and whose body may fail. *)
Definition rangeInto {A B} (body : Z → A → Result (option B)) (m : gmap Z A)
    : Result (gmap Z B) :=
  map_fold (λ k a acc,
      out ← acc;
      r ← body k a;
      Ok (match r with Some b => <[k := b]> out | None => out end))
    (Ok ∅) m.

Section Plugin.
Context `{Imports}.

Definition bigEndianByte (z : Z) : Byte.byte :=
  default Byte.x00 (Byte.of_N (Z.to_N (z `mod` 256))).

(** [binary.Write(h, binary.BigEndian, v)] for an unsigned [v] of
    [width] bytes. *)
Definition bigEndian (width : nat) (v : Z) : bytes :=
  (λ i : nat, bigEndianByte (v ≫ (8 * Z.of_nat i))) <$> reverse (seq 0 width).

Definition MakeChannelHash (cd : ChannelDefinitionWithID) : Z :=
  Sum256 (bigEndian 4 (ChannelID cd)
          ++ bigEndian 4 (Z.of_nat (String.length (ReportFormat (Definition_ cd))))
          ++ String.list_byte_of_string (ReportFormat (Definition_ cd))
          ++ bigEndian 8 (ChainSelector (Definition_ cd))
          ++ bigEndian 4 (len (StreamIDs (Definition_ cd)))
          ++ mjoin (bigEndian 4 <$> StreamIDs (Definition_ cd))).

(** *** ValidateObservation *)

Definition ValidateObservation (p : LLOPlugin) (outctx : OutcomeContext)
    (ao : AttributedObservation) : Result unit :=
  if bool_decide (SeqNr outctx ≤ 1) && bool_decide (len (ao_Observation ao) ≠ 0) then
    Err "Observation is not empty"
  else
    observation ←
      (if bool_decide (0 < len (ao_Observation ao)) then
         match json_Unmarshal decodeObservation (ao_Observation ao) with
         | Some o => Ok o
         | None => Err "Observation is invalid json"
         end
       else Ok Observation.zero);
    if bool_decide (PredecessorConfigDigest p = None)
       && bool_decide (len (Observation.AttestedPredecessorRetirement observation) ≠ 0) then
      Err "AttestedPredecessorRetirement is not empty even though this instance has no predecessor"
    else if bool_decide (MAX_OBSERVATION_ADD_CHANNEL_DEFINITIONS_LENGTH
                         < Z.of_nat (size (Observation.AddChannelDefinitions observation))) then
      Err "AddChannelDefinitions is too long"
    else if bool_decide (MAX_OBSERVATION_REMOVE_CHANNEL_IDS_LENGTH
                         < Z.of_nat (size (Observation.RemoveChannelIDs observation))) then
      Err "RemoveChannelIDs is too long"
    else if bool_decide (MAX_OBSERVATION_STREAM_VALUES_LENGTH
                         < Z.of_nat (size (Observation.StreamValues observation))) then
      Err "StreamValues is too long"
    else if bool_decide (map_Forall (λ _ obsResult, ¬ (Valid obsResult = true ∧ Val obsResult = None))
                           (Observation.StreamValues observation)) then
      Ok tt
    else Err "stream was marked valid but carries nil value".

(** *** The vote sets of Observation *)

(** [limit] is 5 at both call sites. *)
Definition subtractChannelDefinitions (minuend subtrahend : gomap ChannelDefinition)
    (limit : Z) : gmap Z ChannelDefinition :=
  let differenceList :=
    (λ kv : Z * ChannelDefinition, {| Definition_ := kv.2; ChannelID := kv.1 |})
      <$> filter (λ kv : Z * ChannelDefinition, index subtrahend kv.1 = None)
            (map_to_list (entries minuend)) in
  let differenceList := merge_sort byChannelID differenceList in
  let differenceList :=
    if bool_decide (limit < len differenceList)
    then take (Z.to_nat limit) differenceList
    else differenceList in
  list_to_map ((λ defWithID, (ChannelID defWithID, Definition_ defWithID)) <$> differenceList).

(** The loop over [previousOutcome.ValidAfterSeconds], which stops as
    soon as the set is full; [keys] is the order in which [range]
    yields the channel ids. *)
Fixpoint voteRemoveValidAfter (expectedChannelDefs : gomap ChannelDefinition)
    (removeChannelIDs : gset Z) (keys : list Z) : gset Z :=
  match keys with
  | [] => removeChannelIDs
  | channelID :: keys =>
      if bool_decide (MAX_OBSERVATION_REMOVE_CHANNEL_IDS_LENGTH ≤ Z.of_nat (size removeChannelIDs))
      then removeChannelIDs
      else
        voteRemoveValidAfter expectedChannelDefs
          (match index expectedChannelDefs channelID with
           | None => {[channelID]} ∪ removeChannelIDs
           | Some _ => removeChannelIDs
           end) keys
  end.

(** The [removeChannelIDs] of the observation that [Observation]
    serialises. [rangeValidAfter] is the order in which [range] yields the
    keys of [previousOutcome.ValidAfterSeconds]. *)
Definition Observation_removeChannelIDs (rangeValidAfter : list Z → list Z)
    (previousOutcome : Outcome.t) (expectedChannelDefs : gomap ChannelDefinition) : gset Z :=
  let removeChannelDefinitions :=
    subtractChannelDefinitions (Outcome.ChannelDefinitions previousOutcome)
      expectedChannelDefs MAX_OBSERVATION_REMOVE_CHANNEL_IDS_LENGTH in
  voteRemoveValidAfter expectedChannelDefs (dom removeChannelDefinitions)
    (rangeValidAfter (map_to_list (entries (Outcome.ValidAfterSeconds previousOutcome))).*1).

Definition Observation_addChannelDefinitions
    (previousOutcome : Outcome.t) (expectedChannelDefs : gomap ChannelDefinition)
    : gmap Z ChannelDefinition :=
  subtractChannelDefinitions expectedChannelDefs (Outcome.ChannelDefinitions previousOutcome)
    MAX_OBSERVATION_ADD_CHANNEL_DEFINITIONS_LENGTH.
End Plugin.

Section Outcome.
Context `{Imports}.

(** *** The loop over the attributed observations *)

(** [votes[k]++] *)
Definition increment (k : Z) (votes : gmap Z Z) : gmap Z Z :=
  <[k := default 0 (votes !! k) + 1]> votes.

Definition withID (channelID : Z) (channelDefinition : ChannelDefinition)
    : ChannelDefinitionWithID :=
  {| Definition_ := channelDefinition; ChannelID := channelID |}.

(** What the loop body does with an observation once it is past the
    retirement report: the vote, the time stamp, the channel votes and
    the stream values. *)
Definition countObservation (acc : Accumulators) (observation : Observation.t)
    : Accumulators :=
  {| validPredecessorRetirementReport := validPredecessorRetirementReport acc;
     shouldRetireVotes :=
       if Observation.ShouldRetire observation
       then shouldRetireVotes acc + 1 else shouldRetireVotes acc;
     timestampsNanoseconds :=
       timestampsNanoseconds acc ++ [Observation.UnixTimestampNanoseconds observation];
     removeChannelVotesByID :=
       set_fold increment (removeChannelVotesByID acc)
         (Observation.RemoveChannelIDs observation);
     addChannelVotesByHash :=
       map_fold (λ channelID channelDefinition votes,
                   increment (MakeChannelHash (withID channelID channelDefinition)) votes)
         (addChannelVotesByHash acc) (Observation.AddChannelDefinitions observation);
     addChannelDefinitionsByHash :=
       map_fold (λ channelID channelDefinition defs,
                   <[MakeChannelHash (withID channelID channelDefinition)
                     := withID channelID channelDefinition]> defs)
         (addChannelDefinitionsByHash acc) (Observation.AddChannelDefinitions observation);
     streamObservations :=
       map_fold (λ id obsResult observations,
                   if Valid obsResult
                   then <[id := default [] (observations !! id) ++ [Val obsResult]]> observations
                   else observations)
         (streamObservations acc) (Observation.StreamValues observation) |}.

Definition acceptRetirementReport (acc : Accumulators) (r : RetirementReport.t)
    : Accumulators :=
  {| validPredecessorRetirementReport := Some r;
     shouldRetireVotes := shouldRetireVotes acc;
     timestampsNanoseconds := timestampsNanoseconds acc;
     removeChannelVotesByID := removeChannelVotesByID acc;
     addChannelVotesByHash := addChannelVotesByHash acc;
     addChannelDefinitionsByHash := addChannelDefinitionsByHash acc;
     streamObservations := streamObservations acc |}.

(** One iteration; [Ok acc] unchanged is a [continue]. *)
Definition observe (p : LLOPlugin) (acc : Accumulators) (ao : AttributedObservation)
    : Result Accumulators :=
  match json_Unmarshal decodeObservation (ao_Observation ao) with
  | None => Ok acc
  | Some observation =>
      match Observation.AttestedPredecessorRetirement observation,
            validPredecessorRetirementReport acc with
      | _ :: _, None =>
          match PredecessorConfigDigest p with
          | None => Panic
          | Some pcd =>
              match CheckAttestedRetirementReport p pcd
                      (Observation.AttestedPredecessorRetirement observation) with
              | None => Ok acc
              | Some retirementReport =>
                  Ok (countObservation (acceptRetirementReport acc retirementReport) observation)
              end
          end
      | _, _ => Ok (countObservation acc observation)
      end
  end.

Fixpoint observeAll (p : LLOPlugin) (acc : Accumulators) (aos : list AttributedObservation)
    : Result Accumulators :=
  match aos with
  | [] => Ok acc
  | ao :: aos => acc ← observe p acc ao; observeAll p acc aos
  end.

(** *** The new outcome from the previous one and the votes *)

(** **** outcome.LifeCycleStage *)

Definition promoted (previousOutcome : Outcome.t) (acc : Accumulators) : bool :=
  bool_decide (Outcome.LifeCycleStage previousOutcome = LifeCycleStageStaging)
  && bool_decide (is_Some (validPredecessorRetirementReport acc)).

(** [outcome.ValidAfterSeconds] as the promotion leaves it: the map of
    the retirement report, or nil. *)
Definition handedOver (previousOutcome : Outcome.t) (acc : Accumulators) : gomap Z :=
  if promoted previousOutcome acc
  then r ← validPredecessorRetirementReport acc; RetirementReport.ValidAfterSeconds r
  else None.

Definition nextLifeCycleStage (p : LLOPlugin) (previousOutcome : Outcome.t)
    (acc : Accumulators) : string :=
  let lifeCycleStage :=
    if promoted previousOutcome acc then LifeCycleStageProduction
    else Outcome.LifeCycleStage previousOutcome in
  if bool_decide (lifeCycleStage = LifeCycleStageProduction)
     && bool_decide (F p < shouldRetireVotes acc)
  then LifeCycleStageRetired else lifeCycleStage.

(** **** outcome.ObservationsTimestampNanoseconds *)

Definition medianTimestamp (timestampsNanoseconds : list Z) : Result Z :=
  let sorted := merge_sort Z.le timestampsNanoseconds in
  match sorted !! (length sorted / 2)%nat with
  | Some t => Ok t
  | None => Panic
  end.

(** **** outcome.ChannelDefinitions *)

(** A vote map has more than [f] votes for a key. *)
Definition outvoted (f : Z) (votes : gmap Z Z) (k : Z) : bool :=
  match votes !! k with
  | Some voteCount => bool_decide (f < voteCount)
  | None => false
  end.

(** The first loop over the votes: the ids with more than [f] votes, and
    the definitions without them. *)
Definition removeChannels (f : Z) (removeChannelVotesByID : gmap Z Z)
    (defs : gmap Z ChannelDefinition) : list Z * gmap Z ChannelDefinition :=
  map_fold (λ channelID voteCount (st : list Z * gmap Z ChannelDefinition),
              if bool_decide (voteCount ≤ f) then st
              else (st.1 ++ [channelID], delete channelID st.2))
    ([], defs) removeChannelVotesByID.

(** The body of the second loop. *)
Definition addChannel (f : Z) (addChannelVotesByHash : gmap Z Z)
    (defs : gmap Z ChannelDefinition) (entry : Z * ChannelDefinitionWithID)
    : gmap Z ChannelDefinition :=
  let voteCount := default 0 (addChannelVotesByHash !! entry.1) in
  if bool_decide (voteCount ≤ f) then defs
  else if bool_decide (is_Some (defs !! ChannelID entry.2)) then defs
  else if bool_decide (MAX_OUTCOME_CHANNEL_DEFINITIONS_LENGTH < Z.of_nat (size defs)) then defs
  else <[ChannelID entry.2 := Definition_ entry.2]> defs.

(** The removed ids and the new definitions.  [rangeAdd] is the order
    in which [range] yields the entries of [addChannelDefinitionsByHash]. *)
Definition nextChannelDefinitions (p : LLOPlugin)
    (rangeAdd : list (Z * ChannelDefinitionWithID) → list (Z * ChannelDefinitionWithID))
    (previousOutcome : Outcome.t) (acc : Accumulators)
    : list Z * gmap Z ChannelDefinition :=
  let retired :=
    bool_decide (nextLifeCycleStage p previousOutcome acc = LifeCycleStageRetired) in
  let removeVotes := if retired then ∅ else removeChannelVotesByID acc in
  let addDefs := if retired then ∅ else addChannelDefinitionsByHash acc in
  let removed :=
    removeChannels (F p) removeVotes (entries (Outcome.ChannelDefinitions previousOutcome)) in
  (removed.1,
   foldl (addChannel (F p) (addChannelVotesByHash acc)) removed.2
     (rangeAdd (map_to_list addDefs))).

Definition withChannelDefinitions (out : Outcome.t) (defs : gomap ChannelDefinition)
    : Outcome.t :=
  {| Outcome.LifeCycleStage := Outcome.LifeCycleStage out;
     Outcome.ObservationsTimestampNanoseconds := Outcome.ObservationsTimestampNanoseconds out;
     Outcome.ChannelDefinitions := defs;
     Outcome.ValidAfterSeconds := Outcome.ValidAfterSeconds out;
     Outcome.StreamMedians := Outcome.StreamMedians out |}.

(** [previousOutcome] once the channel definitions are edited: unless
    its map is nil, [outcome.ChannelDefinitions] is that same map, and
    the deletions and insertions show through it. *)
Definition afterEdits (previousOutcome : Outcome.t) (defs : gmap Z ChannelDefinition)
    : Outcome.t :=
  match Outcome.ChannelDefinitions previousOutcome with
  | Some _ => withChannelDefinitions previousOutcome (Some defs)
  | None => previousOutcome
  end.

(** **** outcome.ValidAfterSeconds *)

(** The loop over [previousOutcome.ValidAfterSeconds], run when the
    promotion left [outcome.ValidAfterSeconds] nil. *)
Definition carriedOver (previousOutcome : Outcome.t) : Result (gmap Z Z) :=
  match ObservationsTimestampSeconds previousOutcome with
  | Ok previousObservationsTimestampSeconds =>
      Ok (map_imap (λ channelID previousValidAfterSeconds,
                      Some match IsReportable previousOutcome channelID with
                           | Ok _ => previousValidAfterSeconds
                           | _ => previousObservationsTimestampSeconds
                           end)
            (entries (Outcome.ValidAfterSeconds previousOutcome)))
  | Err _ => Err "error getting previous outcome's observations timestamp"
  | Panic => Panic
  end.

(** The entries for new channels, then the deletions. *)
Definition settleValidAfterSeconds (validAfterSeconds : gmap Z Z)
    (channelDefinitions : gmap Z ChannelDefinition) (observationsTimestampSeconds : Z)
    (removedChannelIDs : list Z) : gmap Z Z :=
  foldl (λ m channelID, delete channelID m)
    (validAfterSeconds ∪ ((λ _, observationsTimestampSeconds) <$> channelDefinitions))
    removedChannelIDs.

(** **** outcome.StreamMedians *)

Definition streamMedian (f : Z) (observations : list bigInt) : Result (option bigInt) :=
  observations ← sortBigInts observations;
  if bool_decide (len observations ≤ f) then Ok None
  else
    match observations !! (length observations / 2)%nat with
    | Some median => Ok (Some median)
    | None => Panic
    end.

Definition nextOutcome (p : LLOPlugin)
    (rangeAdd : list (Z * ChannelDefinitionWithID) → list (Z * ChannelDefinitionWithID))
    (previousOutcome : Outcome.t) (acc : Accumulators) : Result Outcome.t :=
  if bool_decide (len (timestampsNanoseconds acc) = 0) then Err "no valid observations"
  else
    let lifeCycleStage := nextLifeCycleStage p previousOutcome acc in
    observationsTimestampNanoseconds ← medianTimestamp (timestampsNanoseconds acc);
    let edits := nextChannelDefinitions p rangeAdd previousOutcome acc in
    let removedChannelIDs := edits.1 in
    let channelDefinitions := edits.2 in
    validAfterSeconds ←
      match handedOver previousOutcome acc with
      | Some validAfterSeconds => Ok validAfterSeconds
      | None => carriedOver (afterEdits previousOutcome channelDefinitions)
      end;
    let outcome :=
      {| Outcome.LifeCycleStage := lifeCycleStage;
         Outcome.ObservationsTimestampNanoseconds := observationsTimestampNanoseconds;
         Outcome.ChannelDefinitions := Some channelDefinitions;
         Outcome.ValidAfterSeconds := Some validAfterSeconds;
         Outcome.StreamMedians := None |} in
    match ObservationsTimestampSeconds outcome with
    | Err _ => Err "error getting outcome's observations timestamp"
    | Panic => Panic
    | Ok observationsTimestampSeconds =>
        streamMedians ← rangeInto (λ _, streamMedian (F p)) (streamObservations acc);
        Ok {| Outcome.LifeCycleStage := lifeCycleStage;
              Outcome.ObservationsTimestampNanoseconds := observationsTimestampNanoseconds;
              Outcome.ChannelDefinitions := Some channelDefinitions;
              Outcome.ValidAfterSeconds :=
                Some (settleValidAfterSeconds validAfterSeconds channelDefinitions
                        observationsTimestampSeconds removedChannelIDs);
              Outcome.StreamMedians := Some streamMedians |}
    end.

(** The outcome that [Outcome] serialises. *)
Definition outcomeOf (p : LLOPlugin)
    (rangeAdd : list (Z * ChannelDefinitionWithID) → list (Z * ChannelDefinitionWithID))
    (outctx : OutcomeContext) (aos : list AttributedObservation) : Result Outcome.t :=
  if bool_decide (len aos < int (int (2 * F p) + 1)) then
    Err "invariant violation: expected at least 2f+1 attributed observations"
  else if bool_decide (SeqNr outctx ≤ 1) then
    Ok {| Outcome.LifeCycleStage :=
            match PredecessorConfigDigest p with
            | None => LifeCycleStageProduction
            | Some _ => LifeCycleStageStaging
            end;
          Outcome.ObservationsTimestampNanoseconds := 0;
          Outcome.ChannelDefinitions := None;
          Outcome.ValidAfterSeconds := None;
          Outcome.StreamMedians := None |}
  else
    match json_Unmarshal decodeOutcome (PreviousOutcome outctx) with
    | None => Err "error unmarshalling previous outcome"
    | Some previousOutcome =>
        acc ← observeAll p noVotes aos;
        nextOutcome p rangeAdd previousOutcome acc
    end.

Definition Outcome (p : LLOPlugin)
    (rangeAdd : list (Z * ChannelDefinitionWithID) → list (Z * ChannelDefinitionWithID))
    (outctx : OutcomeContext) (aos : list AttributedObservation) : Result bytes :=
  outcome ← outcomeOf p rangeAdd outctx aos;
  Ok (encodeOutcome outcome).
End Outcome.

(** ** What a round counts

    The observations of a round that take part in the votes, written
    down independently of the accumulators: an observation is left out
    when it does not decode, or when it carries a retirement report that
    is checked and fails the check.  A report is checked only as long as
    none has been accepted. *)
Section Counted.
Context `{Imports}.

Definition checked (p : LLOPlugin) (attested : bytes) : option RetirementReport.t :=
  pcd ← PredecessorConfigDigest p;
  CheckAttestedRetirementReport p pcd attested.

Fixpoint countedObservations (p : LLOPlugin) (accepted : bool)
    (aos : list AttributedObservation) : list Observation.t :=
  match aos with
  | [] => []
  | ao :: aos =>
      match json_Unmarshal decodeObservation (ao_Observation ao) with
      | None => countedObservations p accepted aos
      | Some observation =>
          match Observation.AttestedPredecessorRetirement observation, accepted with
          | _ :: _, false =>
              match checked p (Observation.AttestedPredecessorRetirement observation) with
              | Some _ => observation :: countedObservations p true aos
              | None => countedObservations p false aos
              end
          | _, _ => observation :: countedObservations p accepted aos
          end
      end
  end.

(** The first retirement report of the round that passes the check. *)
Fixpoint acceptedReport (p : LLOPlugin) (aos : list AttributedObservation)
    : option RetirementReport.t :=
  match aos with
  | [] => None
  | ao :: aos =>
      match json_Unmarshal decodeObservation (ao_Observation ao) with
      | None => acceptedReport p aos
      | Some observation =>
          match Observation.AttestedPredecessorRetirement observation with
          | [] => acceptedReport p aos
          | attested =>
              match checked p attested with
              | Some r => Some r
              | None => acceptedReport p aos
              end
          end
      end
  end.

(** The values that the given observations mark valid for a stream, in
    the order of the observations. *)
Definition validValues (streamID : Z) (observations : list Observation.t) : list bigInt :=
  omap (λ observation,
          obsResult ← Observation.StreamValues observation !! streamID;
          if Valid obsResult then Some (Val obsResult) else None)
    observations.

(** The number of the given observations that vote to remove a channel. *)
Definition removeVotes (channelID : Z) (observations : list Observation.t) : Z :=
  len (filter (λ observation, channelID ∈ Observation.RemoveChannelIDs observation)
         observations).

(** The non-nil values of a slice are in ascending order. *)
Definition ascending (values : list bigInt) : Prop :=
  ∀ (i j : nat) (a b : Z),
    (i ≤ j)%nat → values !! i = Some (Some a) → values !! j = Some (Some b) → a ≤ b.
End Counted.

(** ** The vote to remove channels, as the specification words it *)

(** The [n] smallest elements of a set of ids. *)
Definition smallest (n : nat) (X : gset Z) : gset Z :=
  list_to_set (take n (merge_sort Z.le (elements X))).

(** The channel ids of the previous outcome's definitions or
    [ValidAfterSeconds] that the expected definitions lack. *)
Definition absentFromExpected (previousOutcome : Outcome.t)
    (expectedChannelDefs : gomap ChannelDefinition) : gset Z :=
  (dom (entries (Outcome.ChannelDefinitions previousOutcome))
   ∪ dom (entries (Outcome.ValidAfterSeconds previousOutcome)))
  ∖ dom (entries expectedChannelDefs).

(** The definitions that the expected definitions lack. *)
Definition definedButUnexpected (previousOutcome : Outcome.t)
    (expectedChannelDefs : gomap ChannelDefinition) : gset Z :=
  dom (entries (Outcome.ChannelDefinitions previousOutcome))
  ∖ dom (entries expectedChannelDefs).

(** ** Concrete rounds

    Stand-ins for the imported packages, so that rounds can be run: a
    wire format in which the one-byte message [[n]] decodes to the [n]-th
    entry of a table, and a digest that reads its input as a number, which
    separates inputs of equal length. *)

Definition tagged {A} (table : list A) (data : bytes) : option A :=
  match data with
  | [tag] => table !! N.to_nat (Byte.to_N tag)
  | _ => None
  end.

Definition numberOf (data : bytes) : Z :=
  foldl (λ n b, 256 * n + Z.of_N (Byte.to_N b)) 0 data.

Definition ethereumSelector : Z := 5009297550715157269.

Definition exampleImports (outcomes : list Outcome.t) (observations : list Observation.t)
    : Imports :=
  {| Sum256 := numberOf;
     ChainIdFromSelector selector :=
       if bool_decide (selector = ethereumSelector) then Some 1 else None;
     decodeOutcome := tagged outcomes;
     decodeObservation := tagged observations;
     encodeOutcome _ := [] |}.

Definition ethereum (streamIDs : list Z) : ChannelDefinition :=
  {| ReportFormat := "json"; ChainSelector := ethereumSelector; StreamIDs := streamIDs |}.

Definition valid (v : Z) : ObsResult := {| Val := Some v; Valid := true |}.

(** An observation without votes. *)
Definition observed (nanoseconds : Z) (values : gmap Z ObsResult) : Observation.t :=
  {| Observation.AttestedPredecessorRetirement := [];
     Observation.ShouldRetire := false;
     Observation.UnixTimestampNanoseconds := nanoseconds;
     Observation.RemoveChannelIDs := ∅;
     Observation.AddChannelDefinitions := ∅;
     Observation.StreamValues := values |}.

Definition voting (nanoseconds : Z) (attested : bytes) (remove : gset Z)
    (add : gmap Z ChannelDefinition) : Observation.t :=
  {| Observation.AttestedPredecessorRetirement := attested;
     Observation.ShouldRetire := false;
     Observation.UnixTimestampNanoseconds := nanoseconds;
     Observation.RemoveChannelIDs := remove;
     Observation.AddChannelDefinitions := add;
     Observation.StreamValues := ∅ |}.

Definition sentBy (tag : Byte.byte) : AttributedObservation :=
  {| ao_Observation := [tag]; ao_Observer := Z.of_N (Byte.to_N tag) |}.

(** Sequence number 2, with the previous outcome in slot 0 of the table. *)
Definition round2 : OutcomeContext := {| SeqNr := 2; PreviousOutcome := [Byte.x00] |}.

Definition noPredecessor (f : Z) : LLOPlugin :=
  {| PredecessorConfigDigest := None;
     ConfigDigest := [];
     CheckAttestedRetirementReport _ _ := None;
     F := f |}.

(** A successor instance whose cache accepts exactly the report [[x2a]],
    which hands over channel 5 with [ValidAfterSeconds] 1000. *)
Definition successor (f : Z) : LLOPlugin :=
  {| PredecessorConfigDigest := Some [Byte.x01];
     ConfigDigest := [Byte.x02];
     CheckAttestedRetirementReport _ attested :=
       match attested with
       | [Byte.x2a] => Some {| RetirementReport.ValidAfterSeconds := Some {[ 5 := 1000 ]} |}
       | _ => None
       end;
     F := f |}.

(** A production outcome at second 10 that reports channel 1 and still
    carries an entry for a channel 2 without definition. *)
Definition reporting : Outcome.t :=
  {| Outcome.LifeCycleStage := LifeCycleStageProduction;
     Outcome.ObservationsTimestampNanoseconds := 10000000000;
     Outcome.ChannelDefinitions := Some {[ 1 := ethereum [7] ]};
     Outcome.ValidAfterSeconds := Some {[ 1 := 5; 2 := 3 ]};
     Outcome.StreamMedians := Some {[ 7 := Some 20 ]} |}.

(** Three oracles observe stream 7 at second 20. *)
Definition quietRound : Imports :=
  exampleImports [reporting]
    [observed 20000000000 {[ 7 := valid 29 ]};
     observed 20000000001 {[ 7 := valid 30 ]};
     observed 20000000002 {[ 7 := valid 31 ]}].

Definition threeOracles : list AttributedObservation :=
  [sentBy Byte.x00; sentBy Byte.x01; sentBy Byte.x02].

(** The fifth scenario of the specification: time stamps 100, 200, 300
    and values 10, 20, 30 for stream 7. *)
Definition medianRound : Imports :=
  exampleImports [reporting]
    [observed 100 {[ 7 := valid 10 ]};
     observed 200 {[ 7 := valid 20 ]};
     observed 300 {[ 7 := valid 30 ]}].

(** Two oracles vote to add channel 1 over stream 7, two others to add
    channel 1 over stream 8. *)
Definition empty : Outcome.t :=
  {| Outcome.LifeCycleStage := LifeCycleStageProduction;
     Outcome.ObservationsTimestampNanoseconds := 10000000000;
     Outcome.ChannelDefinitions := Some ∅;
     Outcome.ValidAfterSeconds := Some ∅;
     Outcome.StreamMedians := Some ∅ |}.

Definition splitVote : Imports :=
  exampleImports [empty]
    [voting 20000000000 [] ∅ {[ 1 := ethereum [7] ]};
     voting 20000000000 [] ∅ {[ 1 := ethereum [7] ]};
     voting 20000000000 [] ∅ {[ 1 := ethereum [8] ]};
     voting 20000000000 [] ∅ {[ 1 := ethereum [8] ]}].

Definition fourOracles : list AttributedObservation :=
  [sentBy Byte.x00; sentBy Byte.x01; sentBy Byte.x02; sentBy Byte.x03].

(** A production outcome with the channels 1 to 500, and three votes to
    add channel 501. *)
Definition full : Outcome.t :=
  {| Outcome.LifeCycleStage := LifeCycleStageProduction;
     Outcome.ObservationsTimestampNanoseconds := 10000000000;
     Outcome.ChannelDefinitions :=
       Some (list_to_map ((λ i : nat, (Z.of_nat i, ethereum [7])) <$> seq 1 500));
     Outcome.ValidAfterSeconds := Some ∅;
     Outcome.StreamMedians := Some ∅ |}.

Definition oneMore : Imports :=
  exampleImports [full]
    [voting 20000000000 [] ∅ {[ 501 := ethereum [7] ]};
     voting 20000000000 [] ∅ {[ 501 := ethereum [7] ]};
     voting 20000000000 [] ∅ {[ 501 := ethereum [7] ]}].

(** A staging outcome with channel 5, and three observations that carry
    the retirement report of the predecessor: without other votes, and
    with a vote to remove channel 5. *)
Definition staging : Outcome.t :=
  {| Outcome.LifeCycleStage := LifeCycleStageStaging;
     Outcome.ObservationsTimestampNanoseconds := 2000000000000;
     Outcome.ChannelDefinitions := Some {[ 5 := ethereum [7] ]};
     Outcome.ValidAfterSeconds := Some {[ 5 := 1990 ]};
     Outcome.StreamMedians := Some {[ 7 := Some 20 ]} |}.

Definition handover : Imports :=
  exampleImports [staging]
    [voting 2010000000000 [Byte.x2a] ∅ ∅;
     voting 2010000000000 [Byte.x2a] ∅ ∅;
     voting 2010000000000 [Byte.x2a] ∅ ∅].

Definition handoverWithRemoval : Imports :=
  exampleImports [staging]
    [voting 2010000000000 [Byte.x2a] {[ 5 ]} ∅;
     voting 2010000000000 [Byte.x2a] {[ 5 ]} ∅;
     voting 2010000000000 [Byte.x2a] {[ 5 ]} ∅].

(** One oracle sends a retirement report that fails the check, [[x2b]],
    with a vote to retire; two others send none. *)
Definition badReport : Observation.t :=
  {| Observation.AttestedPredecessorRetirement := [Byte.x2b];
     Observation.ShouldRetire := true;
     Observation.UnixTimestampNanoseconds := 2010000000000;
     Observation.RemoveChannelIDs := {[ 5 ]};
     Observation.AddChannelDefinitions := ∅;
     Observation.StreamValues := {[ 7 := valid 30 ]} |}.

Definition forgedReport : Imports :=
  exampleImports [staging]
    [badReport;
     observed 2010000000000 {[ 7 := valid 30 ]};
     observed 2010000000000 {[ 7 := valid 31 ]}].

(** A previous outcome that defines the channels 10 to 14 and carries an
    entry for channel 1, with nothing expected. *)
Definition stale : Outcome.t :=
  {| Outcome.LifeCycleStage := LifeCycleStageProduction;
     Outcome.ObservationsTimestampNanoseconds := 10000000000;
     Outcome.ChannelDefinitions :=
       Some {[ 10 := ethereum [7]; 11 := ethereum [7]; 12 := ethereum [7];
               13 := ethereum [7]; 14 := ethereum [7] ]};
     Outcome.ValidAfterSeconds := Some {[ 1 := 3 ]};
     Outcome.StreamMedians := Some ∅ |}.

(** The outcomes of three of these rounds, written out. *)
Definition medianOutcome : Outcome.t :=
  {| Outcome.LifeCycleStage := LifeCycleStageProduction;
     Outcome.ObservationsTimestampNanoseconds := 200;
     Outcome.ChannelDefinitions := Some {[ 1 := ethereum [7] ]};
     Outcome.ValidAfterSeconds := Some {[ 1 := 5; 2 := 10 ]};
     Outcome.StreamMedians := Some {[ 7 := Some 20 ]} |}.

Definition quietOutcome : Outcome.t :=
  {| Outcome.LifeCycleStage := LifeCycleStageProduction;
     Outcome.ObservationsTimestampNanoseconds := 20000000001;
     Outcome.ChannelDefinitions := Some {[ 1 := ethereum [7] ]};
     Outcome.ValidAfterSeconds := Some {[ 1 := 5; 2 := 10 ]};
     Outcome.StreamMedians := Some {[ 7 := Some 30 ]} |}.

Definition handoverOutcome : Outcome.t :=
  {| Outcome.LifeCycleStage := LifeCycleStageProduction;
     Outcome.ObservationsTimestampNanoseconds := 2010000000000;
     Outcome.ChannelDefinitions := Some {[ 5 := ethereum [7] ]};
     Outcome.ValidAfterSeconds := Some {[ 5 := 1000 ]};
     Outcome.StreamMedians := Some ∅ |}.

Definition handoverWithRemovalOutcome : Outcome.t :=
  {| Outcome.LifeCycleStage := LifeCycleStageProduction;
     Outcome.ObservationsTimestampNanoseconds := 2010000000000;
     Outcome.ChannelDefinitions := Some ∅;
     Outcome.ValidAfterSeconds := Some ∅;
     Outcome.StreamMedians := Some ∅ |}.

(** ** Invariants of the loop over the observations *)

(** [acc'] is [acc] after the given observations were counted, as far as
    time stamps, stream values and votes to remove go. *)
Definition extends (acc acc' : Accumulators) (counted : list Observation.t) : Prop :=
  timestampsNanoseconds acc' =
    timestampsNanoseconds acc ++ (Observation.UnixTimestampNanoseconds <$> counted)
  ∧ (∀ id, default [] (streamObservations acc' !! id) =
           default [] (streamObservations acc !! id) ++ validValues id counted)
  ∧ (∀ id, streamObservations acc' !! id = None ↔
           streamObservations acc !! id = None ∧ validValues id counted = [])
  ∧ (∀ c, default 0 (removeChannelVotesByID acc' !! c) =
          default 0 (removeChannelVotesByID acc !! c) + removeVotes c counted).

(** Every slice of stream observations has an element, and none of its
    pointers is nil. *)
Definition sortable (acc : Accumulators) : Prop :=
  ∀ id observations, streamObservations acc !! id = Some observations →
    observations ≠ [] ∧ Forall is_Some observations.

(** ** The reports of a round *)

Module Report.
Record t : Type := {
  ConfigDigest : bytes;
  ChainSelector : Z;        (* uint64 *)
  SeqNr : Z;                (* uint64 *)
  ChannelID : Z;
  ValidAfterSeconds : Z;    (* uint32 *)
  ValidUntilSeconds : Z;    (* uint32 *)
  Values : list bigInt;
  Specimen : bool;
}.
End Report.

Record ReportCodec : Type := {
  Encode : Report.t → Result bytes;
  Decode : bytes → Result Report.t;
}.

(** commontypes.LLOReportInfo *)
Module LLOReportInfo.
Record t : Type := {
  LifeCycleStage : string;
  ReportFormat : string;
}.
End LLOReportInfo.

(** ocr3types.ReportWithInfo[commontypes.LLOReportInfo] *)
Module ReportWithInfo.
Record t : Type := {
  Report : bytes;
  Info : LLOReportInfo.t;
}.
End ReportWithInfo.

Definition ReportFormatJSON : string := "json".

(** [json.Marshal] of the retirement report.  It returns no error for a
    map of integers, so that [must] hands its output on. *)
Class Marshal : Type := {
  encodeRetirementReport : RetirementReport.t → bytes;
}.

(** The zero value, which reading an absent key of a map yields. *)
Definition zeroChannelDefinition : ChannelDefinition :=
  {| ReportFormat := ""; ChainSelector := 0; StreamIDs := [] |}.

Section Reports.
Context `{Imports} `{Marshal}.

(** The loop and the sort of [ReportableChannels], over the channel ids
    in the order [keys] in which [range] yields them.  ([IsReportable] has
    no panic.) *)
Definition reportableAmong (out : Outcome.t) (keys : list Z) : list Z :=
  let result :=
    foldl (λ result channelID,
             match IsReportable out channelID with
             | Ok _ => result ++ [channelID]
             | _ => result
             end) [] keys in
  merge_sort Z.le result.

Definition ReportableChannels (out : Outcome.t) : list Z :=
  reportableAmong out (map_to_list (entries (Outcome.ChannelDefinitions out))).*1.

(** [p.Codecs] is an argument of its own. *)
Definition encodeReport (Codecs : gmap string ReportCodec) (r : Report.t) (format : string)
    : Result bytes :=
  match Codecs !! format with
  | None => Err "codec missing for ReportFormat"
  | Some codec => Encode codec r
  end.

(** The report that the loop of [Reports] builds for a channel. *)
Definition channelReport (p : LLOPlugin) (outcome : Outcome.t)
    (observationsTimestampSeconds seqNr channelID : Z) : Report.t :=
  let channelDefinition :=
    default zeroChannelDefinition (index (Outcome.ChannelDefinitions outcome) channelID) in
  {| Report.ConfigDigest := ConfigDigest p;
     Report.ChainSelector := ChainSelector channelDefinition;
     Report.SeqNr := seqNr;
     Report.ChannelID := channelID;
     Report.ValidAfterSeconds :=
       default 0 (index (Outcome.ValidAfterSeconds outcome) channelID);
     Report.ValidUntilSeconds := observationsTimestampSeconds;
     Report.Values :=
       (λ streamID, default None (index (Outcome.StreamMedians outcome) streamID))
         <$> StreamIDs channelDefinition;
     Report.Specimen :=
       bool_decide (Outcome.LifeCycleStage outcome ≠ LifeCycleStageProduction) |}.

(** The loop over the reportable channels; the first error ends it. *)
Fixpoint reportChannels (p : LLOPlugin) (Codecs : gmap string ReportCodec)
    (outcome : Outcome.t) (observationsTimestampSeconds seqNr : Z)
    (rwis : list ReportWithInfo.t) (channelIDs : list Z) : Result (list ReportWithInfo.t) :=
  match channelIDs with
  | [] => Ok rwis
  | channelID :: channelIDs =>
      let channelDefinition :=
        default zeroChannelDefinition (index (Outcome.ChannelDefinitions outcome) channelID) in
      encoded ← encodeReport Codecs
                  (channelReport p outcome observationsTimestampSeconds seqNr channelID)
                  (ReportFormat channelDefinition);
      reportChannels p Codecs outcome observationsTimestampSeconds seqNr
        (rwis ++ [{| ReportWithInfo.Report := encoded;
                     ReportWithInfo.Info :=
                       {| LLOReportInfo.LifeCycleStage := Outcome.LifeCycleStage outcome;
                          LLOReportInfo.ReportFormat := ReportFormat channelDefinition |} |}])
        channelIDs
  end.

(** The special report of a retired instance, or nothing. *)
Definition retirementReports (outcome : Outcome.t) : list ReportWithInfo.t :=
  if bool_decide (Outcome.LifeCycleStage outcome = LifeCycleStageRetired) then
    [{| ReportWithInfo.Report :=
          encodeRetirementReport
            {| RetirementReport.ValidAfterSeconds := Outcome.ValidAfterSeconds outcome |};
        ReportWithInfo.Info :=
          {| LLOReportInfo.LifeCycleStage := Outcome.LifeCycleStage outcome;
             LLOReportInfo.ReportFormat := ReportFormatJSON |} |}]
  else [].

Definition Reports (p : LLOPlugin) (Codecs : gmap string ReportCodec) (seqNr : Z)
    (rawOutcome : bytes) : Result (list ReportWithInfo.t) :=
  if bool_decide (seqNr ≤ 1) then Ok []
  else
    match json_Unmarshal decodeOutcome rawOutcome with
    | None => Err "error unmarshalling outcome"
    | Some outcome =>
        match ObservationsTimestampSeconds outcome with
        | Err _ => Err "error getting observations timestamp"
        | Panic => Panic
        | Ok observationsTimestampSeconds =>
            reportChannels p Codecs outcome observationsTimestampSeconds seqNr
              (retirementReports outcome) (ReportableChannels outcome)
        end
    end.
End Reports.

(** ** Observation *)

(** What [Observation] reads besides the outcome context: the clock, the
    caches of the plugin and its data source. *)
Record Sources : Type := {
  time_Now_UnixNano : Z;
  (** PredecessorRetirementReportCache.AttestedRetirementReport *)
  AttestedRetirementReport : bytes → Result bytes;
  (** ShouldRetireCache.ShouldRetire *)
  ShouldRetire : Result bool;
  (** ChannelDefinitionCache.Definitions *)
  Definitions : gomap ChannelDefinition;
  (** DataSource.Observe *)
  Observe : gset Z → Result (gmap Z ObsResult);
}.

(** [fmt.Errorf] around the error of a call. *)
Definition wrapped {A} (msg : string) (r : Result A) : Result A :=
  match r with
  | Ok a => Ok a
  | Err _ => Err msg
  | Panic => Panic
  end.

Section Observation.
Context `{Imports}.

(** The set [streams] handed to the data source. *)
Definition observedStreams (channelDefinitions : gmap Z ChannelDefinition) : gset Z :=
  map_fold (λ _ channelDefinition streams,
              foldl (λ streams streamID, {[streamID]} ∪ streams) streams
                (StreamIDs channelDefinition))
    ∅ channelDefinitions.

(** The observation that [Observation] serialises for a sequence number
    above 1, from the previous outcome that it has decoded. *)
Definition observationOf (p : LLOPlugin) (src : Sources) (rangeValidAfter : list Z → list Z)
    (previousOutcome : Outcome.t) : Result Observation.t :=
  attestedRetirementReport ←
    match PredecessorConfigDigest p with
    | Some pcd =>
        if bool_decide (Outcome.LifeCycleStage previousOutcome = LifeCycleStageStaging)
        then wrapped "error fetching attested retirement report from cache"
               (AttestedRetirementReport src pcd)
        else Ok []
    | None => Ok []
    end;
  shouldRetire ← wrapped "error fetching shouldRetire from cache" (ShouldRetire src);
  let expectedChannelDefs := Definitions src in
  let removeChannelIDs :=
    Observation_removeChannelIDs rangeValidAfter previousOutcome expectedChannelDefs in
  let addChannelDefinitions :=
    Observation_addChannelDefinitions previousOutcome expectedChannelDefs in
  streamValues ←
    wrapped "DataSource.Observe error"
      (Observe src (observedStreams (entries (Outcome.ChannelDefinitions previousOutcome))));
  Ok {| Observation.AttestedPredecessorRetirement := attestedRetirementReport;
        Observation.ShouldRetire := shouldRetire;
        Observation.UnixTimestampNanoseconds := time_Now_UnixNano src;
        Observation.RemoveChannelIDs := removeChannelIDs;
        Observation.AddChannelDefinitions := addChannelDefinitions;
        Observation.StreamValues := streamValues |}.

End Observation.

(** The conditions that [ValidateObservation] puts on the observation
    it has decoded. *)
Definition wellFormedObservation (p : LLOPlugin) (observation : Observation.t) : Prop :=
  (PredecessorConfigDigest p = None →
     Observation.AttestedPredecessorRetirement observation = [])
  ∧ (size (Observation.AddChannelDefinitions observation) ≤ 5)%nat
  ∧ (size (Observation.RemoveChannelIDs observation) ≤ 5)%nat
  ∧ (size (Observation.StreamValues observation) ≤ 1000)%nat
  ∧ ∀ id obsResult,
      Observation.StreamValues observation !! id = Some obsResult →
      Valid obsResult = true → is_Some (Val obsResult).

(** ** Channel definitions as Go types them *)

(** The channel id and the stream ids are uint32 values, the chain
    selector is a uint64, and the two lengths that [MakeChannelHash] writes
    as uint32 are not truncated. *)
Definition inRange (cd : ChannelDefinitionWithID) : Prop :=
  0 ≤ ChannelID cd < 2 ^ 32
  ∧ Z.of_nat (String.length (ReportFormat (Definition_ cd))) < 2 ^ 32
  ∧ 0 ≤ ChainSelector (Definition_ cd) < 2 ^ 64
  ∧ len (StreamIDs (Definition_ cd)) < 2 ^ 32
  ∧ Forall (λ streamID, 0 ≤ streamID < 2 ^ 32) (StreamIDs (Definition_ cd)).

(** ** The votes of a round, counted over its observations *)

Section Tallies.
Context `{Imports}.

(** The number of the given observations that vote to retire. *)
Definition retireVotes (observations : list Observation.t) : Z :=
  len (filter (λ observation, Observation.ShouldRetire observation = true) observations).

(** The number of votes in the given observations to add a definition
    with the given hash. *)
Definition addVotes (hash : Z) (observations : list Observation.t) : Z :=
  foldr (λ observation votes,
           votes + len (filter (λ kv, MakeChannelHash (withID kv.1 kv.2) = hash)
                          (map_to_list (Observation.AddChannelDefinitions observation))))
    0 observations.

(** [acc'] is [acc] after the given observations were counted, as far
    as the votes to retire and to add channels go. *)
Definition tallies (acc acc' : Accumulators) (counted : list Observation.t) : Prop :=
  shouldRetireVotes acc' = shouldRetireVotes acc + retireVotes counted
  ∧ (∀ hash, default 0 (addChannelVotesByHash acc' !! hash) =
             default 0 (addChannelVotesByHash acc !! hash) + addVotes hash counted)
  ∧ (∀ hash defWithID, addChannelDefinitionsByHash acc' !! hash = Some defWithID →
       addChannelDefinitionsByHash acc !! hash = Some defWithID
       ∨ (MakeChannelHash defWithID = hash
          ∧ ∃ observation, observation ∈ counted
              ∧ Observation.AddChannelDefinitions observation !! ChannelID defWithID
                = Some (Definition_ defWithID))).



(** The channels whose [ValidAfterSeconds] a round starts from: those
    of the retirement report on which a staging instance is promoted, if the
    map of the report is not nil, and those of the previous outcome
    otherwise. *)
Definition inheritedChannels (p : LLOPlugin) (previousOutcome : Outcome.t)
    (aos : list AttributedObservation) : gset Z :=
  let handed :=
    if bool_decide (Outcome.LifeCycleStage previousOutcome = LifeCycleStageStaging)
    then report ← acceptedReport p aos; RetirementReport.ValidAfterSeconds report
    else None in
  match handed with
  | Some validAfterSeconds => dom validAfterSeconds
  | None => dom (entries (Outcome.ValidAfterSeconds previousOutcome))
  end.
End Tallies.

(** ** Concrete reports and observations *)

(** A wire format with the single outcome [o] in slot 0. *)
Definition sending (o : Outcome.t) : Imports := exampleImports [o] [].

Definition exampleMarshal : Marshal := {| encodeRetirementReport _ := [Byte.x52] |}.

(** A codec that writes the channel id of a report and nothing else. *)
Definition channelIdCodec : ReportCodec :=
  {| Encode r := Ok (bigEndian 4 (Report.ChannelID r));
     Decode _ := Err "not implemented" |}.

Definition jsonOnly : gmap string ReportCodec := {[ "json" := channelIdCodec ]}.

(** A production outcome at second 20 with two reportable channels. *)
Definition twoChannels : Outcome.t :=
  {| Outcome.LifeCycleStage := LifeCycleStageProduction;
     Outcome.ObservationsTimestampNanoseconds := 20000000000;
     Outcome.ChannelDefinitions := Some {[ 1 := ethereum [7]; 2 := ethereum [7; 8] ]};
     Outcome.ValidAfterSeconds := Some {[ 1 := 5; 2 := 10 ]};
     Outcome.StreamMedians := Some {[ 7 := Some 30; 8 := Some 40 ]} |}.

Definition twoReports : list ReportWithInfo.t :=
  [{| ReportWithInfo.Report := [Byte.x00; Byte.x00; Byte.x00; Byte.x01];
      ReportWithInfo.Info :=
        {| LLOReportInfo.LifeCycleStage := LifeCycleStageProduction;
           LLOReportInfo.ReportFormat := "json" |} |};
   {| ReportWithInfo.Report := [Byte.x00; Byte.x00; Byte.x00; Byte.x02];
      ReportWithInfo.Info :=
        {| LLOReportInfo.LifeCycleStage := LifeCycleStageProduction;
           LLOReportInfo.ReportFormat := "json" |} |}].

(** A retired outcome at second 20, and the outcome of a round of three
    observations at second 30 on it. *)
Definition retiredOutcome : Outcome.t :=
  {| Outcome.LifeCycleStage := LifeCycleStageRetired;
     Outcome.ObservationsTimestampNanoseconds := 20000000000;
     Outcome.ChannelDefinitions := Some {[ 1 := ethereum [7] ]};
     Outcome.ValidAfterSeconds := Some {[ 1 := 5 ]};
     Outcome.StreamMedians := Some {[ 7 := Some 30 ]} |}.

Definition retiredRound : Imports :=
  exampleImports [retiredOutcome]
    [voting 30000000000 [] {[ 1 ]} {[ 2 := ethereum [8] ]};
     voting 30000000000 [] {[ 1 ]} {[ 2 := ethereum [8] ]};
     voting 30000000000 [] {[ 1 ]} {[ 2 := ethereum [8] ]}].

Definition stillRetired : Outcome.t :=
  {| Outcome.LifeCycleStage := LifeCycleStageRetired;
     Outcome.ObservationsTimestampNanoseconds := 30000000000;
     Outcome.ChannelDefinitions := Some {[ 1 := ethereum [7] ]};
     Outcome.ValidAfterSeconds := Some {[ 1 := 20 ]};
     Outcome.StreamMedians := Some ∅ |}.

(** The outcome of the round [splitVote] when the votes are visited in
    the order of the map. *)
Definition addedOutcome : Outcome.t :=
  {| Outcome.LifeCycleStage := LifeCycleStageProduction;
     Outcome.ObservationsTimestampNanoseconds := 20000000000;
     Outcome.ChannelDefinitions := Some {[ 1 := ethereum [7] ]};
     Outcome.ValidAfterSeconds := Some {[ 1 := 20 ]};
     Outcome.StreamMedians := Some ∅ |}.

(** Three attributed observations without content. *)
Definition silent : list AttributedObservation :=
  [{| ao_Observation := []; ao_Observer := 0 |};
   {| ao_Observation := []; ao_Observer := 1 |};
   {| ao_Observation := []; ao_Observer := 2 |}].

(** An oracle at second 30 whose cache expects channel 1 only and whose
    data source yields one value for stream 7, and the observation that it
    builds on the outcome [reporting]. *)
Definition oracle : Sources :=
  {| time_Now_UnixNano := 30000000000;
     AttestedRetirementReport _ := Ok [];
     ShouldRetire := Ok false;
     Definitions := Some {[ 1 := ethereum [7] ]};
     Observe _ := Ok {[ 7 := valid 30 ]} |}.

Definition built : Observation.t :=
  {| Observation.AttestedPredecessorRetirement := [];
     Observation.ShouldRetire := false;
     Observation.UnixTimestampNanoseconds := 30000000000;
     Observation.RemoveChannelIDs := {[ 2 ]};
     Observation.AddChannelDefinitions := ∅;
     Observation.StreamValues := {[ 7 := valid 30 ]} |}.

(** Two definitions whose hashed bytes differ by leading zero bytes. *)
Definition selectorOne : ChannelDefinitionWithID :=
  {| Definition_ := {| ReportFormat := ""; ChainSelector := 1; StreamIDs := [] |};
     ChannelID := 0 |}.

Definition streamZero : ChannelDefinitionWithID :=
  {| Definition_ := {| ReportFormat := ""; ChainSelector := 0; StreamIDs := [0] |};
     ChannelID := 0 |}.

(** The quiet round in a wire format that also has its outcome, in
    slot 1. *)
Definition quietPipeline : Imports :=
  exampleImports [reporting; quietOutcome]
    [observed 20000000000 {[ 7 := valid 29 ]};
     observed 20000000001 {[ 7 := valid 30 ]};
     observed 20000000002 {[ 7 := valid 31 ]}].

(** * Properties *)

#[local] Arguments Nat.div : simpl never.

(** ** IsReportable *)

Section IsReportableFacts.
Context `{Imports}.

Lemma time_Unix_seconds_floor nsec :
  time_Unix_seconds nsec = nsec `div` 1000000000.
Proof.
  unfold time_Unix_seconds.
  repeat case_bool_decide; Z.to_euclidean_division_equations; lia.
Qed.

Lemma ObservationsTimestampSeconds_Ok out ts :
  ObservationsTimestampSeconds out = Ok ts ↔
    ts = Outcome.ObservationsTimestampNanoseconds out `div` 1000000000
    ∧ 0 ≤ ts < 2 ^ 32.
Proof.
  unfold ObservationsTimestampSeconds, uint32.
  rewrite time_Unix_seconds_floor.
  set (s := _ `div` 1000000000).
  case_bool_decide as Hs; split.
  - discriminate.
  - intros [-> ?]. rewrite Z.mod_small in Hs by lia. done.
  - intros [= <-]. rewrite Hs. split; [done|].
    rewrite <- Hs. apply Z.mod_pos_bound. lia.
  - intros [-> ?]. f_equal. apply Z.mod_small. lia.
Qed.

Lemma ObservationsTimestampSeconds_no_panic out :
  ObservationsTimestampSeconds out ≠ Panic.
Proof. unfold ObservationsTimestampSeconds. by case_bool_decide. Qed.

Lemma mediansPresent_Ok medians streamIDs :
  mediansPresent medians streamIDs = Ok tt ↔
    Forall (λ streamID, ∃ v : Z, index medians streamID = Some (Some v)) streamIDs.
Proof.
  induction streamIDs as [|streamID rest IH]; simpl.
  - split; [constructor | done].
  - rewrite Forall_cons, <- IH.
    destruct (index medians streamID) as [[v|]|]; naive_solver.
Qed.

Lemma mediansPresent_no_panic medians streamIDs :
  mediansPresent medians streamIDs ≠ Panic.
Proof.
  induction streamIDs as [|streamID rest IH]; simpl; [done|].
  by destruct (index medians streamID) as [[v|]|].
Qed.

Lemma IsReportable_no_panic out channelID : IsReportable out channelID ≠ Panic.
Proof.
  unfold IsReportable. case_bool_decide; [done|].
  pose proof (ObservationsTimestampSeconds_no_panic out).
  destruct (ObservationsTimestampSeconds out); [|done..].
  destruct (index _ channelID); [|done].
  destruct (ChainIdFromSelector _); [|done].
  pose proof (mediansPresent_no_panic (Outcome.StreamMedians out) (StreamIDs c)).
  destruct (mediansPresent _ _) as [[]| |]; simpl; [|done..].
  destruct (index _ channelID); [|done].
  by case_bool_decide.
Qed.

Lemma IsReportable_Ok (out : Outcome.t) (channelID : Z) :
  IsReportable out channelID = Ok tt →
    Outcome.LifeCycleStage out ≠ LifeCycleStageRetired
    ∧ 0 ≤ Outcome.ObservationsTimestampNanoseconds out `div` 1000000000 < 2 ^ 32
    ∧ ∃ channelDefinition,
        index (Outcome.ChannelDefinitions out) channelID = Some channelDefinition
        ∧ is_Some (ChainIdFromSelector (ChainSelector channelDefinition))
        ∧ Forall (λ streamID, ∃ median : Z,
                    index (Outcome.StreamMedians out) streamID = Some (Some median))
            (StreamIDs channelDefinition)
        ∧ ∃ validAfterSeconds,
            index (Outcome.ValidAfterSeconds out) channelID = Some validAfterSeconds
            ∧ validAfterSeconds
              < Outcome.ObservationsTimestampNanoseconds out `div` 1000000000.
Proof.
  unfold IsReportable. case_bool_decide as Hstage; [done|].
  destruct (ObservationsTimestampSeconds out) as [ts| |] eqn:Hts; [|done..].
  apply ObservationsTimestampSeconds_Ok in Hts as [-> Hfit].
  destruct (index (Outcome.ChannelDefinitions out) channelID) as [cd|]; [|done].
  destruct (ChainIdFromSelector (ChainSelector cd)) as [chain|] eqn:Hchain; [|done].
  destruct (mediansPresent _ _) as [[]| |] eqn:Hmed; simpl; [|done..].
  apply mediansPresent_Ok in Hmed.
  destruct (index (Outcome.ValidAfterSeconds out) channelID) as [vas|]; [|done].
  case_bool_decide; [done|]. intros _.
  split_and!; [done|lia|lia|]. exists cd. split_and!; eauto.
  exists vas. split; [done|lia].
Qed.

(** C9: [IsReportable] returns without error for a channel exactly when
    the stage is not retired, the observations time stamp in seconds fits a
    uint32, the channel has a definition, the chain selector of that
    definition resolves to a chain id, every stream of the definition has a
    non-nil median, and the channel has a [ValidAfterSeconds] entry that
    lies strictly before the observations time stamp in seconds. *)
Theorem IsReportable_iff (out : Outcome.t) (channelID : Z) :
  IsReportable out channelID = Ok tt ↔
    Outcome.LifeCycleStage out ≠ LifeCycleStageRetired
    ∧ 0 ≤ Outcome.ObservationsTimestampNanoseconds out `div` 1000000000 < 2 ^ 32
    ∧ ∃ channelDefinition,
        index (Outcome.ChannelDefinitions out) channelID = Some channelDefinition
        ∧ is_Some (ChainIdFromSelector (ChainSelector channelDefinition))
        ∧ Forall (λ streamID, ∃ median : Z,
                    index (Outcome.StreamMedians out) streamID = Some (Some median))
            (StreamIDs channelDefinition)
        ∧ ∃ validAfterSeconds,
            index (Outcome.ValidAfterSeconds out) channelID = Some validAfterSeconds
            ∧ validAfterSeconds
              < Outcome.ObservationsTimestampNanoseconds out `div` 1000000000.
Proof.
  unfold IsReportable.
  case_bool_decide as Hstage; [naive_solver|].
  destruct (ObservationsTimestampSeconds out) as [ts| |] eqn:Hts.
  2:{ split; [done|]. intros (_ & Hfit & _).
      assert (ObservationsTimestampSeconds out = Ok (Outcome.ObservationsTimestampNanoseconds out `div` 1000000000)) as Hok
        by (by apply ObservationsTimestampSeconds_Ok).
      congruence. }
  2:{ by apply ObservationsTimestampSeconds_no_panic in Hts. }
  apply ObservationsTimestampSeconds_Ok in Hts as [-> Hfit].
  destruct (index (Outcome.ChannelDefinitions out) channelID) as [cd|]; [|naive_solver].
  destruct (ChainIdFromSelector (ChainSelector cd)) as [chain|] eqn:Hchain.
  2:{ split; [done|]. intros (_ & _ & cd' & [= <-] & [? Hc] & _). congruence. }
  destruct (mediansPresent _ _) as [[]| |] eqn:Hmed; simpl.
  2,3: split; [done|]; intros (_ & _ & cd' & [= <-] & _ & Hall & _);
       apply mediansPresent_Ok in Hall; congruence.
  apply mediansPresent_Ok in Hmed.
  destruct (index (Outcome.ValidAfterSeconds out) channelID) as [vas|]; [|naive_solver].
  case_bool_decide; split; try done.
  - intros (_ & _ & cd' & _ & _ & _ & vas' & [= <-] & ?). lia.
  - intros _. split_and!; [done|lia|lia|]. exists cd. split_and!; eauto.
    exists vas. split; [done|lia].
Qed.
End IsReportableFacts.

(** ** Loops, sorting and the rank median *)

Lemma bind_Ok {A B} (r : Result A) (k : A → Result B) (b : B) :
  r ≫= k = Ok b ↔ ∃ a, r = Ok a ∧ k a = Ok b.
Proof. destruct r; simpl; naive_solver. Qed.

Section Loops.
Context {A B : Type}.
Implicit Types (body : Z → A → Result (option B)) (m : gmap Z A).

Lemma rangeInto_Ok body m out :
  rangeInto body m = Ok out →
  ∀ k, match m !! k with
       | Some a => body k a = Ok (out !! k)
       | None => out !! k = None
       end.
Proof.
  unfold rangeInto. revert out.
  apply (map_fold_weak_ind (λ r m, ∀ out, r = Ok out →
    ∀ k, match m !! k with
         | Some a => body k a = Ok (out !! k)
         | None => out !! k = None
         end)); clear m.
  - intros out [= <-] k. by rewrite !lookup_empty.
  - intros i x m r Hi IH out Hout k.
    apply bind_Ok in Hout as (out0 & -> & Hout).
    apply bind_Ok in Hout as (res & Hbody & [= <-]).
    specialize (IH _ eq_refl).
    destruct (decide (k = i)) as [->|Hne].
    + rewrite lookup_insert_eq. specialize (IH i). rewrite Hi in IH.
      destruct res; [by rewrite lookup_insert_eq|by rewrite IH].
    + rewrite lookup_insert_ne by done. specialize (IH k).
      destruct res; [by rewrite lookup_insert_ne|done].
Qed.

Lemma rangeInto_total body m :
  (∀ k a, m !! k = Some a → ∃ r, body k a = Ok r) →
  ∃ out, rangeInto body m = Ok out.
Proof.
  unfold rangeInto.
  apply (map_fold_weak_ind (λ r m,
    (∀ k a, m !! k = Some a → ∃ r, body k a = Ok r) → ∃ out, r = Ok out)); clear m.
  - eauto.
  - intros i x m r Hi IH Hbody.
    destruct IH as [out ->].
    { intros k a Hk. apply (Hbody k a). rewrite lookup_insert_ne; [done|].
      intros ->. congruence. }
    destruct (Hbody i x) as [res Hres]; [by rewrite lookup_insert_eq|].
    simpl. rewrite Hres. simpl. eauto.
Qed.
End Loops.

Lemma mapM_id_Some (l : list (option Z)) (values : list Z) :
  mapM id l = Some values ↔ l = Some <$> values.
Proof.
  rewrite mapM_Some. split.
  - induction 1 as [|x y l k Hxy _ IH]; simpl in *; [done|]. by rewrite Hxy, IH.
  - intros ->. induction values; simpl; constructor; done.
Qed.

Lemma ascending_fmap_Some (values : list Z) :
  StronglySorted Z.le values → ascending (Some <$> values).
Proof.
  intros Hsorted i j a b Hij Hi Hj.
  rewrite list_lookup_fmap in Hi, Hj.
  destruct (values !! i) as [a'|] eqn:Ha; simplify_eq/=.
  destruct (values !! j) as [b'|] eqn:Hb; simplify_eq/=.
  destruct (decide (i = j)) as [->|]; [simplify_eq; lia|].
  revert i j Hij n Ha Hb. induction Hsorted as [|x l _ IH Hall]; intros i j Hij Hne Ha Hb.
  - by rewrite lookup_nil in Ha.
  - destruct i as [|i], j as [|j]; simplify_eq/=; try lia.
    + rewrite Forall_forall in Hall. apply Hall. by eapply list_elem_of_lookup_2.
    + apply (IH i j); [lia|lia|done..].
Qed.

Lemma ascending_all_nil (l : list (option Z)) :
  Forall (λ x, x = None) l → ascending l.
Proof.
  intros Hall i j a b _ Hi _.
  apply list_elem_of_lookup_2 in Hi. rewrite Forall_forall in Hall.
  by apply Hall in Hi.
Qed.

Lemma sortBigInts_Ok observations sorted :
  sortBigInts observations = Ok sorted →
  sorted ≡ₚ observations ∧ ascending sorted.
Proof.
  unfold sortBigInts. destruct (mapM id observations) as [values|] eqn:Hvalues.
  - intros [= <-]. apply mapM_id_Some in Hvalues as ->. split.
    + by rewrite merge_sort_Permutation.
    + apply ascending_fmap_Some, StronglySorted_merge_sort; apply _.
  - destruct (forallb _ observations) eqn:Hnil; [|done]. intros [= <-]. split; [done|].
    apply ascending_all_nil. apply Is_true_true, forallb_True in Hnil.
    eapply Forall_impl; [done|]. intros x. by rewrite bool_decide_spec.
Qed.

Lemma sortBigInts_total observations :
  Forall is_Some observations → ∃ sorted, sortBigInts observations = Ok sorted.
Proof.
  intros Hall. unfold sortBigInts.
  destruct (mapM_is_Some_2 id observations) as [values ->]; [|eauto].
  eapply Forall_impl; [done|]. by intros x.
Qed.

Section Median.
Context `{Imports}.

Lemma streamMedian_Ok f observations r :
  streamMedian f observations = Ok r →
  (is_Some r ↔ f < len observations)
  ∧ ∃ sorted, sorted ≡ₚ observations ∧ ascending sorted
      ∧ (f < len observations → r = sorted !! (length observations / 2)%nat).
Proof.
  unfold streamMedian. intros Hr.
  apply bind_Ok in Hr as (sorted & Hsorted & Hr).
  apply sortBigInts_Ok in Hsorted as [Hperm Hasc].
  assert (length sorted = length observations) as Hlen by by rewrite Hperm.
  unfold len in *. rewrite Hlen in Hr.
  case_bool_decide as Hf.
  - injection Hr as <-. split.
    + split; [by intros []%is_Some_None|lia].
    + exists sorted. split_and!; [done..|lia].
  - destruct (sorted !! _) as [median|] eqn:Hmedian; [|done].
    injection Hr as <-. split.
    + split; [lia|eauto].
    + exists sorted. split_and!; [done..|]. by intros _.
Qed.

Lemma streamMedian_total f observations :
  observations ≠ [] →
  Forall is_Some observations → ∃ r, streamMedian f observations = Ok r.
Proof.
  intros Hne Hall. unfold streamMedian.
  destruct (sortBigInts_total _ Hall) as [sorted Hsorted].
  pose proof Hsorted as [Hperm _]%sortBigInts_Ok.
  rewrite Hsorted. simpl. case_bool_decide as Hf; [eauto|].
  destruct (sorted !! _) as [median|] eqn:Hmedian; [eauto|].
  apply lookup_ge_None in Hmedian.
  destruct (decide (sorted = [])) as [->|Hsome].
  - by apply Permutation_nil_l in Hperm.
  - exfalso. assert (0 < length sorted)%nat by (destruct sorted; simpl; [done|lia]).
    pose proof (Nat.div_lt (length sorted) 2). lia.
Qed.
End Median.

(** ** The accumulators and the counted observations *)

Section Counting.
Context `{Imports}.
Implicit Types (acc : Accumulators) (observation : Observation.t).

Lemma countObservation_streamObservations acc observation id :
  streamObservations (countObservation acc observation) !! id =
    match Observation.StreamValues observation !! id with
    | Some obsResult =>
        if Valid obsResult
        then Some (default [] (streamObservations acc !! id) ++ [Val obsResult])
        else streamObservations acc !! id
    | None => streamObservations acc !! id
    end.
Proof.
  unfold countObservation; simpl.
  generalize (streamObservations acc) as start. intros start.
  apply (map_fold_weak_ind (λ r m,
    r !! id = match m !! id with
              | Some obsResult =>
                  if Valid obsResult then Some (default [] (start !! id) ++ [Val obsResult])
                  else start !! id
              | None => start !! id
              end)).
  - by rewrite lookup_empty.
  - intros i x m r Hi IH. destruct (decide (id = i)) as [->|Hne].
    + rewrite lookup_insert_eq. rewrite Hi in IH.
      destruct (Valid x); [|done]. by rewrite lookup_insert_eq, IH.
    + rewrite (lookup_insert_ne m) by done.
      destruct (Valid x); [|done]. by rewrite lookup_insert_ne.
Qed.

Lemma countObservation_removeChannelVotesByID acc observation channelID :
  default 0 (removeChannelVotesByID (countObservation acc observation) !! channelID) =
    default 0 (removeChannelVotesByID acc !! channelID)
    + (if bool_decide (channelID ∈ Observation.RemoveChannelIDs observation) then 1 else 0).
Proof.
  unfold countObservation; simpl.
  generalize (removeChannelVotesByID acc) as start. intros start.
  generalize (Observation.RemoveChannelIDs observation) as ids. intros ids.
  pose (P := λ (r : gmap Z Z) (X : gset Z),
    default 0 (r !! channelID) =
      default 0 (start !! channelID) + (if bool_decide (channelID ∈ X) then 1 else 0)).
  apply (set_fold_ind_L P); unfold P; clear P.
  - rewrite bool_decide_eq_false_2 by set_solver. lia.
  - intros x X r Hx IH. unfold increment.
    destruct (decide (channelID = x)) as [->|Hne].
    + rewrite lookup_insert_eq. simpl. rewrite IH.
      rewrite (bool_decide_eq_false_2 (x ∈ X)) by done.
      rewrite bool_decide_eq_true_2 by set_solver. lia.
    + rewrite lookup_insert_ne by done. rewrite IH.
      f_equal. rewrite (bool_decide_ext (channelID ∈ {[x]} ∪ X) (channelID ∈ X)); [done|set_solver].
Qed.

Lemma extends_nil acc : extends acc acc [].
Proof.
  unfold extends, validValues, removeVotes, len; simpl.
  split_and!; intros; rewrite ?app_nil_r; try done; [naive_solver|lia].
Qed.

Lemma extends_count acc observation :
  extends acc (countObservation acc observation) [observation].
Proof.
  unfold extends. split_and!.
  - done.
  - intros id. rewrite countObservation_streamObservations.
    unfold validValues; simpl.
    destruct (Observation.StreamValues observation !! id) as [r|]; simpl.
    + destruct (Valid r); simpl; [done|by rewrite app_nil_r].
    + by rewrite app_nil_r.
  - intros id. rewrite countObservation_streamObservations.
    unfold validValues; simpl.
    destruct (Observation.StreamValues observation !! id) as [r|]; simpl.
    + destruct (Valid r); simpl; [|naive_solver]. split; [done|]. by intros [_ ?].
    + naive_solver.
  - intros c. rewrite countObservation_removeChannelVotesByID.
    unfold removeVotes, len. rewrite filter_cons, filter_nil.
    case_bool_decide; case_decide; simpl; try done; lia.
Qed.

Lemma extends_trans acc1 acc2 acc3 l1 l2 :
  extends acc1 acc2 l1 → extends acc2 acc3 l2 → extends acc1 acc3 (l1 ++ l2).
Proof.
  intros (Ht1 & Hs1 & Hn1 & Hr1) (Ht2 & Hs2 & Hn2 & Hr2). unfold extends. split_and!.
  - by rewrite Ht2, Ht1, fmap_app, (assoc_L (++)).
  - intros id. unfold validValues in *. by rewrite Hs2, Hs1, omap_app, (assoc_L (++)).
  - intros id. unfold validValues in *. rewrite Hn2, Hn1, omap_app.
    split; [intros [[? ->] ->]; done|].
    intros [? [-> ->]%app_eq_nil]. done.
  - intros c. rewrite Hr2, Hr1. unfold removeVotes, len.
    rewrite filter_app, length_app. lia.
Qed.

Lemma observeAll_counted p aos : ∀ acc acc',
  observeAll p acc aos = Ok acc' →
  extends acc acc'
    (countedObservations p (bool_decide (is_Some (validPredecessorRetirementReport acc))) aos)
  ∧ validPredecessorRetirementReport acc' =
      match validPredecessorRetirementReport acc with
      | Some r => Some r
      | None => acceptedReport p aos
      end.
Proof.
  induction aos as [|ao aos IH]; intros acc acc' Hloop; simpl in Hloop.
  { injection Hloop as <-. split; [apply extends_nil|]. simpl. by destruct (validPredecessorRetirementReport acc). }
  apply bind_Ok in Hloop as (acc1 & Hstep & Hloop).
  apply IH in Hloop as [Hext Hrep]. clear IH.
  unfold observe in Hstep. simpl.
  destruct (json_Unmarshal decodeObservation (ao_Observation ao)) as [observation|].
  2:{ injection Hstep as <-. done. }
  destruct (Observation.AttestedPredecessorRetirement observation) as [|b attested] eqn:Hatt.
  { injection Hstep as <-. simpl in *. split.
    - eapply (extends_trans _ _ _ [observation]); [apply extends_count|done].
    - done. }
  destruct (validPredecessorRetirementReport acc) as [r|] eqn:Hvalid.
  { injection Hstep as <-. simpl in *. rewrite ?Hvalid in *.
    rewrite ?bool_decide_eq_true_2 in * by eauto. split; [|done].
    eapply (extends_trans _ _ _ [observation]); [apply extends_count|done]. }
  rewrite ?bool_decide_eq_false_2 by by intros []%is_Some_None.
  unfold checked. destruct (PredecessorConfigDigest p) as [pcd|]; [|done]. simpl.
  destruct (CheckAttestedRetirementReport p pcd (b :: attested)) as [r|].
  - injection Hstep as <-. simpl in *.
    rewrite ?bool_decide_eq_true_2 in Hext by eauto. split; [|done].
    eapply (extends_trans _ _ _ [observation]); [|done].
    destruct (extends_count (acceptRetirementReport acc r) observation) as (?&?&?&?).
    split_and!; done.
  - injection Hstep as <-. rewrite ?Hvalid in *.
    rewrite ?bool_decide_eq_false_2 in Hext by by intros []%is_Some_None. done.
Qed.
End Counting.

(** ** The transition, stage by stage *)

Section Transition.
Context `{Imports}.

Lemma removeChannels_spec f votes defs c :
  (c ∈ (removeChannels f votes defs).1 ↔ outvoted f votes c = true)
  ∧ (removeChannels f votes defs).2 !! c =
      if outvoted f votes c then None else defs !! c.
Proof.
  unfold removeChannels.
  apply (map_fold_weak_ind (λ (r : list Z * gmap Z ChannelDefinition) m,
    (c ∈ r.1 ↔ outvoted f m c = true)
    ∧ r.2 !! c = if outvoted f m c then None else defs !! c)).
  - unfold outvoted. rewrite lookup_empty. simpl. split; [|done].
    split; [by intros ?%elem_of_nil|done].
  - intros i x m r Hi [IH1 IH2]. unfold outvoted in *.
    destruct (decide (c = i)) as [->|Hne].
    + rewrite lookup_insert_eq. rewrite Hi in IH1, IH2.
      case_bool_decide as Hx; simpl.
      * rewrite bool_decide_eq_false_2 by lia. done.
      * rewrite bool_decide_eq_true_2 by lia. rewrite lookup_delete_eq.
        split; [|done]. split; [done|]. intros _. apply elem_of_app. right. by left.
    + rewrite lookup_insert_ne by done.
      case_bool_decide as Hx; simpl; [done|].
      rewrite lookup_delete_ne by done. split; [|done].
      rewrite elem_of_app, list_elem_of_singleton. naive_solver.
Qed.

Lemma lookup_foldl_delete {V} (m : gmap Z V) (ks : list Z) (c : Z) :
  foldl (λ m k, delete k m) m ks !! c = if bool_decide (c ∈ ks) then None else m !! c.
Proof.
  revert m. induction ks as [|k ks IH]; intros m.
  - done.
  - cbn [foldl]. rewrite IH. destruct (decide (c = k)) as [->|Hne].
    + rewrite lookup_delete_eq.
      rewrite (bool_decide_eq_true_2 (k ∈ k :: ks)) by by left.
      by case_bool_decide.
    + rewrite lookup_delete_ne by done.
      rewrite (bool_decide_ext (c ∈ k :: ks) (c ∈ ks)); [done|].
      rewrite elem_of_cons. naive_solver.
Qed.

Lemma lookup_settleValidAfterSeconds vas defs ts removed c :
  settleValidAfterSeconds vas defs ts removed !! c =
    if bool_decide (c ∈ removed) then None
    else match vas !! c with
         | Some v => Some v
         | None => (λ _, ts) <$> defs !! c
         end.
Proof.
  unfold settleValidAfterSeconds. rewrite lookup_foldl_delete.
  case_bool_decide; [done|]. rewrite lookup_union, lookup_fmap.
  destruct (vas !! c), (defs !! c); done.
Qed.

(** What a successful transition returns, stage by stage. *)
Lemma nextOutcome_Ok p rangeAdd previousOutcome acc o :
  nextOutcome p rangeAdd previousOutcome acc = Ok o →
  ∃ nanoseconds validAfter seconds medians,
    timestampsNanoseconds acc ≠ []
    ∧ medianTimestamp (timestampsNanoseconds acc) = Ok nanoseconds
    ∧ match handedOver previousOutcome acc with
      | Some handed => validAfter = handed
      | None =>
          carriedOver
            (afterEdits previousOutcome
               (nextChannelDefinitions p rangeAdd previousOutcome acc).2) = Ok validAfter
      end
    ∧ seconds = nanoseconds `div` 1000000000
    ∧ 0 ≤ seconds < 2 ^ 32
    ∧ rangeInto (λ _, streamMedian (F p)) (streamObservations acc) = Ok medians
    ∧ o = {| Outcome.LifeCycleStage := nextLifeCycleStage p previousOutcome acc;
             Outcome.ObservationsTimestampNanoseconds := nanoseconds;
             Outcome.ChannelDefinitions :=
               Some (nextChannelDefinitions p rangeAdd previousOutcome acc).2;
             Outcome.ValidAfterSeconds :=
               Some (settleValidAfterSeconds validAfter
                       (nextChannelDefinitions p rangeAdd previousOutcome acc).2
                       seconds
                       (nextChannelDefinitions p rangeAdd previousOutcome acc).1);
             Outcome.StreamMedians := Some medians |}.
Proof.
  unfold nextOutcome. case_bool_decide as Hlen; [done|]. intros Hnext.
  apply bind_Ok in Hnext as (nanoseconds & Hnanos & Hnext).
  apply bind_Ok in Hnext as (validAfter & Hvalid & Hnext).
  destruct (ObservationsTimestampSeconds _) as [seconds| |] eqn:Hseconds; [|done..].
  apply ObservationsTimestampSeconds_Ok in Hseconds as [-> Hfit]. simpl in Hfit.
  apply bind_Ok in Hnext as (medians & Hmedians & [= <-]).
  exists nanoseconds, validAfter, (nanoseconds `div` 1000000000), medians.
  split_and!; try done.
  - intros Hnil. rewrite Hnil in Hlen. done.
  - destruct (handedOver previousOutcome acc); [by injection Hvalid|done].
  - lia.
  - lia.
Qed.

Lemma outcomeOf_Ok p rangeAdd outctx aos o :
  1 < SeqNr outctx →
  outcomeOf p rangeAdd outctx aos = Ok o →
  ∃ previousOutcome acc,
    json_Unmarshal decodeOutcome (PreviousOutcome outctx) = Some previousOutcome
    ∧ observeAll p noVotes aos = Ok acc
    ∧ nextOutcome p rangeAdd previousOutcome acc = Ok o.
Proof.
  intros Hseq. unfold outcomeOf. case_bool_decide; [done|].
  rewrite bool_decide_eq_false_2 by lia.
  destruct (json_Unmarshal _ _) as [previousOutcome|]; [|done].
  intros (acc & ? & ?)%bind_Ok. eauto.
Qed.

Lemma observeAll_noVotes p aos acc :
  observeAll p noVotes aos = Ok acc →
  validPredecessorRetirementReport acc = acceptedReport p aos
  ∧ timestampsNanoseconds acc =
      Observation.UnixTimestampNanoseconds <$> countedObservations p false aos
  ∧ (∀ id, streamObservations acc !! id = None ↔
           validValues id (countedObservations p false aos) = [])
  ∧ (∀ id, default [] (streamObservations acc !! id) =
           validValues id (countedObservations p false aos))
  ∧ (∀ c, default 0 (removeChannelVotesByID acc !! c) =
          removeVotes c (countedObservations p false aos)).
Proof.
  intros [(Ht & Hs & Hn & Hr) Hrep]%observeAll_counted. simpl in *.
  split_and!; try done.
  intros id. rewrite Hn, lookup_empty. naive_solver.
Qed.
End Transition.

(** ** Channel definitions and validity windows across a round *)

Section Defects.
Context `{Imports}.

Lemma addChannel_keeps f votes defs entry c cd :
  defs !! c = Some cd → addChannel f votes defs entry !! c = Some cd.
Proof.
  intros Hc. unfold addChannel. repeat case_bool_decide; try done.
  rewrite lookup_insert_ne; [done|]. intros Heq. rewrite Heq in *.
  match goal with Hn : ¬ is_Some _ |- _ => apply Hn end. eauto.
Qed.

Lemma foldl_addChannel_keeps f votes entries defs c cd :
  defs !! c = Some cd → foldl (addChannel f votes) defs entries !! c = Some cd.
Proof.
  revert defs. induction entries as [|entry entries IH]; intros defs Hc; simpl; [done|].
  by apply IH, addChannel_keeps.
Qed.

Lemma addChannel_size f votes defs entry :
  (size (addChannel f votes defs entry) ≤ size defs `max` 501)%nat.
Proof.
  unfold addChannel, MAX_OUTCOME_CHANNEL_DEFINITIONS_LENGTH.
  repeat case_bool_decide; try lia.
  rewrite map_size_insert_None; [lia|].
  by apply eq_None_not_Some.
Qed.

Lemma foldl_addChannel_size f votes entries defs :
  (size (foldl (addChannel f votes) defs entries) ≤ size defs `max` 501)%nat.
Proof.
  revert defs. induction entries as [|entry entries IH]; intros defs; simpl; [lia|].
  specialize (IH (addChannel f votes defs entry)).
  pose proof (addChannel_size f votes defs entry). lia.
Qed.

Lemma removeChannels_size f votes defs :
  (size (removeChannels f votes defs).2 ≤ size defs)%nat.
Proof.
  apply map_subseteq_size, map_subseteq_spec. intros c cd.
  destruct (removeChannels_spec f votes defs c) as [_ ->].
  by destruct (outvoted f votes c).
Qed.

(** The channel definitions of an outcome never exceed 501 entries,
    unless the previous outcome already had more. *)
Lemma channel_definitions_bound p rangeAdd previousOutcome acc o :
  nextOutcome p rangeAdd previousOutcome acc = Ok o →
  (size (entries (Outcome.ChannelDefinitions o))
   ≤ size (entries (Outcome.ChannelDefinitions previousOutcome)) `max` 501)%nat.
Proof.
  intros (? & ? & ? & ? & _ & _ & _ & _ & _ & _ & ->)%nextOutcome_Ok. simpl.
  unfold nextChannelDefinitions. simpl.
  set (votes := if bool_decide _ then ∅ else removeChannelVotesByID acc).
  pose proof (removeChannels_size (F p) votes
                (entries (Outcome.ChannelDefinitions previousOutcome))).
  etrans; [apply foldl_addChannel_size|]. lia.
Qed.

(** What a round without handover does with an entry of the previous
    [ValidAfterSeconds] that is not voted out. *)
Lemma carried_validAfterSeconds p rangeAdd previousOutcome acc o c v :
  nextOutcome p rangeAdd previousOutcome acc = Ok o →
  handedOver previousOutcome acc = None →
  index (Outcome.ValidAfterSeconds previousOutcome) c = Some v →
  c ∉ (nextChannelDefinitions p rangeAdd previousOutcome acc).1 →
  ∃ seconds,
    ObservationsTimestampSeconds previousOutcome = Ok seconds
    ∧ index (Outcome.ValidAfterSeconds o) c =
        Some match IsReportable
                     (afterEdits previousOutcome
                        (nextChannelDefinitions p rangeAdd previousOutcome acc).2) c with
             | Ok _ => v
             | _ => seconds
             end.
Proof.
  intros (? & validAfter & ? & ? & _ & _ & Hcarried & _ & _ & _ & ->)%nextOutcome_Ok
    Hnone Hv Hkept.
  rewrite Hnone in Hcarried. unfold carriedOver in Hcarried.
  set (edited := afterEdits _ _) in *.
  assert (ObservationsTimestampSeconds edited
          = ObservationsTimestampSeconds previousOutcome) as Hsame.
  { unfold edited, afterEdits. by destruct (Outcome.ChannelDefinitions previousOutcome). }
  assert (Outcome.ValidAfterSeconds edited = Outcome.ValidAfterSeconds previousOutcome)
    as Hvas.
  { unfold edited, afterEdits. by destruct (Outcome.ChannelDefinitions previousOutcome). }
  rewrite Hsame, Hvas in Hcarried.
  destruct (ObservationsTimestampSeconds previousOutcome) as [seconds| |]; [|done..].
  injection Hcarried as <-. exists seconds. split; [done|]. simpl.
  rewrite lookup_settleValidAfterSeconds.
  rewrite bool_decide_eq_false_2 by done.
  rewrite map_lookup_imap.
  destruct (Outcome.ValidAfterSeconds previousOutcome) as [m|]; [|done].
  simpl in *. rewrite Hv. done.
Qed.

Lemma IsReportable_afterEdits previousOutcome defs c cd :
  index (Outcome.ChannelDefinitions previousOutcome) c = Some cd →
  defs !! c = Some cd →
  IsReportable (afterEdits previousOutcome defs) c = IsReportable previousOutcome c.
Proof.
  intros Hprev Hdefs. unfold afterEdits.
  destruct (Outcome.ChannelDefinitions previousOutcome) as [m|] eqn:Hm; [|done].
  unfold IsReportable, ObservationsTimestampSeconds. simpl.
  rewrite Hm. simpl in *. by rewrite Hprev, Hdefs.
Qed.

(** In a round without handover, a channel that is reportable before
    and after keeps the [ValidAfterSeconds] it had, which lies before the
    previous observations time stamp. *)
Lemma reportable_channel_window p rangeAdd previousOutcome acc o c :
  nextOutcome p rangeAdd previousOutcome acc = Ok o →
  handedOver previousOutcome acc = None →
  IsReportable previousOutcome c = Ok tt →
  IsReportable o c = Ok tt →
  ∃ v seconds,
    index (Outcome.ValidAfterSeconds previousOutcome) c = Some v
    ∧ index (Outcome.ValidAfterSeconds o) c = Some v
    ∧ ObservationsTimestampSeconds previousOutcome = Ok seconds
    ∧ v < seconds.
Proof.
  intros Hnext Hnone Hbefore Hafter.
  pose proof Hbefore as (_ & Hfit & cd & Hcd & _ & _ & v & Hv & Hlt)%IsReportable_Ok.
  apply IsReportable_Ok in Hafter as (_ & _ & _ & _ & _ & _ & v' & Hv' & _).
  assert (c ∉ (nextChannelDefinitions p rangeAdd previousOutcome acc).1) as Hkept.
  { intros Hin. pose proof Hnext
      as (? & ? & ? & ? & _ & _ & _ & _ & _ & _ & ->)%nextOutcome_Ok.
    simpl in Hv'. rewrite lookup_settleValidAfterSeconds in Hv'.
    by rewrite bool_decide_eq_true_2 in Hv'. }
  destruct (carried_validAfterSeconds _ _ _ _ _ c v Hnext Hnone Hv Hkept)
    as (seconds & Hseconds & Hcarried).
  rewrite (IsReportable_afterEdits _ _ c cd), Hbefore in Hcarried; [|done|].
  - exists v, seconds. split_and!; try done.
    apply ObservationsTimestampSeconds_Ok in Hseconds as [-> _]. done.
  - unfold nextChannelDefinitions in *. simpl in *.
    apply foldl_addChannel_keeps.
    set (votes := if bool_decide _ then ∅ else removeChannelVotesByID acc) in *.
    destruct (removeChannels_spec (F p) votes
                (entries (Outcome.ChannelDefinitions previousOutcome)) c) as [Hin ->].
    destruct (outvoted (F p) votes c); [by destruct Hkept; apply Hin|].
    by destruct (Outcome.ChannelDefinitions previousOutcome).
Qed.
End Defects.

(** ** Stream medians and the handover *)

Section Claims.
Context `{Imports}.

(** C8: in an outcome for a sequence number above 1, a stream has a
    median exactly when more than [f] of the counted observations carry a
    valid value for it, and the median is then the element at index
    [len/2] of these values in ascending order ([f] is not negative). *)
Theorem stream_medians_rank p rangeAdd outctx aos o streamID :
  0 ≤ F p →
  1 < SeqNr outctx →
  outcomeOf p rangeAdd outctx aos = Ok o →
  let values := validValues streamID (countedObservations p false aos) in
  (is_Some (index (Outcome.StreamMedians o) streamID) ↔ F p < len values)
  ∧ (F p < len values →
     ∃ sorted, sorted ≡ₚ values ∧ ascending sorted
       ∧ index (Outcome.StreamMedians o) streamID = sorted !! (length values / 2)%nat).
Proof.
  intros Hf Hseq Hout values.
  apply outcomeOf_Ok in Hout as (previousOutcome & acc & _ & Hacc & Hnext); [|done].
  apply nextOutcome_Ok in Hnext
    as (nanoseconds & validAfter & seconds & medians & _ & _ & _ & _ & _ & Hmedians & ->).
  apply observeAll_noVotes in Hacc as (_ & _ & Hnone & Hvalues & _).
  specialize (Hnone streamID). specialize (Hvalues streamID). fold values in Hnone, Hvalues.
  apply rangeInto_Ok with (k := streamID) in Hmedians. simpl.
  destruct (streamObservations acc !! streamID) as [observations|] eqn:Hobs.
  - simpl in Hvalues. subst observations.
    apply streamMedian_Ok in Hmedians as [Hsome (sorted & Hperm & Hasc & Hrank)].
    split; [done|]. intros Hmore. exists sorted. split_and!; [done..|].
    by rewrite <- Hrank.
  - assert (values = []) as -> by by apply Hnone.
    rewrite Hmedians. unfold len. simpl. split.
    + split; [by intros []%is_Some_None|lia].
    + lia.
Qed.

(** C3, as amended: when a staging instance is promoted on an accepted
    retirement report, every entry of the report is taken over as it is,
    except the entries of channels that more than [f] counted observations
    vote to remove while the new stage is not retired: these have no entry
    in the outcome. *)
Theorem handover_keeps_report_entries p rangeAdd outctx aos previousOutcome report o c v :
  0 ≤ F p →
  1 < SeqNr outctx →
  json_Unmarshal decodeOutcome (PreviousOutcome outctx) = Some previousOutcome →
  Outcome.LifeCycleStage previousOutcome = LifeCycleStageStaging →
  acceptedReport p aos = Some report →
  index (RetirementReport.ValidAfterSeconds report) c = Some v →
  outcomeOf p rangeAdd outctx aos = Ok o →
  index (Outcome.ValidAfterSeconds o) c =
    if bool_decide (Outcome.LifeCycleStage o ≠ LifeCycleStageRetired
                    ∧ F p < removeVotes c (countedObservations p false aos))
    then None else Some v.
Proof.
  intros Hf Hseq Hprev Hstaging Hreport Hentry Hout.
  apply outcomeOf_Ok in Hout as (previousOutcome' & acc & Hprev' & Hacc & Hnext); [|done].
  assert (previousOutcome' = previousOutcome) as -> by congruence.
  apply nextOutcome_Ok in Hnext
    as (nanoseconds & validAfter & seconds & medians & _ & _ & Hvalid & _ & _ & _ & ->).
  apply observeAll_noVotes in Hacc as (Hrep & _ & _ & _ & Hvotes).
  specialize (Hvotes c). simpl.
  assert (handedOver previousOutcome acc = RetirementReport.ValidAfterSeconds report) as Hhand.
  { unfold handedOver, promoted. rewrite Hrep, Hreport.
    rewrite !bool_decide_eq_true_2 by eauto. done. }
  rewrite Hhand in Hvalid.
  destruct (RetirementReport.ValidAfterSeconds report) as [handed|]; [|done].
  simpl in Hentry. subst validAfter.
  rewrite lookup_settleValidAfterSeconds, Hentry.
  unfold nextChannelDefinitions. simpl.
  set (votes := if bool_decide _ then ∅ else removeChannelVotesByID acc).
  destruct (removeChannels_spec (F p) votes
              (entries (Outcome.ChannelDefinitions previousOutcome)) c) as [Hin _].
  erewrite bool_decide_ext; [done|]. rewrite Hin. subst votes. unfold outvoted.
  case_bool_decide as Hretired.
  - rewrite lookup_empty. naive_solver.
  - rewrite <- Hvotes.
    destruct (removeChannelVotesByID acc !! c) as [n|]; simpl.
    + rewrite bool_decide_eq_true. naive_solver.
    + split; [done|]. lia.
Qed.
End Claims.

(** ** Outcome does not panic on validated observations *)

Section Totality.
Context `{Imports}.

Lemma ValidateObservation_Ok p outctx ao observation :
  json_Unmarshal decodeObservation (ao_Observation ao) = Some observation →
  ValidateObservation p outctx ao = Ok tt →
  (PredecessorConfigDigest p = None →
     Observation.AttestedPredecessorRetirement observation = [])
  ∧ ∀ id obsResult, Observation.StreamValues observation !! id = Some obsResult →
      Valid obsResult = true → is_Some (Val obsResult).
Proof.
  intros Hdecode. unfold ValidateObservation.
  destruct (_ && _); [done|].
  assert (0 < len (ao_Observation ao)) as Hlen.
  { destruct (ao_Observation ao); [done|]. unfold len. simpl. lia. }
  rewrite (bool_decide_eq_true_2 (0 < len (ao_Observation ao))) by done.
  rewrite Hdecode. simpl.
  destruct (bool_decide (PredecessorConfigDigest p = None) && _) eqn:Hpcd; [done|].
  apply andb_false_iff in Hpcd. rewrite !bool_decide_eq_false in Hpcd.
  repeat (case_bool_decide; try done). intros _. split.
  - intros Hnone. destruct Hpcd as [Hpcd|Hpcd]; [done|].
    destruct (Observation.AttestedPredecessorRetirement observation); [done|].
    exfalso. apply Hpcd. unfold len. simpl. lia.
  - intros id obsResult Hid Hvalid.
    match goal with Hall : map_Forall _ _ |- _ =>
      pose proof (map_Forall_lookup_1 _ _ id obsResult Hall Hid) as Hnil end.
    simpl in Hnil. destruct (Val obsResult); [eauto|]. exfalso. by apply Hnil.
Qed.

Lemma countObservation_sortable acc observation :
  (∀ id obsResult, Observation.StreamValues observation !! id = Some obsResult →
     Valid obsResult = true → is_Some (Val obsResult)) →
  sortable acc → sortable (countObservation acc observation).
Proof.
  intros Hvalid Hacc id observations.
  rewrite countObservation_streamObservations.
  destruct (Observation.StreamValues observation !! id) as [obsResult|] eqn:Hid;
    [|apply Hacc].
  destruct (Valid obsResult) eqn:Hv; [|apply Hacc].
  intros [= <-]. split; [by destruct (default _ _)|].
  apply Forall_app. split; [|by repeat constructor; eauto].
  destruct (streamObservations acc !! id) as [l|] eqn:Hl; simpl; [|done].
  by apply (Hacc id).
Qed.

Lemma observeAll_total p outctx aos : ∀ acc,
  (∀ ao, ao ∈ aos →
     is_Some (json_Unmarshal decodeObservation (ao_Observation ao)) →
     ValidateObservation p outctx ao = Ok tt) →
  sortable acc →
  ∃ acc', observeAll p acc aos = Ok acc' ∧ sortable acc'.
Proof.
  induction aos as [|ao aos IH]; intros acc Hvalid Hacc; simpl; [eauto|].
  assert (∃ acc1, observe p acc ao = Ok acc1 ∧ sortable acc1) as (acc1 & -> & Hacc1).
  { unfold observe.
    destruct (json_Unmarshal _ _) as [observation|] eqn:Hdecode; [|eauto].
    destruct (ValidateObservation_Ok p outctx ao observation) as [Hpcd Hvalues];
      [done|apply Hvalid; [by left|eauto]|].
    destruct (Observation.AttestedPredecessorRetirement observation) as [|b attested].
    { eexists. split; [done|]. by apply countObservation_sortable. }
    destruct (validPredecessorRetirementReport acc).
    { eexists. split; [done|]. by apply countObservation_sortable. }
    destruct (PredecessorConfigDigest p) as [pcd|]; [|by specialize (Hpcd eq_refl)].
    destruct (CheckAttestedRetirementReport _ _ _); [|eauto].
    eexists. split; [done|]. by apply countObservation_sortable. }
  simpl. apply IH; [|done]. intros ao' Hin. apply Hvalid. by right.
Qed.

Lemma medianTimestamp_total timestamps :
  timestamps ≠ [] → ∃ t, medianTimestamp timestamps = Ok t.
Proof.
  intros Hne. unfold medianTimestamp.
  destruct (_ !! _) as [t|] eqn:Ht; [eauto|]. exfalso.
  apply lookup_ge_None in Ht.
  pose proof (merge_sort_Permutation Z.le timestamps) as Hperm.
  apply Permutation_length in Hperm.
  assert (0 < length timestamps)%nat by (destruct timestamps; simpl; [done|lia]).
  pose proof (Nat.div_lt (length (merge_sort Z.le timestamps)) 2). lia.
Qed.

Lemma carriedOver_no_panic previousOutcome : carriedOver previousOutcome ≠ Panic.
Proof.
  unfold carriedOver.
  pose proof (ObservationsTimestampSeconds_no_panic previousOutcome).
  by destruct (ObservationsTimestampSeconds previousOutcome).
Qed.

Lemma nextOutcome_no_panic p rangeAdd previousOutcome acc :
  sortable acc → nextOutcome p rangeAdd previousOutcome acc ≠ Panic.
Proof.
  intros Hacc. unfold nextOutcome. case_bool_decide as Hlen; [done|].
  destruct (medianTimestamp_total (timestampsNanoseconds acc)) as [t ->].
  { intros Hnil. by rewrite Hnil in Hlen. }
  simpl.
  assert (∀ r : Result (gmap Z Z), r ≠ Panic →
            ∀ k, (∀ v, k v ≠ Panic) → (r ≫= k : Result Outcome.t) ≠ Panic) as Hbind.
  { intros [v| |] ? k Hk; simpl; [apply Hk|done..]. }
  apply Hbind.
  { destruct (handedOver previousOutcome acc); [done|apply carriedOver_no_panic]. }
  intros validAfter.
  match goal with |- context [ObservationsTimestampSeconds ?o] =>
    pose proof (ObservationsTimestampSeconds_no_panic o);
    destruct (ObservationsTimestampSeconds o); [|done..] end.
  destruct (rangeInto_total (λ _, streamMedian (F p)) (streamObservations acc)) as [medians ->];
    [|done].
  intros id observations Hid. destruct (Hacc id observations Hid).
  by apply streamMedian_total.
Qed.

(** C10: [Outcome] does not panic when every attributed observation
    that decodes passes [ValidateObservation]: such an observation carries
    no retirement report unless a predecessor is configured, and none of its
    valid stream values is nil ([ValidateObservation_Ok]). *)
Theorem Outcome_never_panics p rangeAdd outctx aos :
  (∀ ao, ao ∈ aos →
     is_Some (json_Unmarshal decodeObservation (ao_Observation ao)) →
     ValidateObservation p outctx ao = Ok tt) →
  Outcome p rangeAdd outctx aos ≠ Panic.
Proof.
  intros Hvalid. unfold Outcome.
  assert (outcomeOf p rangeAdd outctx aos ≠ Panic) as Hout;
    [|by destruct (outcomeOf p rangeAdd outctx aos)].
  unfold outcomeOf. repeat (case_bool_decide; [done|]).
  destruct (json_Unmarshal decodeOutcome _) as [previousOutcome|]; [|done].
  destruct (observeAll_total p outctx aos noVotes) as (acc & -> & Hacc); [done| |].
  { intros id observations. simpl. by rewrite lookup_empty. }
  simpl. by apply nextOutcome_no_panic.
Qed.
End Totality.

(** ** A retirement report that fails its check *)

Section Dropped.
Context `{Imports}.

Lemma observeAll_app p aos1 aos2 acc :
  observeAll p acc (aos1 ++ aos2) =
    acc' ← observeAll p acc aos1; observeAll p acc' aos2.
Proof.
  revert acc. induction aos1 as [|ao aos1 IH]; intros acc; simpl; [done|].
  destruct (observe p acc ao) as [acc1| |]; simpl; [apply IH|done..].
Qed.

Lemma observe_failed_check p acc ao observation :
  json_Unmarshal decodeObservation (ao_Observation ao) = Some observation →
  Observation.AttestedPredecessorRetirement observation ≠ [] →
  validPredecessorRetirementReport acc = None →
  is_Some (PredecessorConfigDigest p) →
  checked p (Observation.AttestedPredecessorRetirement observation) = None →
  observe p acc ao = Ok acc.
Proof.
  intros Hdecode Hatt Hnone [pcd Hpcd] Hcheck. unfold observe, checked in *.
  rewrite Hdecode, Hnone, Hpcd in *. simpl in Hcheck.
  destruct (Observation.AttestedPredecessorRetirement observation); [done|].
  by rewrite Hcheck.
Qed.

(** C5, as amended: an observation whose retirement report is checked
    and fails the check is dropped as a whole: the accumulators of the round
    are those of the round without it.  (The report is checked when it is not
    empty and no report has been accepted before.) *)
Theorem failed_retirement_check_drops_observation
    p (before after : list AttributedObservation) ao observation acc :
  observeAll p noVotes before = Ok acc →
  validPredecessorRetirementReport acc = None →
  json_Unmarshal decodeObservation (ao_Observation ao) = Some observation →
  Observation.AttestedPredecessorRetirement observation ≠ [] →
  is_Some (PredecessorConfigDigest p) →
  checked p (Observation.AttestedPredecessorRetirement observation) = None →
  observeAll p noVotes (before ++ ao :: after) = observeAll p noVotes (before ++ after).
Proof.
  intros Hbefore Hnone Hdecode Hatt Hpcd Hcheck.
  rewrite !observeAll_app, Hbefore. simpl.
  by rewrite (observe_failed_check p acc ao observation).
Qed.
End Dropped.

(** ** The vote to remove channels *)

#[local] Instance byChannelID_trans : Transitive byChannelID.
Proof. unfold byChannelID. intros a b c. lia. Qed.
#[local] Instance byChannelID_total : Total byChannelID.
Proof. unfold byChannelID. intros a b. lia. Qed.

Lemma smallest_subseteq n X : smallest n X ⊆ X.
Proof.
  unfold smallest. intros x. rewrite elem_of_list_to_set.
  intros Hx. apply elem_of_sublist with (l2 := merge_sort Z.le (elements X)) in Hx;
    [|apply sublist_take].
  rewrite merge_sort_Permutation in Hx. by apply elem_of_elements in Hx.
Qed.

Lemma NoDup_sorted_elements (X : gset Z) : NoDup (merge_sort Z.le (elements X)).
Proof. rewrite merge_sort_Permutation. apply NoDup_elements. Qed.

Lemma size_smallest n X : size (smallest n X) = (n `min` size X)%nat.
Proof.
  unfold smallest. rewrite size_list_to_set.
  - rewrite length_take. f_equal.
    by rewrite merge_sort_Permutation.
  - eapply sublist_NoDup; [apply NoDup_sorted_elements|apply sublist_take].
Qed.

Lemma smallest_all n X : (size X ≤ n)%nat → smallest n X = X.
Proof.
  intros Hn. unfold smallest. rewrite take_ge.
  - apply set_eq. intros x.
    by rewrite elem_of_list_to_set, merge_sort_Permutation, elem_of_elements.
  - by rewrite merge_sort_Permutation.
Qed.

Section Votes.
Context `{Imports}.

Lemma index_None_dom {V} (m : option (gmap Z V)) k :
  index m k = None ↔ k ∉ dom (entries m).
Proof. destruct m as [m|]; simpl; [by rewrite not_elem_of_dom|set_solver]. Qed.

Lemma dom_subtractChannelDefinitions minuend subtrahend limit :
  0 ≤ limit →
  dom (subtractChannelDefinitions minuend subtrahend limit) =
    smallest (Z.to_nat limit) (dom (entries minuend) ∖ dom (entries subtrahend)).
Proof.
  intros Hlimit. unfold subtractChannelDefinitions.
  set (differenceList := _ <$> filter _ (map_to_list (entries minuend))).
  set (sorted := merge_sort byChannelID differenceList).
  assert ((if bool_decide (limit < len sorted) then take (Z.to_nat limit) sorted else sorted)
          = take (Z.to_nat limit) sorted) as ->.
  { case_bool_decide as Hlen; [done|]. rewrite take_ge; [done|]. unfold len in Hlen. lia. }
  rewrite dom_list_to_map_L. rewrite <- list_fmap_compose.
  unfold smallest. f_equal.
  change (fst ∘ _) with ChannelID.
  rewrite fmap_take. f_equal.
  apply (StronglySorted_unique Z.le).
  - apply (StronglySorted_fmap _ byChannelID Z.le); [by intros ???|].
    apply StronglySorted_merge_sort; apply _.
  - apply StronglySorted_merge_sort; apply _.
  - rewrite merge_sort_Permutation. unfold sorted. rewrite merge_sort_Permutation.
    unfold differenceList. rewrite <- list_fmap_compose.
    apply NoDup_Permutation.
    + eapply (sublist_NoDup _ ((map_to_list (entries minuend)).*1)).
      * apply NoDup_fst_map_to_list.
      * apply fmap_sublist, sublist_filter.
    + apply NoDup_elements.
    + intros k. rewrite elem_of_elements, elem_of_difference, elem_of_dom.
      rewrite list_elem_of_fmap. split.
      * intros ([k' d] & -> & [Hsub Hin]%list_elem_of_filter). simpl in *.
        apply elem_of_map_to_list in Hin. split; [eauto|].
        by apply index_None_dom.
      * intros [[d Hd] Hsub]. exists (k, d). split; [done|].
        apply list_elem_of_filter. split; [by apply index_None_dom|].
        by apply elem_of_map_to_list.
Qed.

Lemma voteRemoveValidAfter_spec expected keys : ∀ start,
  let votes := voteRemoveValidAfter expected start keys in
  start ⊆ votes
  ∧ (∀ k, k ∈ votes → k ∈ start ∨ (k ∈ keys ∧ index expected k = None))
  ∧ ((size start ≤ 5)%nat → (size votes ≤ 5)%nat)
  ∧ ((size votes < 5)%nat → ∀ k, k ∈ keys → index expected k = None → k ∈ votes).
Proof.
  induction keys as [|key keys IH]; intros start; simpl.
  { split_and!; [done|by left|done|]. by intros _ k ?%elem_of_nil. }
  unfold MAX_OBSERVATION_REMOVE_CHANNEL_IDS_LENGTH.
  case_bool_decide as Hfull.
  { split_and!; [done|by left|done|lia]. }
  set (start' := match index expected key with
                 | None => {[key]} ∪ start | Some _ => start end).
  destruct (IH start') as (Hsub & Hfrom & Hsize & Hall). clear IH.
  assert (start ⊆ start') as Hstart.
  { unfold start'. destruct (index expected key); set_solver. }
  assert (size start' ≤ 5)%nat as Hsize'.
  { unfold start'. destruct (index expected key); [lia|].
    pose proof (size_union_alt {[key]} start) as Hu.
    assert (size (start ∖ {[key]}) ≤ size start)%nat as Hd
      by (apply subseteq_size; set_solver).
    rewrite size_singleton in Hu. lia. }
  split_and!.
  - set_solver.
  - intros k [Hk|[Hk Hexp]]%Hfrom.
    + unfold start' in Hk. destruct (index expected key) eqn:Hkey; [by left|].
      apply elem_of_union in Hk as [->%elem_of_singleton|Hk]; [|by left].
      right. split; [by left|done].
    + right. split; [by right|done].
  - intros _. by apply Hsize.
  - intros Hsmall k [->|Hk]%elem_of_cons Hexp.
    + apply Hsub. unfold start'. rewrite Hexp. set_solver.
    + by apply Hall.
Qed.

(** C7, as amended: whatever the order in which the keys of the previous
    [ValidAfterSeconds] are visited, the ids voted for removal are among the
    ids of the previous definitions or [ValidAfterSeconds] that the expected
    definitions lack; there are at most 5 of them; when there are fewer than
    5, they are all such ids; and they include the 5 smallest ids of the
    previous definitions that the expected definitions lack. *)
Theorem removeChannelIDs_vote_bounded
    (rangeValidAfter : list Z → list Z) previousOutcome expectedChannelDefs :
  (∀ keys, rangeValidAfter keys ≡ₚ keys) →
  let votes :=
    Observation_removeChannelIDs rangeValidAfter previousOutcome expectedChannelDefs in
  votes ⊆ absentFromExpected previousOutcome expectedChannelDefs
  ∧ (size votes ≤ 5)%nat
  ∧ ((size votes < 5)%nat → votes = absentFromExpected previousOutcome expectedChannelDefs)
  ∧ smallest 5 (definedButUnexpected previousOutcome expectedChannelDefs) ⊆ votes.
Proof.
  intros Hrange votes. subst votes. unfold Observation_removeChannelIDs.
  rewrite dom_subtractChannelDefinitions by done.
  change (Z.to_nat MAX_OBSERVATION_REMOVE_CHANNEL_IDS_LENGTH) with 5%nat.
  fold (definedButUnexpected previousOutcome expectedChannelDefs).
  set (defined := definedButUnexpected previousOutcome expectedChannelDefs).
  set (keys := rangeValidAfter _).
  set (votes := voteRemoveValidAfter _ _ _).
  assert (∀ k, k ∈ keys ↔ k ∈ dom (entries (Outcome.ValidAfterSeconds previousOutcome)))
    as Hkeys.
  { intros k. unfold keys. rewrite Hrange, elem_of_dom, list_elem_of_fmap. split.
    - intros ([k' v] & -> & Hin%elem_of_map_to_list). eauto.
    - intros [v Hv]. exists (k, v). split; [done|]. by apply elem_of_map_to_list. }
  destruct (voteRemoveValidAfter_spec expectedChannelDefs keys (smallest 5 defined))
    as (Hsub & Hfrom & Hsize & Hall). fold votes in Hsub, Hfrom, Hsize, Hall.
  pose proof (smallest_subseteq 5 defined) as Hdefined.
  pose proof (size_smallest 5 defined) as Hsmallest.
  assert (votes ⊆ absentFromExpected previousOutcome expectedChannelDefs) as Hvotes.
  { intros k [Hk|[Hk Hexp]]%Hfrom.
    - apply Hdefined in Hk. unfold defined, definedButUnexpected, absentFromExpected in *.
      set_solver.
    - apply Hkeys in Hk. apply index_None_dom in Hexp.
      unfold absentFromExpected. set_solver. }
  split_and!; [done|apply Hsize; lia| |done].
  intros Hsmall. apply set_eq. intros k. split; [apply Hvotes|].
  unfold absentFromExpected. rewrite elem_of_difference, elem_of_union.
  intros [[Hk|Hk] Hexp].
  - apply Hsub. rewrite smallest_all.
    + unfold defined, definedButUnexpected. set_solver.
    + pose proof (subseteq_size _ _ Hsub). lia.
  - apply Hall; [done|by apply Hkeys|by apply index_None_dom].
Qed.
End Votes.

(** ** The concrete rounds *)

(** The round of three oracles on the reporting outcome. *)
Example round_quiet :
  @outcomeOf quietRound (noPredecessor 1) id round2 threeOracles = Ok quietOutcome.
Proof. vm_compute. reflexivity. Qed.

(** C1 at a concrete round.  Channel 1 is reportable under the previous
    outcome (second 10, [ValidAfterSeconds] 5) and channel 2 is not
    ([ValidAfterSeconds] 3, no definition).  The new outcome keeps 5 for
    channel 1 and moves channel 2 to 10: the two cases are swapped. *)
Example reportable_channel_keeps_window_start :
  @IsReportable quietRound reporting 1 = Ok tt
  ∧ @IsReportable quietRound reporting 2 ≠ Ok tt
  ∧ @ObservationsTimestampSeconds reporting = Ok 10
  ∧ index (Outcome.ValidAfterSeconds reporting) 1 = Some 5
  ∧ index (Outcome.ValidAfterSeconds reporting) 2 = Some 3
  ∧ @outcomeOf quietRound (noPredecessor 1) id round2 threeOracles = Ok quietOutcome
  ∧ index (Outcome.ValidAfterSeconds quietOutcome) 1 = Some 5
  ∧ index (Outcome.ValidAfterSeconds quietOutcome) 2 = Some 10.
Proof. split_and!; try (vm_compute; reflexivity). vm_compute. discriminate. Qed.

(** C2 at a concrete round.  Channel 1 is reportable in the previous
    outcome and in the new one, and its new [ValidAfterSeconds], 5, lies
    before the previous observations time stamp, second 10. *)
Example validity_windows_overlap :
  @outcomeOf quietRound (noPredecessor 1) id round2 threeOracles = Ok quietOutcome
  ∧ @IsReportable quietRound reporting 1 = Ok tt
  ∧ @IsReportable quietRound quietOutcome 1 = Ok tt
  ∧ ∃ validAfter seconds,
      index (Outcome.ValidAfterSeconds quietOutcome) 1 = Some validAfter
      ∧ @ObservationsTimestampSeconds reporting = Ok seconds
      ∧ validAfter < seconds.
Proof.
  split_and!; try (vm_compute; reflexivity).
  exists 5, 10. split_and!; [vm_compute; reflexivity..|lia].
Qed.

(** C4 at a concrete round.  Two definitions of channel 1 have two
    votes each, with [f = 1].  Visiting the votes in one order adds the
    definition over stream 7, in the reverse order the one over stream 8. *)
Example additions_depend_on_map_order :
  (o ← @outcomeOf splitVote (noPredecessor 1) id round2 fourOracles;
   Ok (index (Outcome.ChannelDefinitions o) 1)) = Ok (Some (ethereum [7]))
  ∧ (o ← @outcomeOf splitVote (noPredecessor 1) reverse round2 fourOracles;
     Ok (index (Outcome.ChannelDefinitions o) 1)) = Ok (Some (ethereum [8])).
Proof. split; vm_compute; reflexivity. Qed.

(** C6 at a concrete round.  The previous outcome has 500 channel
    definitions and three oracles vote, with [f = 1], to add channel 501:
    the outcome has 501 definitions. *)
Example channel_501_is_added :
  size (entries (Outcome.ChannelDefinitions full)) = 500%nat
  ∧ (o ← @outcomeOf oneMore (noPredecessor 1) id round2 threeOracles;
     Ok (size (entries (Outcome.ChannelDefinitions o)))) = Ok 501%nat.
Proof. split; vm_compute; reflexivity. Qed.

(** C3 as stated fails: three oracles send the retirement report with the
    entry 1000 for channel 5 and vote to remove channel 5; the instance is
    promoted and the outcome has no entry for channel 5. *)
Lemma handover_drops_removed_channel :
  ¬ (∀ previousOutcome report o c v,
       json_Unmarshal (@decodeOutcome handoverWithRemoval) (PreviousOutcome round2)
         = Some previousOutcome →
       Outcome.LifeCycleStage previousOutcome = LifeCycleStageStaging →
       @acceptedReport handoverWithRemoval (successor 1) threeOracles = Some report →
       index (RetirementReport.ValidAfterSeconds report) c = Some v →
       @outcomeOf handoverWithRemoval (successor 1) id round2 threeOracles = Ok o →
       index (Outcome.ValidAfterSeconds o) c = Some v).
Proof.
  intros Hclaim.
  specialize (Hclaim staging
                {| RetirementReport.ValidAfterSeconds := Some {[ 5 := 1000 ]} |}
                handoverWithRemovalOutcome 5 1000).
  discriminate Hclaim; vm_compute; reflexivity.
Qed.

(** C5 as stated fails: the observation with the report that fails the
    check leaves the accumulators as they are; its time stamp is not
    appended. *)
Lemma failed_check_counts_nothing :
  ¬ (∀ acc ao observation,
       json_Unmarshal (@decodeObservation forgedReport) (ao_Observation ao)
         = Some observation →
       Observation.AttestedPredecessorRetirement observation ≠ [] →
       validPredecessorRetirementReport acc = None →
       checked (successor 1) (Observation.AttestedPredecessorRetirement observation) = None →
       @observe forgedReport (successor 1) acc ao
         = Ok (@countObservation forgedReport acc observation)).
Proof.
  intros Hclaim.
  assert (@observe forgedReport (successor 1) noVotes (sentBy Byte.x00)
          = Ok (@countObservation forgedReport noVotes badReport)) as Hcounted.
  { apply Hclaim; [vm_compute; reflexivity|discriminate|reflexivity|vm_compute; reflexivity]. }
  apply (f_equal (λ r, match r with
                       | Ok acc => timestampsNanoseconds acc
                       | _ => []
                       end)) in Hcounted.
  vm_compute in Hcounted. discriminate Hcounted.
Qed.

(** C7 as stated fails: the previous outcome defines the channels 10 to
    14 and has a [ValidAfterSeconds] entry for channel 1, and nothing is
    expected.  The vote is for 10 to 14; the 5 smallest ids include 1. *)
Lemma removal_vote_prefers_definitions :
  ¬ (∀ rangeValidAfter : list Z → list Z,
       (∀ keys, rangeValidAfter keys ≡ₚ keys) →
       Observation_removeChannelIDs rangeValidAfter stale (Some ∅)
         = smallest 5 (absentFromExpected stale (Some ∅))).
Proof.
  intros Hclaim. specialize (Hclaim id (λ keys, reflexivity keys)).
  apply (f_equal (λ votes, bool_decide (1 ∈ votes))) in Hclaim.
  vm_compute in Hclaim. discriminate Hclaim.
Qed.

(** ** The general properties at the concrete rounds *)

(** The handover at a round without votes to remove: channel 5 starts
    at the 1000 of the retirement report. *)
Lemma handover_keeps_report_entries_witness :
  Outcome.LifeCycleStage staging = LifeCycleStageStaging
  ∧ @outcomeOf handover (successor 1) id round2 threeOracles = Ok handoverOutcome
  ∧ index (Outcome.ValidAfterSeconds handoverOutcome) 5 =
      if bool_decide (Outcome.LifeCycleStage handoverOutcome ≠ LifeCycleStageRetired
                      ∧ F (successor 1)
                        < removeVotes 5 (@countedObservations handover (successor 1) false
                                           threeOracles))
      then None else Some 1000.
Proof.
  split; [reflexivity|]. split; [vm_compute; reflexivity|].
  apply (@handover_keeps_report_entries handover (successor 1) id round2 threeOracles staging
           {| RetirementReport.ValidAfterSeconds := Some {[ 5 := 1000 ]} |}).
  - simpl. lia.
  - simpl. lia.
  - reflexivity.
  - reflexivity.
  - vm_compute. reflexivity.
  - vm_compute. reflexivity.
  - vm_compute. reflexivity.
Defined.

(** The round in which the first of three oracles sends a report that
    fails the check. *)
Lemma failed_retirement_check_drops_observation_witness :
  @checked (successor 1) [Byte.x2b] = None
  ∧ @observeAll forgedReport (successor 1) noVotes
      ([] ++ sentBy Byte.x00 :: [sentBy Byte.x01; sentBy Byte.x02])
    = @observeAll forgedReport (successor 1) noVotes
        ([] ++ [sentBy Byte.x01; sentBy Byte.x02]).
Proof.
  split; [reflexivity|].
  apply (@failed_retirement_check_drops_observation forgedReport (successor 1) []
           [sentBy Byte.x01; sentBy Byte.x02] (sentBy Byte.x00) badReport noVotes).
  - reflexivity.
  - reflexivity.
  - vm_compute. reflexivity.
  - simpl. discriminate.
  - simpl. eexists. reflexivity.
  - reflexivity.
Defined.

(** The vote for the channels 10 to 14, with the keys visited in the
    order of the map. *)
Lemma removeChannelIDs_vote_bounded_witness :
  let votes := Observation_removeChannelIDs id stale (Some ∅) in
  votes ⊆ absentFromExpected stale (Some ∅)
  ∧ (size votes ≤ 5)%nat
  ∧ ((size votes < 5)%nat → votes = absentFromExpected stale (Some ∅))
  ∧ smallest 5 (definedButUnexpected stale (Some ∅)) ⊆ votes.
Proof.
  apply (removeChannelIDs_vote_bounded id stale (Some ∅)).
  intros keys. reflexivity.
Defined.

(** The round with the values 10, 20 and 30 for stream 7 and [f = 1]:
    the median is 20. *)
Lemma stream_medians_rank_witness :
  @outcomeOf medianRound (noPredecessor 1) id round2 threeOracles = Ok medianOutcome
  ∧ (let values :=
       validValues 7 (@countedObservations medianRound (noPredecessor 1) false threeOracles) in
     (is_Some (index (Outcome.StreamMedians medianOutcome) 7) ↔ F (noPredecessor 1) < len values)
     ∧ (F (noPredecessor 1) < len values →
        ∃ sorted, sorted ≡ₚ values ∧ ascending sorted
          ∧ index (Outcome.StreamMedians medianOutcome) 7 = sorted !! (length values / 2)%nat)).
Proof.
  split; [vm_compute; reflexivity|].
  apply (@stream_medians_rank medianRound (noPredecessor 1) id round2 threeOracles
           medianOutcome 7).
  - simpl. lia.
  - simpl. lia.
  - vm_compute. reflexivity.
Defined.

(** A round of three observations that pass the validation. *)
Lemma Outcome_never_panics_witness :
  @Outcome quietRound (noPredecessor 1) id round2 threeOracles ≠ Panic.
Proof.
  apply (@Outcome_never_panics quietRound (noPredecessor 1) id round2 threeOracles).
  intros ao Hin _.
  repeat (apply elem_of_cons in Hin as [->|Hin]; [vm_compute; reflexivity|]).
  by apply elem_of_nil in Hin.
Defined.

(** * Further properties *)

(** ** The time stamp in seconds *)

Section Seconds.
Context `{Imports}.

(** X1: [ObservationsTimestampSeconds] returns the time stamp divided by
    10^9 and rounded down, when that number fits a uint32, and an error
    otherwise; a negative time stamp is such an error. *)
Theorem ObservationsTimestampSeconds_floor (out : Outcome.t) :
  ObservationsTimestampSeconds out =
    let seconds := Outcome.ObservationsTimestampNanoseconds out `div` 1000000000 in
    if bool_decide (0 ≤ seconds < 2 ^ 32) then Ok seconds
    else Err "timestamp doesn't fit into uint32".
Proof.
  simpl. case_bool_decide as Hfit.
  - by apply ObservationsTimestampSeconds_Ok.
  - unfold ObservationsTimestampSeconds, uint32.
    rewrite time_Unix_seconds_floor.
    case_bool_decide as Hmod; [done|]. exfalso. apply Hfit.
    rewrite <- Hmod.
    apply Z.mod_pos_bound. lia.
Qed.
End Seconds.

(** ** The reportable channels *)

#[local] Instance Result_unit_Ok_dec (r : Result unit) : Decision (r = Ok tt).
Proof. destruct r as [[]| |]; [by left|by right..]. Defined.

Lemma StronglySorted_le_lt (l : list Z) :
  StronglySorted Z.le l → NoDup l → StronglySorted Z.lt l.
Proof.
  induction 1 as [|x l Hsorted IH Hall]; intros Hdup; [constructor|].
  apply NoDup_cons in Hdup as [Hx Hdup]. constructor; [by apply IH|].
  rewrite Forall_forall in Hall |- *. intros y Hy.
  specialize (Hall y Hy). assert (x ≠ y) by (by intros ->). lia.
Qed.

Section Reportable.
Context `{Imports}.

Lemma reportable_loop out keys : ∀ result,
  foldl (λ result channelID,
           match IsReportable out channelID with
           | Ok _ => result ++ [channelID]
           | _ => result
           end) result keys
  = result ++ filter (λ channelID, IsReportable out channelID = Ok tt) keys.
Proof.
  induction keys as [|channelID keys IH]; intros result; simpl.
  - by rewrite app_nil_r.
  - rewrite IH, filter_cons.
    destruct (IsReportable out channelID) as [[]| |]; case_decide; try done.
    by rewrite <- (assoc_L (++)).
Qed.

Lemma reportableAmong_eq out keys :
  reportableAmong out keys =
    merge_sort Z.le (filter (λ channelID, IsReportable out channelID = Ok tt) keys).
Proof. unfold reportableAmong. by rewrite reportable_loop. Qed.

Lemma elem_of_keys {V} (m : gmap Z V) c : c ∈ (map_to_list m).*1 ↔ is_Some (m !! c).
Proof.
  rewrite list_elem_of_fmap. split.
  - intros ([c' v] & -> & Hin%elem_of_map_to_list). eauto.
  - intros [v Hv]. exists (c, v). split; [done|]. by apply elem_of_map_to_list.
Qed.

Lemma elem_of_ReportableChannels out c :
  c ∈ ReportableChannels out ↔ IsReportable out c = Ok tt.
Proof.
  unfold ReportableChannels. rewrite reportableAmong_eq, merge_sort_Permutation.
  rewrite list_elem_of_filter, elem_of_keys. split; [by intros []|].
  intros Hok. split; [done|].
  apply IsReportable_Ok in Hok as (_ & _ & cd & Hcd & _).
  destruct (Outcome.ChannelDefinitions out); simpl in *; [eauto|done].
Qed.

(** X2: [ReportableChannels] lists exactly the channels for which
    [IsReportable] returns no error, each once and in ascending order. *)
Theorem ReportableChannels_spec (out : Outcome.t) :
  StronglySorted Z.lt (ReportableChannels out)
  ∧ ∀ channelID, channelID ∈ ReportableChannels out ↔ IsReportable out channelID = Ok tt.
Proof.
  split; [|apply elem_of_ReportableChannels].
  unfold ReportableChannels. rewrite reportableAmong_eq.
  apply StronglySorted_le_lt.
  - apply StronglySorted_merge_sort; apply _.
  - rewrite merge_sort_Permutation. apply NoDup_filter, NoDup_fst_map_to_list.
Qed.

(** X3: the list that [ReportableChannels] returns does not depend on
    the order in which [range] yields the channel definitions. *)
Theorem ReportableChannels_any_order (out : Outcome.t) (keys : list Z) :
  keys ≡ₚ (map_to_list (entries (Outcome.ChannelDefinitions out))).*1 →
  reportableAmong out keys = ReportableChannels out.
Proof.
  intros Hkeys. unfold ReportableChannels. rewrite !reportableAmong_eq.
  apply (StronglySorted_unique Z.le).
  - apply StronglySorted_merge_sort; apply _.
  - apply StronglySorted_merge_sort; apply _.
  - by rewrite !merge_sort_Permutation, Hkeys.
Qed.
End Reportable.

(** ** The reports *)

Lemma Forall2_impl_elem {A B} (P Q : A → B → Prop) (l : list A) (k : list B) :
  Forall2 P l k → (∀ x y, x ∈ l → P x y → Q x y) → Forall2 Q l k.
Proof.
  induction 1 as [|x y l k HP _ IH]; intros Himpl; constructor.
  - apply Himpl; [by left|done].
  - apply IH. intros x' y' Hin. apply Himpl. by right.
Qed.

Section ReportsFacts.
Context `{Imports} `{Marshal}.

Lemma reportChannels_Ok p Codecs outcome seconds seqNr channelIDs : ∀ rwis rwis',
  reportChannels p Codecs outcome seconds seqNr rwis channelIDs = Ok rwis' →
  ∃ encoded,
    rwis' = rwis ++ encoded
    ∧ Forall2 (λ channelID rwi,
        let channelDefinition :=
          default zeroChannelDefinition
            (index (Outcome.ChannelDefinitions outcome) channelID) in
        encodeReport Codecs (channelReport p outcome seconds seqNr channelID)
          (ReportFormat channelDefinition) = Ok (ReportWithInfo.Report rwi)
        ∧ ReportWithInfo.Info rwi =
            {| LLOReportInfo.LifeCycleStage := Outcome.LifeCycleStage outcome;
               LLOReportInfo.ReportFormat := ReportFormat channelDefinition |})
      channelIDs encoded.
Proof.
  induction channelIDs as [|channelID channelIDs IH]; intros rwis rwis' Hloop; simpl in Hloop.
  - injection Hloop as <-. exists []. by rewrite app_nil_r.
  - apply bind_Ok in Hloop as (encoded & Hencoded & Hloop).
    apply IH in Hloop as (rest & -> & Hrest).
    eexists (_ :: rest). rewrite <- (assoc_L (++)). split; [done|].
    constructor; [|done]. done.
Qed.

Lemma reportChannels_total p Codecs outcome seconds seqNr channelIDs : ∀ rwis,
  (∀ channelID, channelID ∈ channelIDs →
     ∃ encoded,
       encodeReport Codecs (channelReport p outcome seconds seqNr channelID)
         (ReportFormat (default zeroChannelDefinition
                          (index (Outcome.ChannelDefinitions outcome) channelID)))
       = Ok encoded) →
  ∃ rwis', reportChannels p Codecs outcome seconds seqNr rwis channelIDs = Ok rwis'.
Proof.
  induction channelIDs as [|channelID channelIDs IH]; intros rwis Hall; simpl; [eauto|].
  destruct (Hall channelID) as [encoded ->]; [by left|]. simpl.
  apply IH. intros c Hc. apply Hall. by right.
Qed.

Lemma reportChannels_failure p Codecs outcome seconds seqNr channelIDs : ∀ rwis rwis',
  reportChannels p Codecs outcome seconds seqNr rwis channelIDs = Ok rwis' →
  ∀ channelID, channelID ∈ channelIDs →
    ∃ encoded,
      encodeReport Codecs (channelReport p outcome seconds seqNr channelID)
        (ReportFormat (default zeroChannelDefinition
                         (index (Outcome.ChannelDefinitions outcome) channelID)))
      = Ok encoded.
Proof.
  induction channelIDs as [|c channelIDs IH]; intros rwis rwis' Hloop channelID Hin.
  - by apply elem_of_nil in Hin.
  - simpl in Hloop. apply bind_Ok in Hloop as (encoded & Hencoded & Hloop).
    apply elem_of_cons in Hin as [->|Hin]; [eauto|]. by eapply IH.
Qed.

Lemma Reports_unfold p Codecs seqNr rawOutcome outcome :
  1 < seqNr →
  json_Unmarshal decodeOutcome rawOutcome = Some outcome →
  Reports p Codecs seqNr rawOutcome =
    match ObservationsTimestampSeconds outcome with
    | Err _ => Err "error getting observations timestamp"
    | Panic => Panic
    | Ok observationsTimestampSeconds =>
        reportChannels p Codecs outcome observationsTimestampSeconds seqNr
          (retirementReports outcome) (ReportableChannels outcome)
    end.
Proof.
  intros Hseq Hdecode. unfold Reports.
  rewrite bool_decide_eq_false_2 by lia. by rewrite Hdecode.
Qed.

(** X4: for a sequence number above 1, a retired outcome whose time
    stamp fits yields exactly one report, the retirement report with the
    outcome's [ValidAfterSeconds], in the JSON format; no channel is
    reported. *)
Theorem Reports_of_retired_outcome p Codecs seqNr rawOutcome outcome seconds :
  1 < seqNr →
  json_Unmarshal decodeOutcome rawOutcome = Some outcome →
  Outcome.LifeCycleStage outcome = LifeCycleStageRetired →
  ObservationsTimestampSeconds outcome = Ok seconds →
  Reports p Codecs seqNr rawOutcome =
    Ok [{| ReportWithInfo.Report :=
             encodeRetirementReport
               {| RetirementReport.ValidAfterSeconds := Outcome.ValidAfterSeconds outcome |};
           ReportWithInfo.Info :=
             {| LLOReportInfo.LifeCycleStage := LifeCycleStageRetired;
                LLOReportInfo.ReportFormat := "json" |} |}].
Proof.
  intros Hseq Hdecode Hretired Hseconds.
  rewrite (Reports_unfold _ _ _ _ outcome), Hseconds by done.
  assert (ReportableChannels outcome = []) as ->.
  { apply elem_of_nil_inv. intros c Hc%elem_of_ReportableChannels.
    by apply IsReportable_Ok in Hc as [Hstage _]. }
  simpl. unfold retirementReports.
  rewrite bool_decide_eq_true_2 by done. by rewrite Hretired.
Qed.

(** X5: for a sequence number above 1, the reports that [Reports]
    returns are the retirement report, if the outcome is retired, followed by
    one report for each reportable channel in ascending order of the channel
    ids.  The report of a channel lies in the window from the channel's
    [ValidAfterSeconds] to the observations time stamp, which is not empty;
    it carries the median of each stream of the channel, none of them nil, in
    the order of the definition; it is a specimen unless the stage is
    production; and it is encoded by the codec of the channel's format. *)
Theorem Reports_channel_reports p Codecs seqNr rawOutcome outcome rwis :
  1 < seqNr →
  json_Unmarshal decodeOutcome rawOutcome = Some outcome →
  Reports p Codecs seqNr rawOutcome = Ok rwis →
  ∃ encoded,
    rwis = retirementReports outcome ++ encoded
    ∧ Forall2 (λ channelID rwi,
        ∃ channelDefinition validAfterSeconds validUntilSeconds values,
          index (Outcome.ChannelDefinitions outcome) channelID = Some channelDefinition
          ∧ index (Outcome.ValidAfterSeconds outcome) channelID = Some validAfterSeconds
          ∧ ObservationsTimestampSeconds outcome = Ok validUntilSeconds
          ∧ validAfterSeconds < validUntilSeconds
          ∧ Forall2 (λ streamID value,
                       index (Outcome.StreamMedians outcome) streamID = Some (Some value))
              (StreamIDs channelDefinition) values
          ∧ encodeReport Codecs
              {| Report.ConfigDigest := ConfigDigest p;
                 Report.ChainSelector := ChainSelector channelDefinition;
                 Report.SeqNr := seqNr;
                 Report.ChannelID := channelID;
                 Report.ValidAfterSeconds := validAfterSeconds;
                 Report.ValidUntilSeconds := validUntilSeconds;
                 Report.Values := Some <$> values;
                 Report.Specimen :=
                   bool_decide (Outcome.LifeCycleStage outcome ≠ LifeCycleStageProduction) |}
              (ReportFormat channelDefinition)
            = Ok (ReportWithInfo.Report rwi)
          ∧ ReportWithInfo.Info rwi =
              {| LLOReportInfo.LifeCycleStage := Outcome.LifeCycleStage outcome;
                 LLOReportInfo.ReportFormat := ReportFormat channelDefinition |})
      (ReportableChannels outcome) encoded.
Proof.
  intros Hseq Hdecode Hreports.
  rewrite (Reports_unfold _ _ _ _ outcome) in Hreports by done.
  destruct (ObservationsTimestampSeconds outcome) as [seconds| |] eqn:Hseconds; [|done..].
  apply reportChannels_Ok in Hreports as (encoded & -> & Hencoded).
  exists encoded. split; [done|].
  eapply Forall2_impl_elem; [done|]. clear Hencoded.
  intros channelID rwi Hin%elem_of_ReportableChannels [Hreport Hinfo].
  pose proof Hin as (_ & _ & cd & Hcd & _ & Hmedians & vas & Hvas & Hlt)%IsReportable_Ok.
  apply ObservationsTimestampSeconds_Ok in Hseconds as Hsec. destruct Hsec as [-> _].
  assert (∃ values, Forall2 (λ streamID value,
            index (Outcome.StreamMedians outcome) streamID = Some (Some value))
            (StreamIDs cd) values) as [values Hvalues].
  { clear -Hmedians. induction Hmedians as [|streamID streamIDs [v Hv] _ [values IH]].
    - exists []. constructor.
    - exists (v :: values). by constructor. }
  exists cd, vas, (Outcome.ObservationsTimestampNanoseconds outcome `div` 1000000000), values.
  split_and!; try done.
  - rewrite <- Hreport. unfold channelReport. rewrite Hcd, Hvas. simpl.
    do 2 f_equal. clear -Hvalues.
    induction Hvalues as [|streamID v streamIDs values Hv _ IH]; [done|].
    rewrite !fmap_cons, IH, Hv. done.
  - rewrite Hinfo. by rewrite Hcd.
Qed.

(** X6: for a sequence number above 1, [Reports] returns reports
    exactly when the outcome decodes, its time stamp in seconds fits a
    uint32, and the report of every reportable channel is encoded without
    error; in particular one reportable channel whose format has no codec
    makes the whole call fail. *)
Theorem Reports_succeeds_iff p Codecs seqNr rawOutcome :
  1 < seqNr →
  (∃ rwis, Reports p Codecs seqNr rawOutcome = Ok rwis) ↔
    ∃ outcome seconds,
      json_Unmarshal decodeOutcome rawOutcome = Some outcome
      ∧ ObservationsTimestampSeconds outcome = Ok seconds
      ∧ ∀ channelID channelDefinition,
          IsReportable outcome channelID = Ok tt →
          index (Outcome.ChannelDefinitions outcome) channelID = Some channelDefinition →
          ∃ codec encoded,
            Codecs !! ReportFormat channelDefinition = Some codec
            ∧ Encode codec (channelReport p outcome seconds seqNr channelID) = Ok encoded.
Proof.
  intros Hseq. split.
  - intros [rwis Hreports].
    destruct (json_Unmarshal decodeOutcome rawOutcome) as [outcome|] eqn:Hdecode.
    2:{ unfold Reports in Hreports. rewrite bool_decide_eq_false_2 in Hreports by lia.
        by rewrite Hdecode in Hreports. }
    rewrite (Reports_unfold _ _ _ _ outcome) in Hreports by done.
    destruct (ObservationsTimestampSeconds outcome) as [seconds| |] eqn:Hseconds; [|done..].
    exists outcome, seconds. split_and!; [done..|].
    intros channelID cd Hok%elem_of_ReportableChannels Hcd.
    destruct (reportChannels_failure _ _ _ _ _ _ _ _ Hreports channelID Hok)
      as [encoded Hencoded].
    rewrite Hcd in Hencoded. simpl in Hencoded. unfold encodeReport in Hencoded.
    destruct (Codecs !! ReportFormat cd) as [codec|]; [eauto|done].
  - intros (outcome & seconds & Hdecode & Hseconds & Hall).
    rewrite (Reports_unfold _ _ _ _ outcome), Hseconds by done.
    apply reportChannels_total.
    intros channelID Hok%elem_of_ReportableChannels.
    pose proof Hok as (_ & _ & cd & Hcd & _)%IsReportable_Ok.
    destruct (Hall channelID cd Hok Hcd) as (codec & encoded & Hcodec & Hencoded).
    exists encoded. rewrite Hcd. simpl. unfold encodeReport. by rewrite Hcodec.
Qed.
End ReportsFacts.

(** ** The difference of two sets of channel definitions *)

Section Subtract.
Context `{Imports}.

Lemma subtractChannelDefinitions_lookup minuend subtrahend limit c cd :
  subtractChannelDefinitions minuend subtrahend limit !! c = Some cd →
  index minuend c = Some cd.
Proof.
  unfold subtractChannelDefinitions.
  set (differenceList := _ <$> filter _ (map_to_list (entries minuend))).
  set (sorted := merge_sort byChannelID differenceList).
  set (kept := if bool_decide _ then _ else _).
  intros Hin%elem_of_list_to_map_2.
  apply list_elem_of_fmap in Hin as (defWithID & [= -> ->] & Hin).
  assert (defWithID ∈ sorted) as Hsorted.
  { unfold kept in Hin. case_bool_decide; [|done].
    eapply elem_of_sublist; [done|apply sublist_take]. }
  unfold sorted in Hsorted. rewrite merge_sort_Permutation in Hsorted.
  apply list_elem_of_fmap in Hsorted as ([k d] & -> & [_ Hkd]%list_elem_of_filter).
  simpl. apply elem_of_map_to_list in Hkd.
  by destruct minuend.
Qed.

(** X7: for a limit that is not negative, [subtractChannelDefinitions]
    returns the definitions of the minuend under the [limit] smallest channel
    ids that the subtrahend lacks, and nothing else; so it has at most
    [limit] entries. *)
Theorem subtractChannelDefinitions_spec minuend subtrahend limit :
  0 ≤ limit →
  let difference := subtractChannelDefinitions minuend subtrahend limit in
  let kept :=
    smallest (Z.to_nat limit) (dom (entries minuend) ∖ dom (entries subtrahend)) in
  (∀ c, difference !! c = if bool_decide (c ∈ kept) then index minuend c else None)
  ∧ (size difference ≤ Z.to_nat limit)%nat.
Proof.
  intros Hlimit difference kept.
  pose proof (dom_subtractChannelDefinitions minuend subtrahend limit Hlimit) as Hdom.
  fold difference kept in Hdom. split.
  - intros c. case_bool_decide as Hc.
    + rewrite <- Hdom in Hc. apply elem_of_dom in Hc as [cd Hcd].
      rewrite Hcd. symmetry. by eapply subtractChannelDefinitions_lookup.
    + rewrite <- Hdom in Hc. by apply not_elem_of_dom.
  - rewrite <- size_dom, Hdom. unfold kept. rewrite size_smallest. lia.
Qed.
End Subtract.

(** ** The votes and the streams of an observation *)

Section ObservationFacts.
Context `{Imports}.

Lemma removeChannelIDs_unexpected rangeValidAfter previousOutcome expected c :
  c ∈ Observation_removeChannelIDs rangeValidAfter previousOutcome expected →
  index expected c = None.
Proof.
  unfold Observation_removeChannelIDs. intros Hc.
  match type of Hc with _ ∈ voteRemoveValidAfter _ ?start ?keys =>
    destruct (voteRemoveValidAfter_spec expected keys start) as (_ & Hfrom & _) end.
  apply Hfrom in Hc as [Hc|[_ Hc]]; [|done].
  rewrite dom_subtractChannelDefinitions in Hc by done.
  apply smallest_subseteq in Hc. apply index_None_dom. set_solver.
Qed.

Lemma size_removeChannelIDs rangeValidAfter previousOutcome expected :
  (size (Observation_removeChannelIDs rangeValidAfter previousOutcome expected) ≤ 5)%nat.
Proof.
  unfold Observation_removeChannelIDs.
  match goal with |- (size (voteRemoveValidAfter _ ?start ?keys) ≤ _)%nat =>
    destruct (voteRemoveValidAfter_spec expected keys start) as (_ & _ & Hsize & _) end.
  apply Hsize. rewrite dom_subtractChannelDefinitions by done.
  rewrite size_smallest. change (Z.to_nat MAX_OBSERVATION_REMOVE_CHANNEL_IDS_LENGTH) with 5%nat.
  lia.
Qed.

Lemma size_addChannelDefinitions previousOutcome expected :
  (size (Observation_addChannelDefinitions previousOutcome expected) ≤ 5)%nat.
Proof.
  unfold Observation_addChannelDefinitions.
  rewrite <- size_dom, dom_subtractChannelDefinitions by done.
  rewrite size_smallest. change (Z.to_nat MAX_OBSERVATION_ADD_CHANNEL_DEFINITIONS_LENGTH) with 5%nat.
  lia.
Qed.

(** X8: whatever the order in which the map entries are visited, an
    observation votes to remove only channels that the expected definitions
    lack, and to add only channels that the expected definitions have and the
    previous outcome lacks, each with its expected definition and at most 5
    of them.  So no channel is voted for both, and a channel that the
    previous outcome and the expected definitions both have is voted for
    neither, even where the two definitions differ. *)
Theorem Observation_votes_disjoint
    (rangeValidAfter : list Z → list Z) previousOutcome expectedChannelDefs :
  let remove :=
    Observation_removeChannelIDs rangeValidAfter previousOutcome expectedChannelDefs in
  let add := Observation_addChannelDefinitions previousOutcome expectedChannelDefs in
  remove ## dom (entries expectedChannelDefs)
  ∧ dom add ⊆ dom (entries expectedChannelDefs)
                ∖ dom (entries (Outcome.ChannelDefinitions previousOutcome))
  ∧ add ⊆ entries expectedChannelDefs
  ∧ (size add ≤ 5)%nat
  ∧ remove ## dom add.
Proof.
  intros remove add.
  assert (remove ## dom (entries expectedChannelDefs)) as Hremove.
  { intros c Hc%removeChannelIDs_unexpected Hexp. by apply index_None_dom in Hc. }
  assert (dom add ⊆ dom (entries expectedChannelDefs)
                     ∖ dom (entries (Outcome.ChannelDefinitions previousOutcome))) as Hadd.
  { unfold add, Observation_addChannelDefinitions.
    rewrite dom_subtractChannelDefinitions by done. apply smallest_subseteq. }
  split_and!; [done|done| |apply size_addChannelDefinitions|set_solver].
  apply map_subseteq_spec. intros c cd Hc%subtractChannelDefinitions_lookup.
  by destruct expectedChannelDefs.
Qed.

Lemma elem_of_foldl_union (streamIDs : list Z) : ∀ (streams : gset Z) s,
  s ∈ foldl (λ streams streamID, {[streamID]} ∪ streams) streams streamIDs
  ↔ s ∈ streams ∨ s ∈ streamIDs.
Proof.
  induction streamIDs as [|streamID streamIDs IH]; intros streams s; simpl.
  - rewrite elem_of_nil. naive_solver.
  - rewrite IH, elem_of_cons. set_solver.
Qed.

(** X9: the set of streams that [Observation] hands to the data source
    holds exactly the stream ids that occur in a channel definition of the
    previous outcome. *)
Theorem observedStreams_spec (channelDefinitions : gmap Z ChannelDefinition) (streamID : Z) :
  streamID ∈ observedStreams channelDefinitions ↔
    ∃ channelID channelDefinition,
      channelDefinitions !! channelID = Some channelDefinition
      ∧ streamID ∈ StreamIDs channelDefinition.
Proof.
  unfold observedStreams.
  apply (map_fold_weak_ind (λ (streams : gset Z) m,
    streamID ∈ streams ↔ ∃ c cd, m !! c = Some cd ∧ streamID ∈ StreamIDs cd)).
  - split; [set_solver|]. intros (c & cd & Hc & _). by rewrite lookup_empty in Hc.
  - intros c cd m streams Hc IH. rewrite elem_of_foldl_union, IH. split.
    + intros [(c' & cd' & Hc' & Hin)|Hin].
      * exists c', cd'. split; [|done]. rewrite lookup_insert_ne; [done|]. congruence.
      * exists c, cd. by rewrite lookup_insert_eq.
    + intros (c' & cd' & Hc' & Hin). destruct (decide (c' = c)) as [->|Hne].
      * rewrite lookup_insert_eq in Hc'. injection Hc' as <-. by right.
      * rewrite lookup_insert_ne in Hc' by done. left. eauto.
Qed.
End ObservationFacts.

(** ** The validation of observations *)

Section Validation.
Context `{Imports}.

Lemma ValidateObservation_empty p outctx ao :
  ao_Observation ao = [] → ValidateObservation p outctx ao = Ok tt.
Proof.
  intros Hempty. unfold ValidateObservation. rewrite Hempty. simpl.
  rewrite andb_false_r. rewrite andb_false_r. done.
Qed.

Lemma ValidateObservation_decoded p outctx ao observation :
  1 < SeqNr outctx →
  json_Unmarshal decodeObservation (ao_Observation ao) = Some observation →
  wellFormedObservation p observation →
  ValidateObservation p outctx ao = Ok tt.
Proof.
  intros Hseq Hdecode (Hpcd & Hadd & Hremove & Hvalues & Hnil).
  unfold ValidateObservation.
  rewrite (bool_decide_eq_false_2 (SeqNr outctx ≤ 1)) by lia. simpl.
  assert (0 < len (ao_Observation ao)) as Hlen.
  { destruct (ao_Observation ao); [done|]. unfold len. simpl. lia. }
  rewrite (bool_decide_eq_true_2 (0 < len (ao_Observation ao))) by done.
  rewrite Hdecode. simpl.
  assert (bool_decide (PredecessorConfigDigest p = None)
          && bool_decide (len (Observation.AttestedPredecessorRetirement observation) ≠ 0)
          = false) as ->.
  { apply andb_false_iff. destruct (PredecessorConfigDigest p) as [pcd|] eqn:Hp.
    - left. by apply bool_decide_eq_false_2.
    - right. rewrite Hpcd by done. apply bool_decide_eq_false_2.
      intros Hne. by apply Hne. }
  unfold MAX_OBSERVATION_ADD_CHANNEL_DEFINITIONS_LENGTH,
    MAX_OBSERVATION_REMOVE_CHANNEL_IDS_LENGTH, MAX_OBSERVATION_STREAM_VALUES_LENGTH.
  rewrite !bool_decide_eq_false_2 by lia.
  rewrite bool_decide_eq_true_2; [done|].
  intros id obsResult Hid [Hvalid Hval]. simpl in *.
  destruct (Hnil id obsResult Hid Hvalid) as [v Hv]. congruence.
Qed.

(** X10: [ValidateObservation] accepts an observation exactly when it
    is empty, or when the sequence number is above 1 and the observation
    decodes to one that carries no retirement report unless a predecessor is
    configured, at most 5 channels to add, at most 5 to remove, at most 1000
    stream values, and no stream value that is marked valid and nil.  So the
    empty observation is accepted at every sequence number, and at sequence
    number 1 and below nothing else is. *)
Theorem ValidateObservation_iff p outctx ao :
  ValidateObservation p outctx ao = Ok tt ↔
    ao_Observation ao = []
    ∨ (1 < SeqNr outctx
       ∧ ∃ observation,
           decodeObservation (ao_Observation ao) = Some observation
           ∧ wellFormedObservation p observation).
Proof.
  split.
  - destruct (ao_Observation ao) as [|b data] eqn:Hdata; [by left|]. right.
    unfold ValidateObservation in *. rewrite Hdata in *.
    assert (len (b :: data) ≠ 0) as Hlen by (unfold len; simpl; lia).
    rewrite (bool_decide_eq_true_2 (len (b :: data) ≠ 0)) in * by done.
    rewrite andb_true_r in *.
    case_bool_decide as Hseq; [done|].
    rewrite (bool_decide_eq_true_2 (0 < len (b :: data))) in * by (unfold len; simpl; lia).
    simpl in *.
    destruct (decodeObservation (b :: data)) as [observation|]; [|done]. simpl in *.
    destruct (bool_decide (PredecessorConfigDigest p = None) && _) eqn:Hpcd; [done|].
    apply andb_false_iff in Hpcd. rewrite !bool_decide_eq_false in Hpcd.
    unfold MAX_OBSERVATION_ADD_CHANNEL_DEFINITIONS_LENGTH,
      MAX_OBSERVATION_REMOVE_CHANNEL_IDS_LENGTH, MAX_OBSERVATION_STREAM_VALUES_LENGTH in *.
    repeat (case_bool_decide; try done). split; [lia|].
    exists observation. split; [done|]. unfold wellFormedObservation.
    split_and!; try lia.
    + intros Hnone. destruct Hpcd as [Hpcd|Hpcd]; [done|].
      destruct (Observation.AttestedPredecessorRetirement observation); [done|].
      exfalso. apply Hpcd. unfold len. simpl. lia.
    + intros id obsResult Hid Hvalid.
      match goal with Hall : map_Forall _ _ |- _ =>
        pose proof (map_Forall_lookup_1 _ _ id obsResult Hall Hid) as Hnil end.
      simpl in Hnil. destruct (Val obsResult); [eauto|]. exfalso. by apply Hnil.
  - intros [Hempty|(Hseq & observation & Hdecode & Hwell)].
    + by apply ValidateObservation_empty.
    + destruct (ao_Observation ao) as [|b data] eqn:Hdata.
      * by apply ValidateObservation_empty.
      * apply (ValidateObservation_decoded _ _ _ observation); [done| |done].
        by rewrite Hdata.
Qed.

(** X11: an empty observation passes [ValidateObservation] but does not
    count in [Outcome]: a round above sequence number 1 in which all the
    attributed observations are empty fails with "no valid observations",
    however many there are. *)
Theorem empty_observations_do_not_count p rangeAdd outctx aos :
  1 < SeqNr outctx →
  is_Some (json_Unmarshal decodeOutcome (PreviousOutcome outctx)) →
  int (int (2 * F p) + 1) ≤ len aos →
  Forall (λ ao, ao_Observation ao = []) aos →
  Forall (λ ao, ValidateObservation p outctx ao = Ok tt) aos
  ∧ outcomeOf p rangeAdd outctx aos = Err "no valid observations".
Proof.
  intros Hseq [previousOutcome Hprevious] Hquorum Hempty. split.
  - eapply Forall_impl; [done|]. intros ao. apply ValidateObservation_empty.
  - unfold outcomeOf.
    rewrite bool_decide_eq_false_2 by lia.
    rewrite bool_decide_eq_false_2 by lia.
    rewrite Hprevious.
    assert (observeAll p noVotes aos = Ok noVotes) as ->.
    { clear Hquorum. generalize noVotes as acc. induction Hempty as [|ao aos Hao _ IH]; intros acc; [done|].
      simpl. unfold observe. rewrite Hao. simpl. apply IH. }
    done.
Qed.

(** X12: an observation that [Observation] builds for a sequence number
    above 1 passes [ValidateObservation] in its round, once the data source
    returns at most 1000 stream values, none of them marked valid and nil.
    This holds whatever the caches hold and in whatever order the map entries
    are visited: the votes never exceed 5, and a retirement report is only
    fetched when a predecessor is configured. *)
Theorem built_observation_passes_validation
    p src (rangeValidAfter : list Z → list Z) previousOutcome outctx ao observation :
  1 < SeqNr outctx →
  (∀ streams values, Observe src streams = Ok values →
     (size values ≤ 1000)%nat
     ∧ ∀ id obsResult, values !! id = Some obsResult →
         Valid obsResult = true → is_Some (Val obsResult)) →
  observationOf p src rangeValidAfter previousOutcome = Ok observation →
  json_Unmarshal decodeObservation (ao_Observation ao) = Some observation →
  ValidateObservation p outctx ao = Ok tt.
Proof.
  intros Hseq Hsource Hbuilt Hdecode.
  apply (ValidateObservation_decoded _ _ _ observation); [done..|].
  unfold observationOf in Hbuilt.
  apply bind_Ok in Hbuilt as (attested & Hattested & Hbuilt).
  apply bind_Ok in Hbuilt as (shouldRetire & _ & Hbuilt).
  apply bind_Ok in Hbuilt as (values & Hvalues & [= <-]).
  destruct (Observe src _) as [values'| |] eqn:Hobserve; simplify_eq/=.
  destruct (Hsource _ _ Hobserve) as [Hsize Hnil].
  split_and!; simpl.
  - intros Hnone. rewrite Hnone in Hattested. by injection Hattested.
  - apply size_addChannelDefinitions.
  - apply size_removeChannelIDs.
  - done.
  - done.
Qed.
End Validation.

(** ** The channel hash *)


Lemma numberOf_app (l1 l2 : bytes) :
  numberOf (l1 ++ l2) = numberOf l1 * 256 ^ len l2 + numberOf l2.
Proof.
  unfold numberOf, len. rewrite foldl_app.
  generalize (foldl (λ n b, 256 * n + Z.of_N (Byte.to_N b)) 0 l1) as n.
  induction l2 as [|b l2 IH] using rev_ind; intros n.
  - simpl. lia.
  - rewrite !foldl_app. simpl. rewrite IH, (IH 0).
    rewrite length_app. simpl.
    replace (Z.of_nat (length l2 + 1)) with (Z.of_nat (length l2) + 1) by lia.
    rewrite Z.pow_add_r by lia. lia.
Qed.

Lemma byte_of_bigEndianByte z : Z.of_N (Byte.to_N (bigEndianByte z)) = z `mod` 256.
Proof.
  unfold bigEndianByte.
  assert (0 ≤ z `mod` 256 < 256) as Hz by (apply Z.mod_pos_bound; lia).
  destruct (Byte.of_N (Z.to_N (z `mod` 256))) as [b|] eqn:Hb.
  - apply Byte.to_of_N in Hb. simpl. rewrite Hb. lia.
  - apply Byte.of_N_None_iff in Hb. lia.
Qed.

Lemma length_bigEndian width v : length (bigEndian width v) = width.
Proof. unfold bigEndian. by rewrite length_fmap, length_reverse, length_seq. Qed.

Lemma bigEndian_S width v :
  bigEndian (S width) v = bigEndianByte (v ≫ (8 * Z.of_nat width)) :: bigEndian width v.
Proof.
  unfold bigEndian. rewrite seq_S, reverse_app. simpl. done.
Qed.

Lemma numberOf_bigEndian width v :
  numberOf (bigEndian width v) = v `mod` 256 ^ Z.of_nat width.
Proof.
  induction width as [|width IH].
  - simpl. by rewrite Z.mod_1_r.
  - rewrite bigEndian_S.
    change (?b :: ?l) with ([b] ++ l). rewrite numberOf_app, IH.
    unfold len. rewrite length_bigEndian.
    unfold numberOf at 1. simpl. rewrite byte_of_bigEndianByte.
    rewrite Z.shiftr_div_pow2 by lia.
    replace (2 ^ (8 * Z.of_nat width)) with (256 ^ Z.of_nat width)
      by (change 256 with (2 ^ 8); rewrite <- Z.pow_mul_r by lia; done).
    replace (Z.of_nat (S width)) with (Z.of_nat width + 1) by lia.
    rewrite Z.pow_add_r by lia.
    rewrite (Z.rem_mul_r v (256 ^ Z.of_nat width) (256 ^ 1)) by lia.
    change (256 ^ 1) with 256. lia.
Qed.

Lemma bigEndian_inj (width : nat) v1 v2 :
  0 ≤ v1 < 256 ^ Z.of_nat width → 0 ≤ v2 < 256 ^ Z.of_nat width →
  bigEndian width v1 = bigEndian width v2 → v1 = v2.
Proof.
  intros H1 H2 Heq. apply (f_equal numberOf) in Heq.
  rewrite !numberOf_bigEndian in Heq.
  by rewrite !Z.mod_small in Heq.
Qed.

Lemma length_list_byte_of_string s :
  length (String.list_byte_of_string s) = String.length s.
Proof.
  unfold String.list_byte_of_string. rewrite List.length_map.
  induction s as [|a s IH]; simpl; [done|]. by rewrite IH.
Qed.

Lemma list_byte_of_string_inj s1 s2 :
  String.list_byte_of_string s1 = String.list_byte_of_string s2 → s1 = s2.
Proof.
  intros Heq. apply (f_equal String.string_of_list_byte) in Heq.
  by rewrite !String.string_of_list_byte_of_string in Heq.
Qed.

Lemma mjoin_bigEndian_inj (l1 l2 : list Z) :
  length l1 = length l2 →
  Forall (λ v, 0 ≤ v < 2 ^ 32) l1 → Forall (λ v, 0 ≤ v < 2 ^ 32) l2 →
  mjoin (bigEndian 4 <$> l1) = mjoin (bigEndian 4 <$> l2) → l1 = l2.
Proof.
  revert l2. induction l1 as [|v1 l1 IH]; intros [|v2 l2] Hlen H1 H2 Heq; try done.
  apply Forall_cons in H1 as [Hv1 H1]. apply Forall_cons in H2 as [Hv2 H2].
  rewrite !fmap_cons in Heq. cbn [mjoin list_join] in Heq.
  apply app_inj_1 in Heq as [Hhead Htail]; [|by rewrite !length_bigEndian].
  f_equal.
  - apply (bigEndian_inj 4); [done..|].  done.
  - apply IH; [by injection Hlen|done..].
Qed.

Section Hash.
Context `{Imports}.

(** The bytes that [MakeChannelHash] writes to the hash. *)
Lemma hashed_bytes_inj cd1 cd2 :
  inRange cd1 → inRange cd2 →
  bigEndian 4 (ChannelID cd1)
    ++ bigEndian 4 (Z.of_nat (String.length (ReportFormat (Definition_ cd1))))
    ++ String.list_byte_of_string (ReportFormat (Definition_ cd1))
    ++ bigEndian 8 (ChainSelector (Definition_ cd1))
    ++ bigEndian 4 (len (StreamIDs (Definition_ cd1)))
    ++ mjoin (bigEndian 4 <$> StreamIDs (Definition_ cd1))
  = bigEndian 4 (ChannelID cd2)
    ++ bigEndian 4 (Z.of_nat (String.length (ReportFormat (Definition_ cd2))))
    ++ String.list_byte_of_string (ReportFormat (Definition_ cd2))
    ++ bigEndian 8 (ChainSelector (Definition_ cd2))
    ++ bigEndian 4 (len (StreamIDs (Definition_ cd2)))
    ++ mjoin (bigEndian 4 <$> StreamIDs (Definition_ cd2)) →
  cd1 = cd2.
Proof.
  destruct cd1 as [[format1 selector1 streams1] id1], cd2 as [[format2 selector2 streams2] id2].
  unfold inRange; cbn [ChannelID Definition_ ReportFormat ChainSelector StreamIDs].
  intros (Hid1 & Hformat1 & Hselector1 & Hlen1 & Hstreams1)
         (Hid2 & Hformat2 & Hselector2 & Hlen2 & Hstreams2) Heq.
  apply app_inj_1 in Heq as [Hid Heq]; [|by rewrite !length_bigEndian].
  apply (bigEndian_inj 4) in Hid; [|done..]. subst id2.
  apply app_inj_1 in Heq as [Hflen Heq]; [|by rewrite !length_bigEndian].
  apply (bigEndian_inj 4) in Hflen; [|change (256 ^ Z.of_nat 4) with (2 ^ 32); lia..].
  apply app_inj_1 in Heq as [Hformat Heq]; [|rewrite !length_list_byte_of_string; lia].
  apply list_byte_of_string_inj in Hformat. subst format2.
  apply app_inj_1 in Heq as [Hselector Heq]; [|by rewrite !length_bigEndian].
  apply (bigEndian_inj 8) in Hselector; [|done..]. subst selector2.
  apply app_inj_1 in Heq as [Hslen Heq]; [|by rewrite !length_bigEndian].
  apply (bigEndian_inj 4) in Hslen; [|unfold len in *; change (256 ^ Z.of_nat 4) with (2 ^ 32); lia..].
  apply mjoin_bigEndian_inj in Heq; [|unfold len in *; lia|done..].
  by subst streams2.
Qed.

(** X13: [MakeChannelHash] writes each field at a fixed width and each
    variable part after its length, so the bytes it hashes determine the
    definition: two different definitions with an id get the same hash only
    if SHA-256 maps two different inputs to the same digest. *)
Theorem MakeChannelHash_collision (cd1 cd2 : ChannelDefinitionWithID) :
  inRange cd1 → inRange cd2 →
  cd1 ≠ cd2 →
  MakeChannelHash cd1 = MakeChannelHash cd2 →
  ∃ data1 data2 : bytes, data1 ≠ data2 ∧ Sum256 data1 = Sum256 data2.
Proof.
  intros Hrange1 Hrange2 Hne Hhash. unfold MakeChannelHash in Hhash.
  eexists _, _. split; [|exact Hhash].
  intros Heq. apply Hne. by apply hashed_bytes_inj.
Qed.
End Hash.

(** ** The votes to retire and to add channels *)

Section TalliesFacts.
Context `{Imports}.
Implicit Types (acc : Accumulators) (observation : Observation.t).

(** A relation between the accumulators before and after a loop holds
    for the observations counted, once it holds for every step. *)
Lemma observeAll_counted_ind
    (R : Accumulators → Accumulators → list Observation.t → Prop) :
  (∀ acc, R acc acc []) →
  (∀ acc observation, R acc (countObservation acc observation) [observation]) →
  (∀ acc report observation,
     R acc (countObservation (acceptRetirementReport acc report) observation) [observation]) →
  (∀ acc1 acc2 acc3 l1 l2, R acc1 acc2 l1 → R acc2 acc3 l2 → R acc1 acc3 (l1 ++ l2)) →
  ∀ p aos acc acc',
    observeAll p acc aos = Ok acc' →
    R acc acc'
      (countedObservations p (bool_decide (is_Some (validPredecessorRetirementReport acc))) aos).
Proof.
  intros Hnil Hcount Haccept Htrans p aos.
  induction aos as [|ao aos IH]; intros acc acc' Hloop; simpl in Hloop.
  { injection Hloop as <-. apply Hnil. }
  apply bind_Ok in Hloop as (acc1 & Hstep & Hloop).
  apply IH in Hloop. clear IH.
  unfold observe in Hstep. simpl.
  destruct (json_Unmarshal decodeObservation (ao_Observation ao)) as [observation|].
  2:{ by injection Hstep as <-. }
  destruct (Observation.AttestedPredecessorRetirement observation) as [|b attested] eqn:Hatt.
  { injection Hstep as <-. simpl in *.
    eapply (Htrans _ _ _ [observation]); [apply Hcount|done]. }
  destruct (validPredecessorRetirementReport acc) as [r|] eqn:Hvalid.
  { injection Hstep as <-. simpl in *. rewrite ?Hvalid in *.
    rewrite ?bool_decide_eq_true_2 in * by eauto.
    eapply (Htrans _ _ _ [observation]); [apply Hcount|done]. }
  rewrite ?bool_decide_eq_false_2 by by intros []%is_Some_None.
  unfold checked. destruct (PredecessorConfigDigest p) as [pcd|]; [|done]. simpl.
  destruct (CheckAttestedRetirementReport p pcd (b :: attested)) as [r|].
  - injection Hstep as <-. simpl in *.
    rewrite ?bool_decide_eq_true_2 in Hloop by eauto.
    eapply (Htrans _ _ _ [observation]); [apply Haccept|done].
  - injection Hstep as <-. rewrite ?Hvalid in *.
    by rewrite ?bool_decide_eq_false_2 in Hloop by by intros []%is_Some_None.
Qed.

Lemma addVotes_app hash l1 l2 :
  addVotes hash (l1 ++ l2) = addVotes hash l1 + addVotes hash l2.
Proof.
  unfold addVotes. induction l1 as [|observation l1 IH]; simpl; [lia|].
  rewrite IH. lia.
Qed.

Lemma countObservation_addChannelVotesByHash acc observation hash :
  default 0 (addChannelVotesByHash (countObservation acc observation) !! hash) =
    default 0 (addChannelVotesByHash acc !! hash) + addVotes hash [observation].
Proof.
  unfold countObservation, addVotes; simpl.
  generalize (addChannelVotesByHash acc) as start. intros start.
  apply (map_fold_weak_ind (λ (r : gmap Z Z) (m : gmap Z ChannelDefinition),
    default 0 (r !! hash) =
      default 0 (start !! hash)
      + (0 + len (filter (λ kv, MakeChannelHash (withID kv.1 kv.2) = hash) (map_to_list m))))).
  - rewrite map_to_list_empty. unfold len. simpl. lia.
  - intros c cd m r Hc IH. unfold increment, len in *.
    rewrite (map_to_list_insert m c cd Hc), filter_cons. simpl.
    destruct (decide (MakeChannelHash (withID c cd) = hash)) as [->|Hne].
    + rewrite lookup_insert_eq. simpl. rewrite IH. simpl. lia.
    + by rewrite lookup_insert_ne.
Qed.

Lemma countObservation_addChannelDefinitionsByHash acc observation hash defWithID :
  addChannelDefinitionsByHash (countObservation acc observation) !! hash = Some defWithID →
  addChannelDefinitionsByHash acc !! hash = Some defWithID
  ∨ (MakeChannelHash defWithID = hash
     ∧ Observation.AddChannelDefinitions observation !! ChannelID defWithID
       = Some (Definition_ defWithID)).
Proof.
  unfold countObservation; simpl.
  generalize (addChannelDefinitionsByHash acc) as start. intros start.
  apply (map_fold_weak_ind (λ (r : gmap Z ChannelDefinitionWithID) (m : gmap Z ChannelDefinition),
    r !! hash = Some defWithID →
    start !! hash = Some defWithID
    ∨ (MakeChannelHash defWithID = hash
       ∧ m !! ChannelID defWithID = Some (Definition_ defWithID)))).
  - by left.
  - intros c cd m r Hc IH.
    destruct (decide (MakeChannelHash (withID c cd) = hash)) as [<-|Hne].
    + rewrite lookup_insert_eq. intros [= <-]. right. split; [done|].
      simpl. by rewrite lookup_insert_eq.
    + rewrite lookup_insert_ne by done. intros [?|[? Hin]]%IH; [by left|].
      right. split; [done|]. rewrite lookup_insert_ne; [done|]. congruence.
Qed.

Lemma tallies_count acc observation :
  tallies acc (countObservation acc observation) [observation].
Proof.
  split_and!.
  - unfold retireVotes, len. rewrite filter_cons, filter_nil. simpl.
    destruct (Observation.ShouldRetire observation); case_decide; simpl; try done; lia.
  - apply countObservation_addChannelVotesByHash.
  - intros hash d [?|[? ?]]%countObservation_addChannelDefinitionsByHash; [by left|].
    right. split; [done|]. exists observation. split; [by left|done].
Qed.

Lemma observeAll_tallies p aos acc :
  observeAll p noVotes aos = Ok acc →
  shouldRetireVotes acc = retireVotes (countedObservations p false aos)
  ∧ (∀ hash, default 0 (addChannelVotesByHash acc !! hash) =
             addVotes hash (countedObservations p false aos))
  ∧ (∀ hash defWithID, addChannelDefinitionsByHash acc !! hash = Some defWithID →
       MakeChannelHash defWithID = hash
       ∧ ∃ observation, observation ∈ countedObservations p false aos
           ∧ Observation.AddChannelDefinitions observation !! ChannelID defWithID
             = Some (Definition_ defWithID)).
Proof.
  intros Hloop.
  apply (observeAll_counted_ind tallies) in Hloop.
  - destruct Hloop as (Hretire & Hvotes & Hdefs). simpl in *. split_and!.
    + lia.
    + intros hash. rewrite Hvotes, lookup_empty. simpl. lia.
    + intros hash d [Hstart|?]%Hdefs; [|done]. by rewrite lookup_empty in Hstart.
  - intros acc0. split_and!; [unfold retireVotes, len; simpl; lia|intros; simpl; lia|by left].
  - apply tallies_count.
  - intros acc0 report observation.
    destruct (tallies_count (acceptRetirementReport acc0 report) observation) as (?&?&?).
    split_and!; done.
  - intros acc1 acc2 acc3 l1 l2 (Hr1 & Hv1 & Hd1) (Hr2 & Hv2 & Hd2). split_and!.
    + rewrite Hr2, Hr1. unfold retireVotes, len. rewrite filter_app, length_app. lia.
    + intros hash. rewrite Hv2, Hv1, addVotes_app. lia.
    + intros hash d [[?|(? & o & ? & ?)]%Hd1|(? & o & ? & ?)]%Hd2; [by left|right..].
      * split; [done|]. exists o. split; [|done]. apply elem_of_app. by left.
      * split; [done|]. exists o. split; [|done]. apply elem_of_app. by right.
Qed.
End TalliesFacts.

(** ** A round of Outcome in terms of its observations *)

Section Round.
Context `{Imports}.

Lemma round_Ok p rangeAdd outctx aos previousOutcome o :
  1 < SeqNr outctx →
  json_Unmarshal decodeOutcome (PreviousOutcome outctx) = Some previousOutcome →
  outcomeOf p rangeAdd outctx aos = Ok o →
  ∃ acc, observeAll p noVotes aos = Ok acc
         ∧ nextOutcome p rangeAdd previousOutcome acc = Ok o.
Proof.
  intros Hseq Hprevious Hout.
  apply outcomeOf_Ok in Hout as (previousOutcome' & acc & Hprevious' & Hacc & Hnext); [|done].
  exists acc. split; [done|]. congruence.
Qed.

Lemma nextLifeCycleStage_counted p previousOutcome aos acc :
  observeAll p noVotes aos = Ok acc →
  nextLifeCycleStage p previousOutcome acc =
    let stage :=
      if bool_decide (Outcome.LifeCycleStage previousOutcome = LifeCycleStageStaging
                      ∧ is_Some (acceptedReport p aos))
      then LifeCycleStageProduction else Outcome.LifeCycleStage previousOutcome in
    if bool_decide (stage = LifeCycleStageProduction
                    ∧ F p < retireVotes (countedObservations p false aos))
    then LifeCycleStageRetired else stage.
Proof.
  intros Hacc.
  pose proof (observeAll_noVotes _ _ _ Hacc) as (Hreport & _).
  pose proof (observeAll_tallies _ _ _ Hacc) as (Hretire & _).
  unfold nextLifeCycleStage, promoted. rewrite Hreport, Hretire. cbv zeta.
  by rewrite !bool_decide_and.
Qed.

Lemma handedOver_counted p previousOutcome aos acc :
  observeAll p noVotes aos = Ok acc →
  handedOver previousOutcome acc =
    if bool_decide (Outcome.LifeCycleStage previousOutcome = LifeCycleStageStaging)
    then report ← acceptedReport p aos; RetirementReport.ValidAfterSeconds report
    else None.
Proof.
  intros Hacc.
  pose proof (observeAll_noVotes _ _ _ Hacc) as (Hreport & _).
  unfold handedOver, promoted. rewrite Hreport.
  case_bool_decide; simpl; [|done].
  by destruct (acceptedReport p aos).
Qed.

Lemma outvoted_counted p aos acc c :
  0 ≤ F p →
  observeAll p noVotes aos = Ok acc →
  outvoted (F p) (removeChannelVotesByID acc) c = true
  ↔ F p < removeVotes c (countedObservations p false aos).
Proof.
  intros Hf Hacc.
  pose proof (observeAll_noVotes _ _ _ Hacc) as (_ & _ & _ & _ & Hvotes).
  rewrite <- Hvotes. unfold outvoted.
  destruct (removeChannelVotesByID acc !! c) as [n|]; simpl.
  - by rewrite bool_decide_eq_true.
  - split; [done|lia].
Qed.

(** The ids that a round removes, in terms of the observations. *)
Lemma removed_counted p rangeAdd previousOutcome aos acc c :
  0 ≤ F p →
  observeAll p noVotes aos = Ok acc →
  c ∈ (nextChannelDefinitions p rangeAdd previousOutcome acc).1
  ↔ nextLifeCycleStage p previousOutcome acc ≠ LifeCycleStageRetired
    ∧ F p < removeVotes c (countedObservations p false aos).
Proof.
  intros Hf Hacc. unfold nextChannelDefinitions. simpl.
  set (votes := if bool_decide _ then ∅ else removeChannelVotesByID acc).
  destruct (removeChannels_spec (F p) votes
              (entries (Outcome.ChannelDefinitions previousOutcome)) c) as [-> _].
  subst votes. case_bool_decide as Hretired.
  - unfold outvoted. rewrite lookup_empty. naive_solver.
  - rewrite outvoted_counted by done. naive_solver.
Qed.

Lemma addChannel_inv f votes defs entry c cd :
  addChannel f votes defs entry !! c = Some cd →
  defs !! c = Some cd
  ∨ (defs !! c = None ∧ ChannelID entry.2 = c ∧ Definition_ entry.2 = cd
     ∧ f < default 0 (votes !! entry.1)).
Proof.
  unfold addChannel. case_bool_decide as Hvotes; [by left|].
  case_bool_decide as Hexists; [by left|].
  case_bool_decide; [by left|].
  destruct (decide (ChannelID entry.2 = c)) as [<-|Hne].
  - rewrite lookup_insert_eq. intros [= <-]. right.
    split_and!; [by apply eq_None_not_Some|done|done|lia].
  - rewrite lookup_insert_ne by done. by left.
Qed.

Lemma foldl_addChannel_inv f votes entries : ∀ defs c cd,
  foldl (addChannel f votes) defs entries !! c = Some cd →
  defs !! c = Some cd
  ∨ (defs !! c = None
     ∧ ∃ entry, entry ∈ entries ∧ ChannelID entry.2 = c ∧ Definition_ entry.2 = cd
         ∧ f < default 0 (votes !! entry.1)).
Proof.
  induction entries as [|entry entries IH]; intros defs c cd; simpl; [by left|].
  intros [Hin|(Hnone & entry' & Hin & ?)]%IH.
  - apply addChannel_inv in Hin as [?|(? & ? & ? & ?)]; [by left|].
    right. split; [done|]. exists entry. split; [by left|done].
  - right. split.
    + destruct (defs !! c) as [cd'|] eqn:Hc; [|done].
      by rewrite (addChannel_keeps _ _ _ _ _ cd') in Hnone.
    + exists entry'. split; [by right|done].
Qed.

(** X14: the stage of the outcome of a round above sequence number 1.
    A staging instance is promoted to production when one of its
    observations carries a retirement report that passes the check; an
    instance in production, also one promoted in this very round, retires
    when more than [f] of the counted observations vote to retire; in every
    other case the stage stays what it was. *)
Theorem stage_of_outcome p rangeAdd outctx aos previousOutcome o :
  1 < SeqNr outctx →
  json_Unmarshal decodeOutcome (PreviousOutcome outctx) = Some previousOutcome →
  outcomeOf p rangeAdd outctx aos = Ok o →
  let stage :=
    if bool_decide (Outcome.LifeCycleStage previousOutcome = LifeCycleStageStaging
                    ∧ is_Some (acceptedReport p aos))
    then LifeCycleStageProduction else Outcome.LifeCycleStage previousOutcome in
  Outcome.LifeCycleStage o =
    if bool_decide (stage = LifeCycleStageProduction
                    ∧ F p < retireVotes (countedObservations p false aos))
    then LifeCycleStageRetired else stage.
Proof.
  intros Hseq Hprevious Hout.
  destruct (round_Ok _ _ _ _ _ _ Hseq Hprevious Hout) as (acc & Hacc & Hnext).
  apply nextOutcome_Ok in Hnext as (? & ? & ? & ? & _ & _ & _ & _ & _ & _ & ->).
  simpl. by apply nextLifeCycleStage_counted.
Qed.

(** X15: retirement is final.  When the previous outcome is retired,
    so is the outcome; its channel definitions are those of the previous
    outcome, whatever the votes; and every [ValidAfterSeconds] entry of the
    previous outcome moves to the time stamp of the previous outcome in
    seconds. *)
Theorem retired_is_final p rangeAdd outctx aos previousOutcome o :
  (∀ l, rangeAdd l ≡ₚ l) →
  1 < SeqNr outctx →
  json_Unmarshal decodeOutcome (PreviousOutcome outctx) = Some previousOutcome →
  Outcome.LifeCycleStage previousOutcome = LifeCycleStageRetired →
  outcomeOf p rangeAdd outctx aos = Ok o →
  Outcome.LifeCycleStage o = LifeCycleStageRetired
  ∧ entries (Outcome.ChannelDefinitions o)
    = entries (Outcome.ChannelDefinitions previousOutcome)
  ∧ ∀ c, is_Some (index (Outcome.ValidAfterSeconds previousOutcome) c) →
      ∃ seconds, ObservationsTimestampSeconds previousOutcome = Ok seconds
                 ∧ index (Outcome.ValidAfterSeconds o) c = Some seconds.
Proof.
  intros Hrange Hseq Hprevious Hretired Hout.
  destruct (round_Ok _ _ _ _ _ _ Hseq Hprevious Hout) as (acc & Hacc & Hnext).
  assert (nextLifeCycleStage p previousOutcome acc = LifeCycleStageRetired) as Hstage.
  { unfold nextLifeCycleStage, promoted. rewrite Hretired. done. }
  assert (nextChannelDefinitions p rangeAdd previousOutcome acc
          = ([], entries (Outcome.ChannelDefinitions previousOutcome))) as Hdefs.
  { unfold nextChannelDefinitions. rewrite Hstage. simpl.
    rewrite map_to_list_empty.
    assert (rangeAdd [] = []) as -> by (apply Permutation_nil_r, Hrange).
    done. }
  assert (handedOver previousOutcome acc = None) as Hhanded.
  { unfold handedOver, promoted. rewrite Hretired. done. }
  split_and!.
  - apply nextOutcome_Ok in Hnext as (? & ? & ? & ? & _ & _ & _ & _ & _ & _ & ->). done.
  - apply nextOutcome_Ok in Hnext as (? & ? & ? & ? & _ & _ & _ & _ & _ & _ & ->).
    by rewrite Hdefs.
  - intros c [v Hv].
    assert (c ∉ (nextChannelDefinitions p rangeAdd previousOutcome acc).1) as Hkept.
    { rewrite Hdefs. simpl. by intros ?%elem_of_nil. }
    destruct (carried_validAfterSeconds _ _ _ _ _ c v Hnext Hhanded Hv Hkept)
      as (seconds & Hseconds & Hcarried).
    exists seconds. split; [done|]. rewrite Hcarried. f_equal.
    destruct (IsReportable _ c) as [[]| |] eqn:Hreportable; [|done..].
    apply IsReportable_Ok in Hreportable as [Hstage' _]. exfalso. apply Hstage'.
    unfold afterEdits. by destruct (Outcome.ChannelDefinitions previousOutcome).
Qed.


(** X17: where the definitions of an outcome come from.  A definition
    of the outcome is either the definition that the previous outcome has for
    the channel and that was not voted out; or the outcome is not retired,
    the channel was free or voted out, some counted observation votes to add
    exactly this definition, and the votes to add a definition with its hash
    number more than [f]. *)
Theorem definition_provenance p rangeAdd outctx aos previousOutcome o c cd :
  (∀ l, rangeAdd l ≡ₚ l) →
  0 ≤ F p →
  1 < SeqNr outctx →
  json_Unmarshal decodeOutcome (PreviousOutcome outctx) = Some previousOutcome →
  outcomeOf p rangeAdd outctx aos = Ok o →
  index (Outcome.ChannelDefinitions o) c = Some cd →
  let counted := countedObservations p false aos in
  (index (Outcome.ChannelDefinitions previousOutcome) c = Some cd
   ∧ (Outcome.LifeCycleStage o = LifeCycleStageRetired ∨ removeVotes c counted ≤ F p))
  ∨ (Outcome.LifeCycleStage o ≠ LifeCycleStageRetired
     ∧ (index (Outcome.ChannelDefinitions previousOutcome) c = None
        ∨ F p < removeVotes c counted)
     ∧ F p < addVotes (MakeChannelHash (withID c cd)) counted
     ∧ ∃ observation, observation ∈ counted
         ∧ Observation.AddChannelDefinitions observation !! c = Some cd).
Proof.
  intros Hrange Hf Hseq Hprevious Hout Hcd counted.
  destruct (round_Ok _ _ _ _ _ _ Hseq Hprevious Hout) as (acc & Hacc & Hnext).
  pose proof (removed_counted p rangeAdd previousOutcome aos acc c Hf Hacc) as Hremoved.
  pose proof (observeAll_tallies _ _ _ Hacc) as (_ & Hvotes & Hdefs).
  apply nextOutcome_Ok in Hnext as (? & ? & ? & ? & _ & _ & _ & _ & _ & _ & ->).
  simpl in *. unfold nextChannelDefinitions in *. simpl in *.
  set (retired := bool_decide (nextLifeCycleStage p previousOutcome acc
                               = LifeCycleStageRetired)) in *.
  set (votes := if retired then ∅ else removeChannelVotesByID acc) in *.
  set (addDefs := if retired then ∅ else addChannelDefinitionsByHash acc) in *.
  destruct (removeChannels_spec (F p) votes
              (entries (Outcome.ChannelDefinitions previousOutcome)) c) as [Hin Hlookup].
  assert (entries (Outcome.ChannelDefinitions previousOutcome) !! c
          = index (Outcome.ChannelDefinitions previousOutcome) c) as Hentries
    by by destruct (Outcome.ChannelDefinitions previousOutcome).
  apply foldl_addChannel_inv in Hcd as [Hold|(Hnone & [hash d] & Hentry & Hid & Hdef & Hmore)].
  - left. rewrite Hlookup in Hold.
    destruct (outvoted (F p) votes c) eqn:Hout'; [done|]. split; [by rewrite <- Hentries|].
    destruct (decide (nextLifeCycleStage p previousOutcome acc = LifeCycleStageRetired))
      as [?|Hstage]; [by left|right].
    destruct (decide (removeVotes c counted ≤ F p)); [done|]. exfalso.
    assert (c ∈ (removeChannels (F p) votes
                   (entries (Outcome.ChannelDefinitions previousOutcome))).1) as Hc.
    { apply Hremoved. split; [done|]. unfold counted in *. lia. }
    apply Hin in Hc. congruence.
  - right. simpl in *.
    rewrite Hrange in Hentry. apply elem_of_map_to_list in Hentry.
    subst addDefs votes. unfold retired in *. case_bool_decide as Hstage.
    { by rewrite lookup_empty in Hentry. }
    destruct (Hdefs hash d Hentry) as (Hhash & observation & Hcounted & Hadd).
    assert (d = withID c cd) as -> by (destruct d; simpl in *; by subst).
    split_and!.
    + done.
    + rewrite Hlookup in Hnone. destruct (outvoted (F p) _ c) eqn:Hout'.
      * right. by apply (outvoted_counted p aos acc c Hf Hacc).
      * left. by rewrite <- Hentries.
    + rewrite <- Hvotes, Hhash. done.
    + exists observation. done.
Qed.

Lemma dom_carriedOver previousOutcome validAfter :
  carriedOver previousOutcome = Ok validAfter →
  dom validAfter = dom (entries (Outcome.ValidAfterSeconds previousOutcome)).
Proof.
  unfold carriedOver.
  destruct (ObservationsTimestampSeconds previousOutcome); [|done..].
  intros [= <-]. apply set_eq. intros c. rewrite !elem_of_dom, map_lookup_imap.
  destruct (entries _ !! c); simpl; split; intros [? ?]; eauto; done.
Qed.

Lemma inherited_validAfter p rangeAdd previousOutcome aos acc validAfter :
  observeAll p noVotes aos = Ok acc →
  match handedOver previousOutcome acc with
  | Some handed => validAfter = handed
  | None =>
      carriedOver
        (afterEdits previousOutcome
           (nextChannelDefinitions p rangeAdd previousOutcome acc).2) = Ok validAfter
  end →
  dom validAfter = inheritedChannels p previousOutcome aos.
Proof.
  intros Hacc Hvalid. unfold inheritedChannels.
  rewrite (handedOver_counted p previousOutcome aos acc Hacc) in Hvalid.
  destruct (if bool_decide _ then _ else _) as [handed|]; [by subst|].
  apply dom_carriedOver in Hvalid. rewrite Hvalid.
  unfold afterEdits. by destruct (Outcome.ChannelDefinitions previousOutcome).
Qed.

(** X18: the channels with a [ValidAfterSeconds] entry in the outcome
    are the channels that the round starts from ([inheritedChannels]) and the
    channels with a definition in the outcome, without the channels that more
    than [f] of the counted observations vote to remove while the outcome is
    not retired.  So an entry outlives its definition until the channel is
    voted out, and a channel that is voted out and added again in one round
    has a definition but no entry. *)
Theorem validAfterSeconds_channels p rangeAdd outctx aos previousOutcome o c :
  0 ≤ F p →
  1 < SeqNr outctx →
  json_Unmarshal decodeOutcome (PreviousOutcome outctx) = Some previousOutcome →
  outcomeOf p rangeAdd outctx aos = Ok o →
  is_Some (index (Outcome.ValidAfterSeconds o) c) ↔
    (c ∈ inheritedChannels p previousOutcome aos
     ∨ is_Some (index (Outcome.ChannelDefinitions o) c))
    ∧ ¬ (Outcome.LifeCycleStage o ≠ LifeCycleStageRetired
         ∧ F p < removeVotes c (countedObservations p false aos)).
Proof.
  intros Hf Hseq Hprevious Hout.
  destruct (round_Ok _ _ _ _ _ _ Hseq Hprevious Hout) as (acc & Hacc & Hnext).
  pose proof (removed_counted p rangeAdd previousOutcome aos acc c Hf Hacc) as Hremoved.
  apply nextOutcome_Ok in Hnext
    as (? & validAfter & ? & ? & _ & _ & Hvalid & _ & _ & _ & ->).
  apply (inherited_validAfter p rangeAdd previousOutcome aos acc validAfter Hacc) in Hvalid.
  simpl. rewrite lookup_settleValidAfterSeconds, <- Hvalid, <- Hremoved, elem_of_dom.
  case_bool_decide as Hc.
  - split; [by intros []%is_Some_None|]. by intros [_ []].
  - destruct (validAfter !! c) as [v|]; [naive_solver|].
    destruct (_ !! c) as [cd|]; simpl; [naive_solver|].
    split; [by intros []%is_Some_None|]. intros [[[]%is_Some_None|[]%is_Some_None] _].
Qed.

(** X19: a channel is not reportable in the outcome of the round that
    adds it: when the round does not start from a [ValidAfterSeconds] entry
    for the channel, [IsReportable] has an error for it in the outcome. *)
Theorem new_channel_not_reportable p rangeAdd outctx aos previousOutcome o c :
  1 < SeqNr outctx →
  json_Unmarshal decodeOutcome (PreviousOutcome outctx) = Some previousOutcome →
  outcomeOf p rangeAdd outctx aos = Ok o →
  c ∉ inheritedChannels p previousOutcome aos →
  IsReportable o c ≠ Ok tt.
Proof.
  intros Hseq Hprevious Hout Hnew Hreportable.
  destruct (round_Ok _ _ _ _ _ _ Hseq Hprevious Hout) as (acc & Hacc & Hnext).
  apply nextOutcome_Ok in Hnext
    as (nanoseconds & validAfter & seconds & ? & _ & _ & Hvalid & -> & _ & _ & ->).
  apply (inherited_validAfter p rangeAdd previousOutcome aos acc validAfter Hacc) in Hvalid.
  apply IsReportable_Ok in Hreportable as (_ & _ & cd & _ & _ & _ & v & Hv & Hlt).
  simpl in *. rewrite lookup_settleValidAfterSeconds in Hv.
  case_bool_decide; [done|].
  rewrite <- Hvalid in Hnew. apply not_elem_of_dom in Hnew. rewrite Hnew in Hv.
  apply fmap_Some in Hv as (cd' & _ & ->). lia.
Qed.
End Round.

(** ** The rank median and majorities *)

Lemma StronglySorted_lookup_le (l : list Z) (i j : nat) (a b : Z) :
  StronglySorted Z.le l → (i ≤ j)%nat → l !! i = Some a → l !! j = Some b → a ≤ b.
Proof.
  intros Hsorted. revert i j.
  induction Hsorted as [|x l _ IH Hall]; intros i j Hij Hi Hj.
  - by rewrite lookup_nil in Hi.
  - destruct i as [|i], j as [|j]; simplify_eq/=; try lia.
    + rewrite Forall_forall in Hall. apply Hall. by eapply list_elem_of_lookup_2.
    + apply (IH i j); [lia|done..].
Qed.

Lemma filter_none {A} (P : A → Prop) `{∀ x, Decision (P x)} (l : list A) :
  Forall (λ x, ¬ P x) l → filter P l = [].
Proof.
  induction 1 as [|x l Hx _ IH]; [done|].
  by rewrite filter_cons, decide_False, IH.
Qed.

(** The element at index [len/2] of a sorted list is at least every
    bound that more than half of the elements reach, and at most every bound
    that more than half of the elements stay under. *)
Lemma rank_median_majority (l sorted : list Z) (median lo hi : Z) :
  sorted ≡ₚ l → StronglySorted Z.le sorted →
  sorted !! (length l / 2)%nat = Some median →
  median ∈ l
  ∧ (len l < 2 * len (filter (λ x, lo ≤ x) l) → lo ≤ median)
  ∧ (len l < 2 * len (filter (λ x, x ≤ hi) l) → median ≤ hi).
Proof.
  intros Hperm Hsorted Hmedian.
  assert (length sorted = length l) as Hlen by by rewrite Hperm.
  set (k := (length l / 2)%nat) in *.
  assert (k < length sorted)%nat as Hk by by eapply lookup_lt_Some.
  assert (length l ≤ 2 * k + 1)%nat as Hhalf.
  { unfold k. pose proof (Nat.div_mod_eq (length l) 2) as Hdiv.
    pose proof (Nat.mod_upper_bound (length l) 2). lia. }
  assert (2 * k ≤ length l)%nat as Hhalf'.
  { unfold k. pose proof (Nat.div_mod_eq (length l) 2) as Hdiv. lia. }
  unfold len. split_and!.
  - rewrite <- Hperm. by eapply list_elem_of_lookup_2.
  - rewrite <- !Hperm. intros Hmajority.
    destruct (decide (lo ≤ median)) as [|Hlow]; [done|]. exfalso.
    assert (length (filter (λ x, lo ≤ x) sorted)
            = Nat.add (length (filter (λ x, lo ≤ x) (take (S k) sorted)))
                      (length (filter (λ x, lo ≤ x) (drop (S k) sorted)))) as Hsplit
      by by rewrite <- length_app, <- filter_app, take_drop.
    rewrite (filter_none _ (take (S k) sorted)) in Hsplit.
    + pose proof (length_filter (λ x, lo ≤ x) (drop (S k) sorted)) as Hdrop.
      rewrite length_drop in Hdrop. simpl in Hsplit. lia.
    + apply Forall_forall. intros x [i Hi]%list_elem_of_lookup.
      apply lookup_take_Some in Hi as [Hi Hlt].
      assert (x ≤ median)
        by (apply (StronglySorted_lookup_le sorted i k); [done|lia|done..]).
      lia.
  - rewrite <- !Hperm. intros Hmajority.
    destruct (decide (median ≤ hi)) as [|Hhigh]; [done|]. exfalso.
    assert (length (filter (λ x, x ≤ hi) sorted)
            = Nat.add (length (filter (λ x, x ≤ hi) (take k sorted)))
                      (length (filter (λ x, x ≤ hi) (drop k sorted)))) as Hsplit
      by by rewrite <- length_app, <- filter_app, take_drop.
    rewrite (filter_none _ (drop k sorted)) in Hsplit.
    + pose proof (length_filter (λ x, x ≤ hi) (take k sorted)) as Htake.
      rewrite length_take in Htake. simpl in Hsplit. lia.
    + apply Forall_forall. intros x [i Hi]%list_elem_of_lookup.
      rewrite lookup_drop in Hi.
      assert (median ≤ x)
        by (apply (StronglySorted_lookup_le sorted k (k + i)); [done|lia|done..]).
      lia.
Qed.

Section Majority.
Context `{Imports}.

(** X20: the time stamp of the outcome of a round above sequence
    number 1 is the time stamp of one of the counted observations, at least
    every bound that more than half of these time stamps reach and at most
    every bound that more than half of them stay under. *)
Theorem timestamp_follows_majority p rangeAdd outctx aos o (lo hi : Z) :
  1 < SeqNr outctx →
  outcomeOf p rangeAdd outctx aos = Ok o →
  let timestamps :=
    Observation.UnixTimestampNanoseconds <$> countedObservations p false aos in
  Outcome.ObservationsTimestampNanoseconds o ∈ timestamps
  ∧ (len timestamps < 2 * len (filter (λ t, lo ≤ t) timestamps) →
     lo ≤ Outcome.ObservationsTimestampNanoseconds o)
  ∧ (len timestamps < 2 * len (filter (λ t, t ≤ hi) timestamps) →
     Outcome.ObservationsTimestampNanoseconds o ≤ hi).
Proof.
  intros Hseq Hout timestamps.
  apply outcomeOf_Ok in Hout as (previousOutcome & acc & _ & Hacc & Hnext); [|done].
  apply nextOutcome_Ok in Hnext
    as (nanoseconds & ? & ? & ? & _ & Hmedian & _ & _ & _ & _ & ->).
  apply observeAll_noVotes in Hacc as (_ & Htimestamps & _).
  fold timestamps in Htimestamps. rewrite Htimestamps in Hmedian. simpl.
  unfold medianTimestamp in Hmedian.
  destruct (_ !! _) as [t|] eqn:Ht; [|done]. injection Hmedian as ->.
  apply (rank_median_majority _ (merge_sort Z.le timestamps)).
  - apply merge_sort_Permutation.
  - apply StronglySorted_merge_sort; apply _.
  - by rewrite (Permutation_length (merge_sort_Permutation Z.le timestamps)) in Ht.
Qed.

(** X21: when the values that the counted observations mark valid for
    a stream are not nil, the median of the stream in the outcome is one of
    them, at least every bound that more than half of them reach and at most
    every bound that more than half of them stay under. *)
Theorem stream_median_follows_majority
    p rangeAdd outctx aos o streamID (values : list Z) (median lo hi : Z) :
  1 < SeqNr outctx →
  outcomeOf p rangeAdd outctx aos = Ok o →
  validValues streamID (countedObservations p false aos) = Some <$> values →
  index (Outcome.StreamMedians o) streamID = Some (Some median) →
  median ∈ values
  ∧ (len values < 2 * len (filter (λ v, lo ≤ v) values) → lo ≤ median)
  ∧ (len values < 2 * len (filter (λ v, v ≤ hi) values) → median ≤ hi).
Proof.
  intros Hseq Hout Hvalues Hmedian.
  apply outcomeOf_Ok in Hout as (previousOutcome & acc & _ & Hacc & Hnext); [|done].
  apply nextOutcome_Ok in Hnext
    as (? & ? & ? & medians & _ & _ & _ & _ & _ & Hmedians & ->).
  apply observeAll_noVotes in Hacc as (_ & _ & _ & Hobserved & _).
  specialize (Hobserved streamID). rewrite Hvalues in Hobserved.
  apply rangeInto_Ok with (k := streamID) in Hmedians. simpl in Hmedian.
  rewrite Hmedian in Hmedians.
  destruct (streamObservations acc !! streamID) as [observations|]; [|done].
  simpl in Hobserved. subst observations.
  unfold streamMedian, sortBigInts in Hmedians.
  assert (mapM id (Some <$> values) = Some values) as Hall by by apply mapM_id_Some.
  rewrite Hall in Hmedians. simpl in Hmedians.
  case_bool_decide; [done|].
  destruct (_ !! _) as [m|] eqn:Hm; [|done]. injection Hmedians as ->.
  rewrite list_lookup_fmap, !length_fmap in Hm.
  apply fmap_Some in Hm as (m & Hm & [= <-]).
  apply (rank_median_majority _ (merge_sort Z.le values)).
  - apply merge_sort_Permutation.
  - apply StronglySorted_merge_sort; apply _.
  - by rewrite (Permutation_length (merge_sort_Permutation Z.le values)) in Hm.
Qed.
End Majority.

(** ** When Outcome returns an outcome *)

Section Success.
Context `{Imports}.

Lemma int_small z : - 2 ^ 63 ≤ z < 2 ^ 63 → int z = z.
Proof. intros Hz. unfold int. rewrite Z.mod_small; lia. Qed.

Lemma ObservationsTimestampSeconds_afterEdits previousOutcome defs :
  ObservationsTimestampSeconds (afterEdits previousOutcome defs)
  = ObservationsTimestampSeconds previousOutcome.
Proof. unfold afterEdits. by destruct (Outcome.ChannelDefinitions previousOutcome). Qed.

(** X22: when [Outcome] returns an outcome.  For a sequence number
    above 1 and observations that pass [ValidateObservation] where they
    decode, [Outcome] returns without error exactly when there are at least
    [2f+1] attributed observations, the previous outcome decodes, at least
    one observation is counted, the median of the counted time stamps fits a
    uint32 in seconds, and so does the time stamp of the previous outcome,
    unless the round starts from the [ValidAfterSeconds] of a retirement
    report. *)
Theorem Outcome_succeeds_iff p rangeAdd outctx aos :
  0 ≤ F p < 2 ^ 62 →
  1 < SeqNr outctx →
  (∀ ao, ao ∈ aos →
     is_Some (json_Unmarshal decodeObservation (ao_Observation ao)) →
     ValidateObservation p outctx ao = Ok tt) →
  (∃ raw, Outcome p rangeAdd outctx aos = Ok raw) ↔
    2 * F p + 1 ≤ len aos
    ∧ ∃ previousOutcome nanoseconds,
        json_Unmarshal decodeOutcome (PreviousOutcome outctx) = Some previousOutcome
        ∧ countedObservations p false aos ≠ []
        ∧ medianTimestamp
            (Observation.UnixTimestampNanoseconds <$> countedObservations p false aos)
          = Ok nanoseconds
        ∧ 0 ≤ nanoseconds `div` 1000000000 < 2 ^ 32
        ∧ ((Outcome.LifeCycleStage previousOutcome = LifeCycleStageStaging
            ∧ ∃ report, acceptedReport p aos = Some report
                ∧ is_Some (RetirementReport.ValidAfterSeconds report))
           ∨ 0 ≤ Outcome.ObservationsTimestampNanoseconds previousOutcome `div` 1000000000
             < 2 ^ 32).
Proof.
  intros Hf Hseq Hvalid.
  assert (int (int (2 * F p) + 1) = 2 * F p + 1) as Hquorum.
  { rewrite (int_small (2 * F p)) by lia. apply int_small. lia. }
  assert ((∃ raw, Outcome p rangeAdd outctx aos = Ok raw)
          ↔ ∃ o, outcomeOf p rangeAdd outctx aos = Ok o) as ->.
  { unfold Outcome. destruct (outcomeOf p rangeAdd outctx aos); simpl; naive_solver. }
  split.
  - intros [o Hout]. split.
    { unfold outcomeOf in Hout. rewrite Hquorum in Hout. case_bool_decide; [done|lia]. }
    pose proof Hout as (previousOutcome & acc & Hprevious & Hacc & Hnext)%outcomeOf_Ok;
      [|done].
    pose proof (handedOver_counted p previousOutcome aos acc Hacc) as Hhanded.
    apply nextOutcome_Ok in Hnext
      as (nanoseconds & validAfter & seconds & ? & Hsome & Hmedian & Hstart & -> & Hfit & _).
    apply observeAll_noVotes in Hacc as (_ & Htimestamps & _).
    rewrite Htimestamps in Hsome, Hmedian.
    exists previousOutcome, nanoseconds.
    split; [done|]. split; [intros Hnone; by rewrite Hnone in Hsome|].
    split; [done|]. split; [done|].
    destruct (handedOver previousOutcome acc) as [handed|].
    + left. case_bool_decide; [|done]. split; [done|].
      destruct (acceptedReport p aos) as [report|]; [|done]. eauto.
    + right. unfold carriedOver in Hstart.
      rewrite ObservationsTimestampSeconds_afterEdits in Hstart.
      destruct (ObservationsTimestampSeconds previousOutcome) as [s| |] eqn:Hs; [|done..].
      by apply ObservationsTimestampSeconds_Ok in Hs as [-> ?].
  - intros (Hlen & previousOutcome & nanoseconds & Hprevious & Hsome & Hmedian & Hfit & Hstart).
    unfold outcomeOf. rewrite Hquorum.
    rewrite bool_decide_eq_false_2 by lia. rewrite bool_decide_eq_false_2 by lia.
    rewrite Hprevious.
    destruct (observeAll_total p outctx aos noVotes) as (acc & Hacc & Hsortable); [done| |].
    { intros id observations. simpl. by rewrite lookup_empty. }
    rewrite Hacc. simpl.
    pose proof (handedOver_counted p previousOutcome aos acc Hacc) as Hhanded.
    pose proof (observeAll_noVotes _ _ _ Hacc) as (_ & Htimestamps & _).
    unfold nextOutcome. rewrite Htimestamps, Hmedian.
    rewrite bool_decide_eq_false_2.
    2:{ unfold len. rewrite length_fmap.
        destruct (countedObservations p false aos); [done|simpl; lia]. }
    cbv beta iota zeta delta [mbind Result_bind].
    assert (∃ validAfter,
              match handedOver previousOutcome acc with
              | Some validAfterSeconds => Ok validAfterSeconds
              | None =>
                  carriedOver
                    (afterEdits previousOutcome
                       (nextChannelDefinitions p rangeAdd previousOutcome acc).2)
              end = Ok validAfter) as [validAfter ->].
    { destruct (handedOver previousOutcome acc) as [handed|]; [eauto|].
      unfold carriedOver. rewrite ObservationsTimestampSeconds_afterEdits.
      destruct Hstart as [[Hstaging (report & Hreport & [handed Hmap])]|Hprev].
      - rewrite Hreport, bool_decide_eq_true_2 in Hhanded by done.
        simpl in Hhanded. congruence.
      - assert (ObservationsTimestampSeconds previousOutcome
                = Ok (Outcome.ObservationsTimestampNanoseconds previousOutcome
                      `div` 1000000000)) as ->
          by by apply ObservationsTimestampSeconds_Ok.
        eauto. }
    match goal with |- context [ObservationsTimestampSeconds ?o] =>
      assert (ObservationsTimestampSeconds o = Ok (nanoseconds `div` 1000000000)) as ->
        by by apply ObservationsTimestampSeconds_Ok end.
    destruct (rangeInto_total (λ _, streamMedian (F p)) (streamObservations acc))
      as [medians ->]; [|simpl; eauto].
    intros id observations Hid. destruct (Hsortable id observations Hid).
    by apply streamMedian_total.
Qed.
End Success.

(** ** From Outcome to Reports *)

Section Pipeline.
Context `{Imports} `{Marshal}.

Lemma outcomeOf_timestamp_fits p rangeAdd outctx aos o :
  outcomeOf p rangeAdd outctx aos = Ok o →
  ∃ seconds, ObservationsTimestampSeconds o = Ok seconds.
Proof.
  intros Hout. destruct (decide (SeqNr outctx ≤ 1)) as [Hfirst|Hlater].
  - unfold outcomeOf in Hout. case_bool_decide; [done|].
    rewrite bool_decide_eq_true_2 in Hout by done. injection Hout as <-.
    exists 0. by apply ObservationsTimestampSeconds_Ok.
  - apply outcomeOf_Ok in Hout as (previousOutcome & acc & _ & _ & Hnext); [|lia].
    apply nextOutcome_Ok in Hnext as (? & ? & seconds & ? & _ & _ & _ & -> & Hfit & _ & ->).
    eexists. by apply ObservationsTimestampSeconds_Ok.
Qed.

(** X23: an outcome that [Outcome] returns has a time stamp that fits a
    uint32 in seconds, at every sequence number.  So [Reports] has no error
    for the time stamp of such an outcome, and returns reports as soon as the
    format of every reportable channel has a codec that encodes. *)
Theorem Reports_after_Outcome p Codecs rangeAdd outctx aos o seqNr rawOutcome :
  outcomeOf p rangeAdd outctx aos = Ok o →
  json_Unmarshal decodeOutcome rawOutcome = Some o →
  (∀ channelID channelDefinition,
     IsReportable o channelID = Ok tt →
     index (Outcome.ChannelDefinitions o) channelID = Some channelDefinition →
     ∃ codec, Codecs !! ReportFormat channelDefinition = Some codec
              ∧ ∀ r, ∃ encoded, Encode codec r = Ok encoded) →
  (∃ seconds, ObservationsTimestampSeconds o = Ok seconds)
  ∧ ∃ rwis, Reports p Codecs seqNr rawOutcome = Ok rwis.
Proof.
  intros Hout Hdecode Hcodecs.
  destruct (outcomeOf_timestamp_fits _ _ _ _ _ Hout) as [seconds Hseconds].
  split; [eauto|].
  destruct (decide (seqNr ≤ 1)) as [Hfirst|Hlater].
  { unfold Reports. rewrite bool_decide_eq_true_2 by done. eauto. }
  rewrite (Reports_unfold _ _ _ _ o), Hseconds by (done || lia).
  apply reportChannels_total.
  intros channelID Hok%elem_of_ReportableChannels.
  pose proof Hok as (_ & _ & cd & Hcd & _)%IsReportable_Ok.
  destruct (Hcodecs channelID cd Hok Hcd) as (codec & Hcodec & Hencode).
  destruct (Hencode (channelReport p o seconds seqNr channelID)) as [encoded Hencoded].
  exists encoded. rewrite Hcd. simpl. unfold encodeReport. by rewrite Hcodec.
Qed.
End Pipeline.

(** ** When the order of the votes to add does not matter *)

Section Order.
Context `{Imports}.









End Order.

(** ** The further properties at concrete rounds *)

(** The two reportable channels, visited as 1 and 2 where the map
    yields 2 and 1. *)
Lemma ReportableChannels_any_order_witness :
  @reportableAmong (sending twoChannels) twoChannels [1; 2]
  = @ReportableChannels (sending twoChannels) twoChannels.
Proof.
  apply (@ReportableChannels_any_order (sending twoChannels) twoChannels [1; 2]).
  vm_compute. apply perm_swap.
Defined.

(** The reports of the retired outcome: the retirement report alone. *)
Lemma Reports_of_retired_outcome_witness :
  @Reports (sending retiredOutcome) exampleMarshal (noPredecessor 1) jsonOnly 3 [Byte.x00]
  = Ok [{| ReportWithInfo.Report :=
             @encodeRetirementReport exampleMarshal
               {| RetirementReport.ValidAfterSeconds :=
                    Outcome.ValidAfterSeconds retiredOutcome |};
           ReportWithInfo.Info :=
             {| LLOReportInfo.LifeCycleStage := LifeCycleStageRetired;
                LLOReportInfo.ReportFormat := "json" |} |}].
Proof.
  apply (@Reports_of_retired_outcome (sending retiredOutcome) exampleMarshal
           (noPredecessor 1) jsonOnly 3 [Byte.x00] retiredOutcome 20).
  - lia.
  - reflexivity.
  - reflexivity.
  - vm_compute. reflexivity.
Defined.

(** The reports of the outcome with two reportable channels. *)
Lemma Reports_channel_reports_witness :
  ∃ encoded,
    twoReports = @retirementReports exampleMarshal twoChannels ++ encoded
    ∧ Forall2 (λ channelID rwi,
        ∃ channelDefinition validAfterSeconds validUntilSeconds values,
          index (Outcome.ChannelDefinitions twoChannels) channelID = Some channelDefinition
          ∧ index (Outcome.ValidAfterSeconds twoChannels) channelID = Some validAfterSeconds
          ∧ ObservationsTimestampSeconds twoChannels = Ok validUntilSeconds
          ∧ validAfterSeconds < validUntilSeconds
          ∧ Forall2 (λ streamID value,
                       index (Outcome.StreamMedians twoChannels) streamID = Some (Some value))
              (StreamIDs channelDefinition) values
          ∧ encodeReport jsonOnly
              {| Report.ConfigDigest := ConfigDigest (noPredecessor 1);
                 Report.ChainSelector := ChainSelector channelDefinition;
                 Report.SeqNr := 3;
                 Report.ChannelID := channelID;
                 Report.ValidAfterSeconds := validAfterSeconds;
                 Report.ValidUntilSeconds := validUntilSeconds;
                 Report.Values := Some <$> values;
                 Report.Specimen :=
                   bool_decide (Outcome.LifeCycleStage twoChannels ≠ LifeCycleStageProduction) |}
              (ReportFormat channelDefinition)
            = Ok (ReportWithInfo.Report rwi)
          ∧ ReportWithInfo.Info rwi =
              {| LLOReportInfo.LifeCycleStage := Outcome.LifeCycleStage twoChannels;
                 LLOReportInfo.ReportFormat := ReportFormat channelDefinition |})
      (@ReportableChannels (sending twoChannels) twoChannels) encoded.
Proof.
  apply (@Reports_channel_reports (sending twoChannels) exampleMarshal
           (noPredecessor 1) jsonOnly 3 [Byte.x00] twoChannels twoReports).
  - lia.
  - reflexivity.
  - vm_compute. reflexivity.
Defined.

(** The same outcome with the codec for its format: [Reports] succeeds. *)
Lemma Reports_succeeds_iff_witness :
  (∃ rwis, @Reports (sending twoChannels) exampleMarshal (noPredecessor 1) jsonOnly 3
             [Byte.x00] = Ok rwis) ↔
    ∃ outcome seconds,
      json_Unmarshal (@decodeOutcome (sending twoChannels)) [Byte.x00] = Some outcome
      ∧ ObservationsTimestampSeconds outcome = Ok seconds
      ∧ ∀ channelID channelDefinition,
          @IsReportable (sending twoChannels) outcome channelID = Ok tt →
          index (Outcome.ChannelDefinitions outcome) channelID = Some channelDefinition →
          ∃ codec encoded,
            jsonOnly !! ReportFormat channelDefinition = Some codec
            ∧ Encode codec (channelReport (noPredecessor 1) outcome seconds 3 channelID)
              = Ok encoded.
Proof.
  apply (@Reports_succeeds_iff (sending twoChannels) exampleMarshal
           (noPredecessor 1) jsonOnly 3 [Byte.x00]).
  lia.
Defined.

(** The two smallest of the channels 10 to 14. *)
Lemma subtractChannelDefinitions_spec_witness :
  let difference :=
    subtractChannelDefinitions (Outcome.ChannelDefinitions stale) (Some ∅) 2 in
  let kept :=
    smallest (Z.to_nat 2)
      (dom (entries (Outcome.ChannelDefinitions stale))
       ∖ dom (entries (Some ∅ : option (gmap Z ChannelDefinition)))) in
  (∀ c, difference !! c =
        if bool_decide (c ∈ kept) then index (Outcome.ChannelDefinitions stale) c else None)
  ∧ (size difference ≤ Z.to_nat 2)%nat.
Proof.
  apply (subtractChannelDefinitions_spec (Outcome.ChannelDefinitions stale) (Some ∅) 2).
  lia.
Defined.

(** Three empty observations on the reporting outcome, with [f = 1]. *)
Lemma empty_observations_do_not_count_witness :
  Forall (λ ao, @ValidateObservation quietRound (noPredecessor 1) round2 ao = Ok tt) silent
  ∧ @outcomeOf quietRound (noPredecessor 1) id round2 silent = Err "no valid observations".
Proof.
  apply (@empty_observations_do_not_count quietRound (noPredecessor 1) id round2 silent).
  - simpl. lia.
  - vm_compute. eexists. reflexivity.
  - vm_compute. discriminate.
  - repeat constructor.
Defined.

(** The observation that the oracle builds on the reporting outcome,
    sent in a wire format that decodes it. *)
Lemma built_observation_passes_validation_witness :
  observationOf (noPredecessor 1) oracle id reporting = Ok built
  ∧ @ValidateObservation (exampleImports [reporting] [built]) (noPredecessor 1) round2
      (sentBy Byte.x00) = Ok tt.
Proof.
  split; [vm_compute; reflexivity|].
  apply (@built_observation_passes_validation (exampleImports [reporting] [built])
           (noPredecessor 1) oracle id reporting round2 (sentBy Byte.x00) built).
  - simpl. lia.
  - intros streams values [= <-]. split.
    + vm_compute. lia.
    + intros id' obsResult Hid _.
      apply lookup_singleton_Some in Hid as [_ <-]. simpl. eauto.
  - vm_compute. reflexivity.
  - reflexivity.
Defined.

(** Two definitions that the stand-in digest does not separate: it
    reads the two inputs, of 20 and 24 bytes, as the same number. *)
Lemma MakeChannelHash_collision_witness :
  @MakeChannelHash (sending reporting) selectorOne
  = @MakeChannelHash (sending reporting) streamZero
  ∧ ∃ data1 data2 : bytes,
      data1 ≠ data2 ∧ @Sum256 (sending reporting) data1 = @Sum256 (sending reporting) data2.
Proof.
  split; [vm_compute; reflexivity|].
  apply (@MakeChannelHash_collision (sending reporting) selectorOne streamZero).
  - unfold inRange, len. simpl. split_and!; try lia. constructor.
  - unfold inRange, len. simpl. split_and!; try lia. repeat constructor; lia.
  - discriminate.
  - vm_compute. reflexivity.
Defined.

(** The handover round: the staging instance is promoted and, without
    votes to retire, stays in production. *)
Lemma stage_of_outcome_witness :
  let stage :=
    if bool_decide (Outcome.LifeCycleStage staging = LifeCycleStageStaging
                    ∧ is_Some (@acceptedReport handover (successor 1) threeOracles))
    then LifeCycleStageProduction else Outcome.LifeCycleStage staging in
  Outcome.LifeCycleStage handoverOutcome =
    if bool_decide (stage = LifeCycleStageProduction
                    ∧ F (successor 1)
                      < retireVotes (@countedObservations handover (successor 1) false
                                       threeOracles))
    then LifeCycleStageRetired else stage.
Proof.
  apply (@stage_of_outcome handover (successor 1) id round2 threeOracles staging
           handoverOutcome).
  - simpl. lia.
  - reflexivity.
  - vm_compute. reflexivity.
Defined.

(** A round on a retired outcome in which all three oracles vote to
    remove channel 1 and to add channel 2. *)
Lemma retired_is_final_witness :
  Outcome.LifeCycleStage stillRetired = LifeCycleStageRetired
  ∧ entries (Outcome.ChannelDefinitions stillRetired)
    = entries (Outcome.ChannelDefinitions retiredOutcome)
  ∧ ∀ c, is_Some (index (Outcome.ValidAfterSeconds retiredOutcome) c) →
      ∃ seconds, ObservationsTimestampSeconds retiredOutcome = Ok seconds
                 ∧ index (Outcome.ValidAfterSeconds stillRetired) c = Some seconds.
Proof.
  apply (@retired_is_final retiredRound (noPredecessor 1) id round2 threeOracles
           retiredOutcome stillRetired).
  - intros l. reflexivity.
  - simpl. lia.
  - reflexivity.
  - reflexivity.
  - vm_compute. reflexivity.
Defined.


(** The round with the split vote, visited in the order of the map:
    the definition of channel 1 over stream 7 has two votes. *)
Lemma definition_provenance_witness :
  let counted := @countedObservations splitVote (noPredecessor 1) false fourOracles in
  (index (Outcome.ChannelDefinitions empty) 1 = Some (ethereum [7])
   ∧ (Outcome.LifeCycleStage addedOutcome = LifeCycleStageRetired
      ∨ removeVotes 1 counted ≤ F (noPredecessor 1)))
  ∨ (Outcome.LifeCycleStage addedOutcome ≠ LifeCycleStageRetired
     ∧ (index (Outcome.ChannelDefinitions empty) 1 = None
        ∨ F (noPredecessor 1) < removeVotes 1 counted)
     ∧ F (noPredecessor 1)
       < @addVotes splitVote (@MakeChannelHash splitVote (withID 1 (ethereum [7]))) counted
     ∧ ∃ observation, observation ∈ counted
         ∧ Observation.AddChannelDefinitions observation !! 1 = Some (ethereum [7])).
Proof.
  apply (@definition_provenance splitVote (noPredecessor 1) id round2 fourOracles
           empty addedOutcome 1 (ethereum [7])).
  - intros l. reflexivity.
  - simpl. lia.
  - simpl. lia.
  - reflexivity.
  - vm_compute. reflexivity.
  - reflexivity.
Defined.

(** The quiet round keeps the entry of channel 2, which has no
    definition. *)
Lemma validAfterSeconds_channels_witness :
  is_Some (index (Outcome.ValidAfterSeconds quietOutcome) 2) ↔
    (2 ∈ @inheritedChannels quietRound (noPredecessor 1) reporting threeOracles
     ∨ is_Some (index (Outcome.ChannelDefinitions quietOutcome) 2))
    ∧ ¬ (Outcome.LifeCycleStage quietOutcome ≠ LifeCycleStageRetired
         ∧ F (noPredecessor 1)
           < removeVotes 2 (@countedObservations quietRound (noPredecessor 1) false
                              threeOracles)).
Proof.
  apply (@validAfterSeconds_channels quietRound (noPredecessor 1) id round2 threeOracles
           reporting quietOutcome 2).
  - simpl. lia.
  - simpl. lia.
  - reflexivity.
  - vm_compute. reflexivity.
Defined.

(** Channel 1 is added in the round with the split vote and is not
    reportable in its outcome. *)
Lemma new_channel_not_reportable_witness :
  @IsReportable splitVote addedOutcome 1 ≠ Ok tt.
Proof.
  apply (@new_channel_not_reportable splitVote (noPredecessor 1) id round2 fourOracles
           empty addedOutcome 1).
  - simpl. lia.
  - reflexivity.
  - vm_compute. reflexivity.
  - vm_compute. intros Hin. discriminate Hin.
Defined.

(** The round with the time stamps 100, 200 and 300: two of the three
    reach 150 and two stay under 250. *)
Lemma timestamp_follows_majority_witness :
  let timestamps :=
    Observation.UnixTimestampNanoseconds
      <$> @countedObservations medianRound (noPredecessor 1) false threeOracles in
  Outcome.ObservationsTimestampNanoseconds medianOutcome ∈ timestamps
  ∧ (len timestamps < 2 * len (filter (λ t, 150 ≤ t) timestamps) →
     150 ≤ Outcome.ObservationsTimestampNanoseconds medianOutcome)
  ∧ (len timestamps < 2 * len (filter (λ t, t ≤ 250) timestamps) →
     Outcome.ObservationsTimestampNanoseconds medianOutcome ≤ 250).
Proof.
  apply (@timestamp_follows_majority medianRound (noPredecessor 1) id round2 threeOracles
           medianOutcome 150 250).
  - simpl. lia.
  - vm_compute. reflexivity.
Defined.

(** The same round with the values 10, 20 and 30 for stream 7. *)
Lemma stream_median_follows_majority_witness :
  validValues 7 (@countedObservations medianRound (noPredecessor 1) false threeOracles)
  = Some <$> [10; 20; 30]
  ∧ index (Outcome.StreamMedians medianOutcome) 7 = Some (Some 20)
  ∧ 20 ∈ [10; 20; 30]
  ∧ (len [10; 20; 30] < 2 * len (filter (λ v, 15 ≤ v) [10; 20; 30]) → 15 ≤ 20)
  ∧ (len [10; 20; 30] < 2 * len (filter (λ v, v ≤ 25) [10; 20; 30]) → 20 ≤ 25).
Proof.
  split; [vm_compute; reflexivity|]. split; [reflexivity|].
  apply (@stream_median_follows_majority medianRound (noPredecessor 1) id round2
           threeOracles medianOutcome 7 [10; 20; 30] 20 15 25).
  - simpl. lia.
  - vm_compute. reflexivity.
  - vm_compute. reflexivity.
  - reflexivity.
Defined.

(** The quiet round, whose observations pass the validation. *)
Lemma Outcome_succeeds_iff_witness :
  (∃ raw, @Outcome quietRound (noPredecessor 1) id round2 threeOracles = Ok raw) ↔
    2 * F (noPredecessor 1) + 1 ≤ len threeOracles
    ∧ ∃ previousOutcome nanoseconds,
        json_Unmarshal (@decodeOutcome quietRound) (PreviousOutcome round2)
          = Some previousOutcome
        ∧ @countedObservations quietRound (noPredecessor 1) false threeOracles ≠ []
        ∧ medianTimestamp
            (Observation.UnixTimestampNanoseconds
               <$> @countedObservations quietRound (noPredecessor 1) false threeOracles)
          = Ok nanoseconds
        ∧ 0 ≤ nanoseconds `div` 1000000000 < 2 ^ 32
        ∧ ((Outcome.LifeCycleStage previousOutcome = LifeCycleStageStaging
            ∧ ∃ report, @acceptedReport quietRound (noPredecessor 1) threeOracles = Some report
                ∧ is_Some (RetirementReport.ValidAfterSeconds report))
           ∨ 0 ≤ Outcome.ObservationsTimestampNanoseconds previousOutcome `div` 1000000000
             < 2 ^ 32).
Proof.
  apply (@Outcome_succeeds_iff quietRound (noPredecessor 1) id round2 threeOracles).
  - simpl. lia.
  - simpl. lia.
  - intros ao Hin _.
    repeat (apply elem_of_cons in Hin as [->|Hin]; [vm_compute; reflexivity|]).
    by apply elem_of_nil in Hin.
Defined.

(** The quiet round and the reports of its outcome. *)
Lemma Reports_after_Outcome_witness :
  (∃ seconds, ObservationsTimestampSeconds quietOutcome = Ok seconds)
  ∧ ∃ rwis, @Reports quietPipeline exampleMarshal (noPredecessor 1) jsonOnly 3
              [Byte.x01] = Ok rwis.
Proof.
  apply (@Reports_after_Outcome quietPipeline exampleMarshal (noPredecessor 1)
           jsonOnly id round2 threeOracles quietOutcome 3 [Byte.x01]).
  - vm_compute. reflexivity.
  - reflexivity.
  - intros channelID cd Hreportable Hcd.
    simpl in Hcd. apply lookup_singleton_Some in Hcd as [_ <-].
    exists channelIdCodec. split; [reflexivity|]. intros r. eexists. reflexivity.
Defined.

